(** * qopensearch: the OpenSearch engine and its description reader

    A shallow embedding of [opensearchengine.cpp] and [opensearchreader.cpp].
    Qt's value classes are modelled in [Module Qt] (a [QString] is a
    [string] of UTF-8 bytes), the engine in [Module OpenSearchEngine] and
    the reader in [Module OpenSearchReader]. *)

From Stdlib Require Import String Ascii List Bool Arith Lia.
From stdpp Require Import gmap strings.
Import ListNotations.

Local Open Scope string_scope.
Local Open Scope list_scope.

(* ===================================================================== *)
(** * Qt value classes used by the engine *)
(* ===================================================================== *)

Module Qt.

(** ** QString *)

(** [QString::isEmpty]. *)
Definition isEmpty (s : string) : bool :=
  match s with
  | EmptyString => true
  | String _ _ => false
  end.

(** The scanning loop shared by [QString::replace(before, after)] and
    [QString::replace(QRegExp, after)]: [matchAt s] gives the length of the
    match that starts at the head of [s], if there is one.  Matches are
    searched from left to right and do not overlap; [skip] counts the
    characters of the current match that are still to be dropped. *)
Fixpoint replaceAll (matchAt : string -> option nat) (after : string)
    (skip : nat) (s : string) : string :=
  match skip, s with
  | S k, String _ s' => replaceAll matchAt after k s'
  | S _, EmptyString => EmptyString
  | O, EmptyString =>
      match matchAt EmptyString with
      | Some _ => after
      | None => EmptyString
      end
  | O, String c s' =>
      match matchAt s with
      | Some (S n) => after +:+ replaceAll matchAt after n s'
      | Some O => after +:+ String c (replaceAll matchAt after O s')
      | None => String c (replaceAll matchAt after O s')
      end
  end.

(** A literal pattern matches where it is a prefix. *)
Definition matchLiteral (before : string) (s : string) : option nat :=
  if String.prefix before s then Some (String.length before) else None.

(** [QString::replace(const QString &before, const QString &after)]. *)
Definition replace (before after s : string) : string :=
  replaceAll (matchLiteral before) after 0 s.

(** [QString::replace(QChar before, QChar after)]. *)
Fixpoint replaceChar (before after : ascii) (s : string) : string :=
  match s with
  | EmptyString => EmptyString
  | String c s' =>
      String (if Ascii.eqb c before then after else c)
             (replaceChar before after s')
  end.

(** [QString::toLower], on the ASCII letters (no other character
    lower-cases to a letter of [get] or [post]). *)
Definition lowerChar (c : ascii) : ascii :=
  let n := nat_of_ascii c in
  if ((65 <=? n) && (n <=? 90))%nat then ascii_of_nat (n + 32) else c.

Fixpoint toLower (s : string) : string :=
  match s with
  | EmptyString => EmptyString
  | String c s' => String (lowerChar c) (toLower s')
  end.

(** [QChar::isSpace] (Qt 4): the characters U+0009 to U+000D and the
    characters of the categories Zs, Zl and Zp, which are U+0020, U+00A0,
    U+1680, U+180E, U+2000 to U+200A, U+2028, U+2029, U+202F, U+205F and
    U+3000. *)
Definition isSpace (ucs : N) : bool :=
  (((9 <=? ucs) && (ucs <=? 13))
   || (ucs =? 32) || (ucs =? 160) || (ucs =? 5760) || (ucs =? 6158)
   || ((8192 <=? ucs) && (ucs <=? 8202))
   || (ucs =? 8232) || (ucs =? 8233) || (ucs =? 8239) || (ucs =? 8287)
   || (ucs =? 12288))%N.

(** The value of a continuation byte of UTF-8. *)
Definition continuationByte (c : ascii) : option N :=
  let n := N_of_ascii c in
  if ((128 <=? n) && (n <=? 191))%N then Some (n - 128)%N else None.

(** [QString::fromUtf8] at the head of a text: the character there and the
    number of its bytes, for the characters of one to three bytes.  These
    are the characters that are one [QChar]; a character of four bytes is
    two [QChar]s, neither of them white space. *)
Definition headChar (s : string) : option (N * nat) :=
  match s with
  | EmptyString => None
  | String c s1 =>
      let n := N_of_ascii c in
      if (n <? 128)%N then Some (n, 1)
      else if ((194 <=? n) && (n <=? 223))%N then
        match s1 with
        | String d _ =>
            match continuationByte d with
            | Some x => Some (((n - 192) * 64 + x)%N, 2)
            | None => None
            end
        | EmptyString => None
        end
      else if ((224 <=? n) && (n <=? 239))%N then
        match s1 with
        | String d (String e _) =>
            match continuationByte d, continuationByte e with
            | Some x, Some y =>
                let u := ((n - 224) * 4096 + x * 64 + y)%N in
                if (2048 <=? u)%N then Some (u, 3) else None
            | _, _ => None
            end
        | _ => None
        end
      else None
  end.

(** The number of bytes of the white-space character at the head of a
    text, 0 when there is none. *)
Definition spaceLength (s : string) : nat :=
  match headChar s with
  | Some (ucs, n) => if isSpace ucs then n else 0
  | None => 0
  end.

(** The text without the white space at its start. *)
Fixpoint trimLeft (s : string) : string :=
  match spaceLength s, s with
  | 1, String _ s1 => trimLeft s1
  | 2, String _ (String _ s2) => trimLeft s2
  | 3, String _ (String _ (String _ s3)) => trimLeft s3
  | _, _ => s
  end.

(** White space and nothing else. *)
Definition allSpace (s : string) : bool := isEmpty (trimLeft s).

(** The text without the white space at its end: it ends where what is
    left is white space and nothing else. *)
Fixpoint trimRight (s : string) : string :=
  match s with
  | EmptyString => EmptyString
  | String c s' =>
      if allSpace s then EmptyString else String c (trimRight s')
  end.

(** [QString::trimmed], on the UTF-8 bytes of the text: the white space
    [QChar::isSpace] knows is taken from both ends.  The bytes are taken
    to be UTF-8, as [QString::fromUtf8] reads them; no byte of a
    character of several bytes is a character of its own, so a text ends
    in white space exactly when one of its ends is white space only. *)
Definition trimmed (s : string) : string := trimRight (trimLeft s).


(** [QString::startsWith(QChar)] and [QString::endsWith(QChar)]. *)
Definition startsWith (c : ascii) (s : string) : bool :=
  match s with
  | EmptyString => false
  | String d _ => Ascii.eqb d c
  end.

Fixpoint endsWith (c : ascii) (s : string) : bool :=
  match s with
  | EmptyString => false
  | String d EmptyString => Ascii.eqb d c
  | String _ s' => endsWith c s'
  end.

(** [QString::mid(n)]: the string without its first [n] characters. *)
Fixpoint dropChars (n : nat) (s : string) : string :=
  match n, s with
  | S n', String _ s' => dropChars n' s'
  | _, _ => s
  end.

(** [QStringList::join]. *)
Fixpoint join (sep : string) (l : list string) : string :=
  match l with
  | [] => EmptyString
  | [x] => x
  | x :: l' => x +:+ sep +:+ join sep l'
  end.

(** ** QRegExp, for the one pattern of the engine *)

(** The characters up to the first closing brace, when there is one. *)
Fixpoint uptoClose (s : string) : option string :=
  match s with
  | EmptyString => None
  | String c s' =>
      if Ascii.eqb c "}" then Some EmptyString
      else match uptoClose s' with
           | Some b => Some (String c b)
           | None => None
           end
  end.

(** [sourceBody start b]: [b] is [X source] or [X source?] where [X] is
    empty or ends in a colon; [start] tells whether [source] may begin at
    the head of [b] (at the opening brace, or right after a colon). *)
Fixpoint sourceBody (start : bool) (b : string) : bool :=
  (start && (String.eqb b "source" || String.eqb b "source?"))
  || match b with
     | EmptyString => false
     | String c b' => sourceBody (Ascii.eqb c ":") b'
     end.

(** A match of [\{([^\}]*:|)source\??\}] at the head of [s].  The text
    between the braces cannot hold a closing brace, so the match ends at
    the first closing brace and its length is determined. *)
Definition matchSource (s : string) : option nat :=
  match s with
  | String "{" s' =>
      match uptoClose s' with
      | Some b => if sourceBody true b then Some (String.length b + 2) else None
      | None => None
      end
  | _ => None
  end.

(** [QString::replace(QRegExp("\\{([^\\}]*:|)source\\??\\}"), after)], for
    an [after] without back-references ([\1]). *)
Definition replaceSource (after s : string) : string :=
  replaceAll matchSource after 0 s.

(** ** QUrl *)

Definition hexDigit (n : nat) : ascii :=
  match String.get n "0123456789ABCDEF" with
  | Some c => c
  | None => "0"%char
  end.

(** RFC 3986 unreserved characters: ALPHA / DIGIT / "-" / "." / "_" / "~". *)
Definition unreserved (c : ascii) : bool :=
  let n := nat_of_ascii c in
  (((97 <=? n) && (n <=? 122)) || ((65 <=? n) && (n <=? 90))
   || ((48 <=? n) && (n <=? 57))
   || (n =? 45) || (n =? 46) || (n =? 95) || (n =? 126))%nat.

(** [QUrl::toPercentEncoding(input)] with empty [exclude] and [include]. *)
Fixpoint toPercentEncoding (s : string) : string :=
  match s with
  | EmptyString => EmptyString
  | String c s' =>
      if unreserved c then String c (toPercentEncoding s')
      else
        let n := nat_of_ascii c in
        String "%" (String (hexDigit (n / 16)) (String (hexDigit (n mod 16))
          (toPercentEncoding s')))
  end.

(** A [QUrl] as the engine builds it: [QUrl()] is the invalid, empty URL;
    otherwise the URL was made by [QUrl::fromEncoded] from [encoded] and
    then received the [queryItems] through [addQueryItem], in that order. *)
Inductive QUrl : Type :=
  | QUrl_null
  | QUrl_from (encoded : string) (queryItems : list (string * string)).

Definition fromEncoded (bytes : string) : QUrl := QUrl_from bytes [].

Definition addQueryItem (u : QUrl) (key value : string) : QUrl :=
  match u with
  | QUrl_null => QUrl_from EmptyString [(key, value)]
  | QUrl_from e q => QUrl_from e (q ++ [(key, value)])
  end.

(** ** QNetworkAccessManager::Operation *)

Inductive Operation : Type :=
  | UnknownOperation (* the value-initialised enum, 0 *)
  | HeadOperation
  | GetOperation
  | PutOperation
  | PostOperation.

End Qt.

(* ===================================================================== *)
(** * QtScript, as far as the engine uses it *)
(* ===================================================================== *)

Module QtScript.

(** The engine hands the response to a [QScriptEngine] and looks at the
    result through the operations below only.  They form an interface,
    and the engine is verified for every implementation of it.  The value
    of a program is taken to depend on the program alone: a response is
    data, not a program that changes the script engine. *)
Class QScriptEngine : Type := {
  QScriptValue : Type;
  (** [QScriptEngine::canEvaluate] *)
  canEvaluate : string -> bool;
  (** [QScriptEngine::evaluate] *)
  evaluate : string -> QScriptValue;
  (** [QScriptValue::property(quint32)] *)
  property : QScriptValue -> nat -> QScriptValue;
  (** [QScriptValue::isArray] *)
  isArray : QScriptValue -> bool;
  (** [qScriptValueToSequence], into a [QStringList] *)
  qScriptValueToSequence : QScriptValue -> list string;
  (** A program that cannot be evaluated is an incomplete one; evaluating
      it gives a syntax error object, which has no array at index 1. *)
  canEvaluate_evaluate :
    forall program, canEvaluate program = false ->
                    isArray (property (evaluate program) 1) = false
}.

(** ** The JSON fragment

    An implementation of the interface for programs that are JSON values:
    what QtScript computes for a literal made of arrays, strings, numbers,
    [true], [false] and [null]. *)

#[warnings="-register-all"]
Inductive JsonValue : Type :=
  | JUndefined
  | JNull
  | JBool (b : bool)
  | JNumber (literal : string)
  | JString (s : string)
  | JArray (items : list JsonValue)
  | JError.

(** The outcome of reading one value: the value and the rest of the text,
    a syntax error, or the end of the text inside a value. *)
Inductive Parsed (A : Type) : Type :=
  | POk (v : A) (rest : string)
  | PError
  | PIncomplete.
Arguments POk {A} v rest.
Arguments PError {A}.
Arguments PIncomplete {A}.

(** The double quote. *)
Definition quote : ascii := ascii_of_nat 34.

Definition quoted (s : string) : string :=
  String quote (s +:+ String quote "").

(** White space between the tokens of a program: tab, line feed, vertical
    tab, form feed, carriage return and space. *)
Definition isWhiteSpace (c : ascii) : bool :=
  let n := nat_of_ascii c in
  (((9 <=? n) && (n <=? 13)) || (n =? 32))%nat.

Fixpoint skipSpaces (s : string) : string :=
  match s with
  | String c s' => if isWhiteSpace c then skipSpaces s' else s
  | EmptyString => EmptyString
  end.

(** The characters of a string literal after its opening quote. *)
Fixpoint parseStringBody (s : string) (acc : string) : Parsed string :=
  match s with
  | EmptyString => PIncomplete
  | String c s' =>
      if Ascii.eqb c quote then POk acc s'
      else if Ascii.eqb c "\" then
        match s' with
        | EmptyString => PIncomplete
        | String e s'' =>
            if Ascii.eqb e quote || Ascii.eqb e "\" || Ascii.eqb e "/"
            then parseStringBody s'' (acc +:+ String e "")
            else PError
        end
      else parseStringBody s' (acc +:+ String c "")
  end.

Definition isNumberChar (c : ascii) : bool :=
  let n := nat_of_ascii c in
  (((48 <=? n) && (n <=? 57)) || (n =? 45) || (n =? 43) || (n =? 46)
   || (n =? 101) || (n =? 69))%nat.

Fixpoint parseNumber (s : string) (acc : string) : string * string :=
  match s with
  | String c s' =>
      if isNumberChar c then parseNumber s' (acc +:+ String c "") else (acc, s)
  | EmptyString => (acc, s)
  end.

(** A value, and the elements of an array after its opening bracket;
    [fuel] bounds the nesting and the number of elements together. *)
Fixpoint parseValue (fuel : nat) (s : string) : Parsed JsonValue :=
  match fuel with
  | O => PError
  | S f =>
      match skipSpaces s with
      | EmptyString => PIncomplete
      | String c s' =>
          if Ascii.eqb c "[" then
            match skipSpaces s' with
            | String "]" s'' => POk (JArray []) s''
            | _ =>
                (fix elements (g : nat) (s : string) (acc : list JsonValue)
                   : Parsed JsonValue :=
                   match g with
                   | O => PError
                   | S g' =>
                       match parseValue f s with
                       | POk v rest =>
                           match skipSpaces rest with
                           | String "," rest' => elements g' rest' (acc ++ [v])
                           | String "]" rest' => POk (JArray (acc ++ [v])) rest'
                           | EmptyString => PIncomplete
                           | _ => PError
                           end
                       | PError => PError
                       | PIncomplete => PIncomplete
                       end
                   end) f s' []
            end
          else if Ascii.eqb c quote then
            match parseStringBody s' "" with
            | POk str rest => POk (JString str) rest
            | PError => PError
            | PIncomplete => PIncomplete
            end
          else if isNumberChar c then
            let '(lit, rest) := parseNumber s' (String c "") in
            POk (JNumber lit) rest
          else if String.prefix "true" (String c s') then
            POk (JBool true) (Qt.dropChars 4 (String c s'))
          else if String.prefix "false" (String c s') then
            POk (JBool false) (Qt.dropChars 5 (String c s'))
          else if String.prefix "null" (String c s') then
            POk JNull (Qt.dropChars 4 (String c s'))
          else PError
      end
  end.

(** The whole program must be one value. *)
Definition parseProgram (s : string) : Parsed JsonValue :=
  match parseValue (S (String.length s)) s with
  | POk v rest =>
      match skipSpaces rest with
      | EmptyString => POk v ""
      | _ => PError
      end
  | PError => PError
  | PIncomplete => PIncomplete
  end.

(** The conversion of a value to [QString] that [qscriptvalue_cast] does. *)
Fixpoint jsonToString (v : JsonValue) : string :=
  match v with
  | JUndefined | JNull => ""
  | JBool true => "true"
  | JBool false => "false"
  | JNumber lit => lit
  | JString s => s
  | JArray items => Qt.join "," (map jsonToString items)
  | JError => "SyntaxError"
  end.

Definition jsonCanEvaluate (s : string) : bool :=
  match parseProgram s with
  | PIncomplete => false
  | _ => true
  end.

Definition jsonEvaluate (s : string) : JsonValue :=
  match parseProgram s with
  | POk v _ => v
  | _ => JError
  end.

Definition jsonProperty (v : JsonValue) (i : nat) : JsonValue :=
  match v with
  | JArray items => nth i items JUndefined
  | _ => JUndefined
  end.

Definition jsonIsArray (v : JsonValue) : bool :=
  match v with
  | JArray _ => true
  | _ => false
  end.

Definition jsonToSequence (v : JsonValue) : list string :=
  match v with
  | JArray items => map jsonToString items
  | _ => []
  end.

#[export] Instance jsonScriptEngine : QScriptEngine.
Proof.
  refine {| QScriptValue := JsonValue;
            canEvaluate := jsonCanEvaluate;
            evaluate := jsonEvaluate;
            property := jsonProperty;
            isArray := jsonIsArray;
            qScriptValueToSequence := jsonToSequence;
            canEvaluate_evaluate := _ |}.
  intros program. unfold jsonCanEvaluate, jsonEvaluate.
  destruct (parseProgram program); [discriminate.. | reflexivity].
Defined.

End QtScript.

(* ===================================================================== *)
(** * opensearchengine.cpp *)
(* ===================================================================== *)

Module OpenSearchEngine.
Import Qt.

(** [typedef QPair<QString, QString> Parameter] and
    [typedef QList<Parameter> Parameters]. *)
Definition ParameterPair : Type := (string * string)%type.
Definition Parameters : Type := list ParameterPair.

(** The process-wide configuration [parseTemplate] reads:
    [QLocale().name()] and [QCoreApplication::applicationName()]. *)
Record Env : Type := {
  localeName : string;
  applicationName : string
}.

(** A pending [QNetworkReply] is known by its number. *)
Abbreviation ReplyId := nat (only parsing).

(** [class OpenSearchEnginePrivate].  The pointers to the network access
    manager and to the delegate are kept as null or not null; the pixel
    data of the image is not modelled. *)
Record OpenSearchEngine : Type := {
  name : string;
  description : string;
  imageUrl : string;
  tags : list string;
  searchUrlTemplate : string;
  suggestionsUrlTemplate : string;
  searchParameters : Parameters;
  suggestionsParameters : Parameters;
  searchMethod : string;
  suggestionsMethod : string;
  requestMethods : gmap string Operation;
  networkAccessManager : bool;
  suggestionsReply : option ReplyId;
  delegate : bool
}.

(** [OpenSearchEnginePrivate::OpenSearchEnginePrivate] followed by the two
    insertions of [OpenSearchEngine::OpenSearchEngine]. *)
Definition newEngine : OpenSearchEngine := {|
  name := "";
  description := "";
  imageUrl := "";
  tags := [];
  searchUrlTemplate := "";
  suggestionsUrlTemplate := "";
  searchParameters := [];
  suggestionsParameters := [];
  searchMethod := "get";
  suggestionsMethod := "get";
  requestMethods := <["post" := PostOperation]> (<["get" := GetOperation]> ∅);
  networkAccessManager := false;
  suggestionsReply := None;
  delegate := false
|}.

(** [QMap::contains] and [QMap::value]. *)
Definition contains (m : gmap string Operation) (k : string) : bool :=
  match m !! k with
  | Some _ => true
  | None => false
  end.

Definition value (m : gmap string Operation) (k : string) : Operation :=
  match m !! k with
  | Some op => op
  | None => UnknownOperation
  end.

(** [OpenSearchEngine::parseTemplate], current revision: the search term
    is percent-encoded before it replaces [{searchTerms}]. *)
Definition parseTemplate (env : Env) (searchTerm searchTemplate : string)
  : string :=
  let language := localeName env in
  let language := replaceChar "_" "-" language in
  let result := searchTemplate in
  let result := replace "{count}" "20" result in
  let result := replace "{startIndex}" "0" result in
  let result := replace "{startPage}" "0" result in
  let result := replace "{language}" language result in
  let result := replace "{inputEncoding}" "UTF-8" result in
  let result := replace "{outputEncoding}" "UTF-8" result in
  let result := replaceSource (applicationName env) result in
  let result := replace "{searchTerms}" (toPercentEncoding searchTerm) result in
  result.

(** [OpenSearchEngine::parseTemplate], first revision of the file: the
    search term replaces [{searchTerms}] as it is. *)
Definition parseTemplate_rev1 (env : Env) (searchTerm searchTemplate : string)
  : string :=
  let language := localeName env in
  let language := replaceChar "_" "-" language in
  let result := searchTemplate in
  let result := replace "{count}" "20" result in
  let result := replace "{startIndex}" "0" result in
  let result := replace "{startPage}" "0" result in
  let result := replace "{language}" language result in
  let result := replace "{inputEncoding}" "UTF-8" result in
  let result := replace "{outputEncoding}" "UTF-8" result in
  let result := replaceSource (applicationName env) result in
  let result := replace "{searchTerms}" searchTerm result in
  result.

(** ** Setters *)

Definition setName (v : string) (d : OpenSearchEngine) : OpenSearchEngine :=
  {| name := v; description := description d; imageUrl := imageUrl d;
     tags := tags d; searchUrlTemplate := searchUrlTemplate d;
     suggestionsUrlTemplate := suggestionsUrlTemplate d;
     searchParameters := searchParameters d;
     suggestionsParameters := suggestionsParameters d;
     searchMethod := searchMethod d; suggestionsMethod := suggestionsMethod d;
     requestMethods := requestMethods d;
     networkAccessManager := networkAccessManager d;
     suggestionsReply := suggestionsReply d; delegate := delegate d |}.

Definition setDescription (v : string) (d : OpenSearchEngine) : OpenSearchEngine :=
  {| name := name d; description := v; imageUrl := imageUrl d;
     tags := tags d; searchUrlTemplate := searchUrlTemplate d;
     suggestionsUrlTemplate := suggestionsUrlTemplate d;
     searchParameters := searchParameters d;
     suggestionsParameters := suggestionsParameters d;
     searchMethod := searchMethod d; suggestionsMethod := suggestionsMethod d;
     requestMethods := requestMethods d;
     networkAccessManager := networkAccessManager d;
     suggestionsReply := suggestionsReply d; delegate := delegate d |}.

Definition setImageUrl (v : string) (d : OpenSearchEngine) : OpenSearchEngine :=
  {| name := name d; description := description d; imageUrl := v;
     tags := tags d; searchUrlTemplate := searchUrlTemplate d;
     suggestionsUrlTemplate := suggestionsUrlTemplate d;
     searchParameters := searchParameters d;
     suggestionsParameters := suggestionsParameters d;
     searchMethod := searchMethod d; suggestionsMethod := suggestionsMethod d;
     requestMethods := requestMethods d;
     networkAccessManager := networkAccessManager d;
     suggestionsReply := suggestionsReply d; delegate := delegate d |}.

Definition setTags (v : list string) (d : OpenSearchEngine) : OpenSearchEngine :=
  {| name := name d; description := description d; imageUrl := imageUrl d;
     tags := v; searchUrlTemplate := searchUrlTemplate d;
     suggestionsUrlTemplate := suggestionsUrlTemplate d;
     searchParameters := searchParameters d;
     suggestionsParameters := suggestionsParameters d;
     searchMethod := searchMethod d; suggestionsMethod := suggestionsMethod d;
     requestMethods := requestMethods d;
     networkAccessManager := networkAccessManager d;
     suggestionsReply := suggestionsReply d; delegate := delegate d |}.

Definition setSearchUrlTemplate (v : string) (d : OpenSearchEngine)
  : OpenSearchEngine :=
  {| name := name d; description := description d; imageUrl := imageUrl d;
     tags := tags d; searchUrlTemplate := v;
     suggestionsUrlTemplate := suggestionsUrlTemplate d;
     searchParameters := searchParameters d;
     suggestionsParameters := suggestionsParameters d;
     searchMethod := searchMethod d; suggestionsMethod := suggestionsMethod d;
     requestMethods := requestMethods d;
     networkAccessManager := networkAccessManager d;
     suggestionsReply := suggestionsReply d; delegate := delegate d |}.

Definition setSuggestionsUrlTemplate (v : string) (d : OpenSearchEngine)
  : OpenSearchEngine :=
  {| name := name d; description := description d; imageUrl := imageUrl d;
     tags := tags d; searchUrlTemplate := searchUrlTemplate d;
     suggestionsUrlTemplate := v;
     searchParameters := searchParameters d;
     suggestionsParameters := suggestionsParameters d;
     searchMethod := searchMethod d; suggestionsMethod := suggestionsMethod d;
     requestMethods := requestMethods d;
     networkAccessManager := networkAccessManager d;
     suggestionsReply := suggestionsReply d; delegate := delegate d |}.

Definition setSearchParameters (v : Parameters) (d : OpenSearchEngine)
  : OpenSearchEngine :=
  {| name := name d; description := description d; imageUrl := imageUrl d;
     tags := tags d; searchUrlTemplate := searchUrlTemplate d;
     suggestionsUrlTemplate := suggestionsUrlTemplate d;
     searchParameters := v;
     suggestionsParameters := suggestionsParameters d;
     searchMethod := searchMethod d; suggestionsMethod := suggestionsMethod d;
     requestMethods := requestMethods d;
     networkAccessManager := networkAccessManager d;
     suggestionsReply := suggestionsReply d; delegate := delegate d |}.

Definition setSuggestionsParameters (v : Parameters) (d : OpenSearchEngine)
  : OpenSearchEngine :=
  {| name := name d; description := description d; imageUrl := imageUrl d;
     tags := tags d; searchUrlTemplate := searchUrlTemplate d;
     suggestionsUrlTemplate := suggestionsUrlTemplate d;
     searchParameters := searchParameters d;
     suggestionsParameters := v;
     searchMethod := searchMethod d; suggestionsMethod := suggestionsMethod d;
     requestMethods := requestMethods d;
     networkAccessManager := networkAccessManager d;
     suggestionsReply := suggestionsReply d; delegate := delegate d |}.

Definition assignSearchMethod (v : string) (d : OpenSearchEngine)
  : OpenSearchEngine :=
  {| name := name d; description := description d; imageUrl := imageUrl d;
     tags := tags d; searchUrlTemplate := searchUrlTemplate d;
     suggestionsUrlTemplate := suggestionsUrlTemplate d;
     searchParameters := searchParameters d;
     suggestionsParameters := suggestionsParameters d;
     searchMethod := v; suggestionsMethod := suggestionsMethod d;
     requestMethods := requestMethods d;
     networkAccessManager := networkAccessManager d;
     suggestionsReply := suggestionsReply d; delegate := delegate d |}.

Definition assignSuggestionsMethod (v : string) (d : OpenSearchEngine)
  : OpenSearchEngine :=
  {| name := name d; description := description d; imageUrl := imageUrl d;
     tags := tags d; searchUrlTemplate := searchUrlTemplate d;
     suggestionsUrlTemplate := suggestionsUrlTemplate d;
     searchParameters := searchParameters d;
     suggestionsParameters := suggestionsParameters d;
     searchMethod := searchMethod d; suggestionsMethod := v;
     requestMethods := requestMethods d;
     networkAccessManager := networkAccessManager d;
     suggestionsReply := suggestionsReply d; delegate := delegate d |}.

(** [OpenSearchEngine::setSearchMethod]. *)
Definition setSearchMethod (method : string) (d : OpenSearchEngine)
  : OpenSearchEngine :=
  let requestMethod := toLower method in
  if negb (contains (requestMethods d) requestMethod) then d
  else assignSearchMethod requestMethod d.

(** [OpenSearchEngine::setSuggestionsMethod]. *)
Definition setSuggestionsMethod (method : string) (d : OpenSearchEngine)
  : OpenSearchEngine :=
  let requestMethod := toLower method in
  if negb (contains (requestMethods d) requestMethod) then d
  else assignSuggestionsMethod requestMethod d.

Definition setNetworkAccessManager (v : bool) (d : OpenSearchEngine)
  : OpenSearchEngine :=
  {| name := name d; description := description d; imageUrl := imageUrl d;
     tags := tags d; searchUrlTemplate := searchUrlTemplate d;
     suggestionsUrlTemplate := suggestionsUrlTemplate d;
     searchParameters := searchParameters d;
     suggestionsParameters := suggestionsParameters d;
     searchMethod := searchMethod d; suggestionsMethod := suggestionsMethod d;
     requestMethods := requestMethods d;
     networkAccessManager := v;
     suggestionsReply := suggestionsReply d; delegate := delegate d |}.

Definition setDelegate (v : bool) (d : OpenSearchEngine) : OpenSearchEngine :=
  {| name := name d; description := description d; imageUrl := imageUrl d;
     tags := tags d; searchUrlTemplate := searchUrlTemplate d;
     suggestionsUrlTemplate := suggestionsUrlTemplate d;
     searchParameters := searchParameters d;
     suggestionsParameters := suggestionsParameters d;
     searchMethod := searchMethod d; suggestionsMethod := suggestionsMethod d;
     requestMethods := requestMethods d;
     networkAccessManager := networkAccessManager d;
     suggestionsReply := suggestionsReply d; delegate := v |}.

Definition setSuggestionsReply (v : option ReplyId) (d : OpenSearchEngine)
  : OpenSearchEngine :=
  {| name := name d; description := description d; imageUrl := imageUrl d;
     tags := tags d; searchUrlTemplate := searchUrlTemplate d;
     suggestionsUrlTemplate := suggestionsUrlTemplate d;
     searchParameters := searchParameters d;
     suggestionsParameters := suggestionsParameters d;
     searchMethod := searchMethod d; suggestionsMethod := suggestionsMethod d;
     requestMethods := requestMethods d;
     networkAccessManager := networkAccessManager d;
     suggestionsReply := v; delegate := delegate d |}.

(** ** URL construction *)

(** The loop [for (; i != end; ++i) retVal.addQueryItem(i->first,
    parseTemplate(searchTerm, i->second))]. *)
Fixpoint addParameters (env : Env) (searchTerm : string) (ps : Parameters)
    (retVal : QUrl) : QUrl :=
  match ps with
  | [] => retVal
  | i :: ps' =>
      addParameters env searchTerm ps'
        (addQueryItem retVal (fst i) (parseTemplate env searchTerm (snd i)))
  end.

(** [OpenSearchEngine::searchUrl]. *)
Definition searchUrl (env : Env) (d : OpenSearchEngine) (searchTerm : string)
  : QUrl :=
  if isEmpty (searchUrlTemplate d) then QUrl_null
  else
    let retVal := fromEncoded (parseTemplate env searchTerm (searchUrlTemplate d)) in
    if negb (String.eqb (searchMethod d) "post")
    then addParameters env searchTerm (searchParameters d) retVal
    else retVal.

(** [OpenSearchEngine::providesSuggestions]. *)
Definition providesSuggestions (d : OpenSearchEngine) : bool :=
  negb (isEmpty (suggestionsUrlTemplate d)).

(** [OpenSearchEngine::suggestionsUrl]. *)
Definition suggestionsUrl (env : Env) (d : OpenSearchEngine)
    (searchTerm : string) : QUrl :=
  if isEmpty (suggestionsUrlTemplate d) then QUrl_null
  else
    let retVal :=
      fromEncoded (parseTemplate env searchTerm (suggestionsUrlTemplate d)) in
    if negb (String.eqb (suggestionsMethod d) "post")
    then addParameters env searchTerm (suggestionsParameters d) retVal
    else retVal.

(** [OpenSearchEngine::isValid]. *)
Definition isValid (d : OpenSearchEngine) : bool :=
  negb (isEmpty (name d)) && negb (isEmpty (searchUrlTemplate d)).

(** ** Requests *)

(** What [requestSearchResults] hands to
    [OpenSearchEngineDelegate::performSearchRequest]. *)
Record SearchRequest : Type := {
  request : QUrl;
  operation : Operation;
  data : string
}.

(** The loop [for (; i != end; ++i) parameters.append(i->first + "=" +
    i->second)] of both request functions. *)
Fixpoint appendPairs (ps : Parameters) (parameters : list string)
  : list string :=
  match ps with
  | [] => parameters
  | i :: ps' => appendPairs ps' (parameters ++ [fst i +:+ "=" +:+ snd i])
  end.

(** [OpenSearchEngine::requestSearchResults]: [None] when the function
    returns without calling the delegate. *)
Definition requestSearchResults (env : Env) (d : OpenSearchEngine)
    (searchTerm : string) : option SearchRequest :=
  if negb (delegate d) || isEmpty searchTerm then None
  else
    let request := searchUrl env d searchTerm in
    let operation := value (requestMethods d) (searchMethod d) in
    let data :=
      match operation with
      | PostOperation => join "&" (appendPairs (searchParameters d) [])
      | _ => ""
      end in
    Some {| request := request; operation := operation; data := data |}.

(** ** The suggestion request and its reply

    The engine lives in an event loop together with its network access
    manager.  [World] is the part of that loop the suggestion request
    touches. *)

(** What the manager was asked to send when it made a reply. *)
Record NetworkRequest : Type := {
  requestOperation : Operation;
  requestUrl : QUrl;
  requestData : string
}.

Record World : Type := {
  (** the engine, [*this] *)
  engine : OpenSearchEngine;
  (** the number of the next reply the manager makes *)
  nextReply : ReplyId;
  (** the requests the manager received, by reply *)
  sent : gmap ReplyId NetworkRequest;
  (** the replies whose [finished()] is connected to the slot
      [suggestionsObtained()] of the engine *)
  connected : gset ReplyId;
  (** the replies [abort()] was called on *)
  aborted : gset ReplyId;
  (** the body of each reply the transport completed, for [readAll()] *)
  received : gmap ReplyId string;
  (** the [suggestions(...)] signals emitted so far, oldest first, each
      with the reply whose completion ran the slot (the C++ signal carries
      the list only) *)
  emitted : list (ReplyId * list string)
}.

Definition withEngine (d : OpenSearchEngine) (w : World) : World :=
  {| engine := d; nextReply := nextReply w; sent := sent w;
     connected := connected w; aborted := aborted w;
     received := received w; emitted := emitted w |}.

(** [QByteArray QNetworkReply::readAll()]. *)
Definition readAll (w : World) (id : ReplyId) : string :=
  match received w !! id with
  | Some body => body
  | None => ""
  end.

(** [emit suggestions(suggestionsList)], from the slot [sender] ran. *)
Definition emit (sender : ReplyId) (suggestionsList : list string) (w : World)
  : World :=
  {| engine := engine w; nextReply := nextReply w; sent := sent w;
     connected := connected w; aborted := aborted w;
     received := received w;
     emitted := emitted w ++ [(sender, suggestionsList)] |}.

(** [OpenSearchEngine::suggestionsObtained], run by the reply [sender].
    [None] stands for the dereference of a null [d->suggestionsReply]. *)
Definition suggestionsObtained `{QtScript.QScriptEngine} (sender : ReplyId)
    (w : World) : option World :=
  match suggestionsReply (engine w) with
  | None => None
  | Some reply =>
      let response := readAll w reply in
      let response := trimmed response in
      let w := withEngine (setSuggestionsReply None (engine w)) w in
      if isEmpty response then Some w
      else if negb (startsWith "[" response) || negb (endsWith "]" response)
      then Some w
      else if negb (QtScript.canEvaluate response) then Some w
      else
        let responseParts := QtScript.evaluate response in
        if negb (QtScript.isArray (QtScript.property responseParts 1))
        then Some w
        else
          let suggestionsList :=
            QtScript.qScriptValueToSequence (QtScript.property responseParts 1) in
          Some (emit sender suggestionsList w)
  end.

(** The signal [finished()] of a reply runs the slot when it is connected. *)
Definition emitFinished `{QtScript.QScriptEngine} (id : ReplyId) (w : World)
  : option World :=
  if decide (id ∈ connected w) then suggestionsObtained id w else Some w.

(** [reply->disconnect(this)]. *)
Definition disconnect (id : ReplyId) (w : World) : World :=
  {| engine := engine w; nextReply := nextReply w; sent := sent w;
     connected := connected w ∖ {[id]}; aborted := aborted w;
     received := received w; emitted := emitted w |}.

(** [connect(reply, SIGNAL(finished()), this, SLOT(suggestionsObtained()))]. *)
Definition connect (id : ReplyId) (w : World) : World :=
  {| engine := engine w; nextReply := nextReply w; sent := sent w;
     connected := connected w ∪ {[id]}; aborted := aborted w;
     received := received w; emitted := emitted w |}.

(** [reply->abort()]: the reply is finished at once, and says so. *)
Definition abort `{QtScript.QScriptEngine} (id : ReplyId) (w : World)
  : option World :=
  emitFinished id
    {| engine := engine w; nextReply := nextReply w; sent := sent w;
       connected := connected w; aborted := aborted w ∪ {[id]};
       received := received w; emitted := emitted w |}.

(** [QNetworkAccessManager::get] and [QNetworkAccessManager::post]: a new
    reply for the request. *)
Definition send (op : Operation) (url : QUrl) (body : string) (w : World)
  : ReplyId * World :=
  let id := nextReply w in
  (id,
   {| engine := engine w; nextReply := S id;
      sent := <[id := {| requestOperation := op; requestUrl := url;
                         requestData := body |}]> (sent w);
      connected := connected w; aborted := aborted w;
      received := received w; emitted := emitted w |}).

(** [OpenSearchEngine::requestSuggestions]. *)
Definition requestSuggestions `{QtScript.QScriptEngine} (env : Env)
    (searchTerm : string) (w : World) : option World :=
  if isEmpty searchTerm || negb (providesSuggestions (engine w)) then Some w
  else if negb (networkAccessManager (engine w)) then Some w
  else
    match
      (match suggestionsReply (engine w) with
       | Some old =>
           match abort old (disconnect old w) with
           | Some w => Some (withEngine (setSuggestionsReply None (engine w)) w)
           | None => None
           end
       | None => Some w
       end)
    with
    | None => None
    | Some w =>
        let '(reply, w) :=
          if String.eqb (suggestionsMethod (engine w)) "get" then
            send GetOperation (suggestionsUrl env (engine w) searchTerm) "" w
          else
            let data :=
              join "&" (appendPairs (suggestionsParameters (engine w)) []) in
            send PostOperation (suggestionsUrl env (engine w) searchTerm) data w
        in
        let w := withEngine (setSuggestionsReply (Some reply) (engine w)) w in
        Some (connect reply w)
    end.

(** What happens in the event loop: the application asks for suggestions,
    or the transport completes a reply with a body. *)
Inductive Event : Type :=
  | Request (searchTerm : string)
  | Complete (id : ReplyId) (body : string).

(** A reply completes once, and only a reply the manager made. *)
Definition step `{QtScript.QScriptEngine} (env : Env) (ev : Event) (w : World)
  : option World :=
  match ev with
  | Request searchTerm => requestSuggestions env searchTerm w
  | Complete id body =>
      if decide (id < nextReply w) then
        match received w !! id with
        | Some _ => Some w
        | None =>
            emitFinished id
              {| engine := engine w; nextReply := nextReply w; sent := sent w;
                 connected := connected w; aborted := aborted w;
                 received := <[id := body]> (received w);
                 emitted := emitted w |}
        end
      else Some w
  end.

Fixpoint run `{QtScript.QScriptEngine} (env : Env) (evs : list Event)
    (w : World) : option World :=
  match evs with
  | [] => Some w
  | ev :: evs' =>
      match step env ev w with
      | Some w => run env evs' w
      | None => None
      end
  end.

(** An engine that just got its network access manager. *)
Definition newWorld (d : OpenSearchEngine) : World :=
  {| engine := setSuggestionsReply None d; nextReply := 0; sent := ∅;
     connected := ∅; aborted := ∅; received := ∅; emitted := [] |}.

End OpenSearchEngine.

(* ===================================================================== *)
(** * QXmlStreamReader *)
(* ===================================================================== *)

Module QXmlStream.

(** What [QXmlStreamReader::readNext] reports: the token type together
    with the data the reader then gives access to.  A document is the list
    of its tokens; [Invalid] inside a document stands for the place where
    it stops being well-formed. *)
Inductive Token : Type :=
  | NoToken
  | Invalid
  | StartDocument
  | EndDocument
  | StartElement (name namespaceUri : string) (attributes : list (string * string))
  | EndElement (name namespaceUri : string)
  | Characters (text : string)
  | Comment (text : string)
  | DTD
  | EntityReference (text : string)
  | ProcessingInstruction.

(** [QXmlStreamReader::Error]. *)
Inductive Error : Type :=
  | NoError
  | UnexpectedElementError
  | CustomError
  | NotWellFormedError
  | PrematureEndOfDocumentError.

(** [QXmlStreamAttributes::value(qualifiedName)]: the value of the first
    attribute of that name, the empty string when there is none. *)
Fixpoint attributeValue (attrs : list (string * string)) (qualifiedName : string)
  : string :=
  match attrs with
  | [] => ""
  | (k, v) :: attrs' =>
      if String.eqb k qualifiedName then v else attributeValue attrs' qualifiedName
  end.

(** [QString::split(QLatin1Char(' '), QString::SkipEmptyParts)]; [cur] is
    the part being read. *)
Fixpoint splitSkipEmpty (cur : string) (s : string) : list string :=
  match s with
  | EmptyString => if Qt.isEmpty cur then [] else [cur]
  | String c s' =>
      if Ascii.eqb c " " then
        (if Qt.isEmpty cur then [] else [cur]) ++ splitSkipEmpty "" s'
      else splitSkipEmpty (cur +:+ String c "") s'
  end.

End QXmlStream.

(* ===================================================================== *)
(** * opensearchreader.cpp *)
(* ===================================================================== *)

Module OpenSearchReader.
Import Qt QXmlStream.

(** [class OpenSearchReader : public QXmlStreamReader]: the current token,
    the tokens of the device still to be read, the error state of the
    stream reader and the member [m_engine] (null or an engine). *)
Record OpenSearchReader : Type := {
  token : Token;
  input : list Token;
  error : Error;
  errorString : string;
  m_engine : option OpenSearchEngine.OpenSearchEngine
}.

Definition isStartElement (r : OpenSearchReader) : bool :=
  match token r with
  | StartElement _ _ _ => true
  | _ => false
  end.

Definition isEndElement (r : OpenSearchReader) : bool :=
  match token r with
  | EndElement _ _ => true
  | _ => false
  end.

(** [QXmlStreamReader::atEnd]: the end of the document was read, or an
    error stopped the reading. *)
Definition atEnd (r : OpenSearchReader) : bool :=
  match token r with
  | Invalid | EndDocument => true
  | _ => false
  end.

Definition name (r : OpenSearchReader) : string :=
  match token r with
  | StartElement n _ _ | EndElement n _ => n
  | _ => ""
  end.

Definition namespaceUri (r : OpenSearchReader) : string :=
  match token r with
  | StartElement _ ns _ | EndElement _ ns => ns
  | _ => ""
  end.

Definition attributes (r : OpenSearchReader) : list (string * string) :=
  match token r with
  | StartElement _ _ a => a
  | _ => []
  end.

(** [QXmlStreamReaderPrivate::raiseError]: the error is recorded and the
    current token becomes [Invalid]. *)
Definition raise (e : Error) (message : string) (r : OpenSearchReader)
  : OpenSearchReader :=
  {| token := Invalid; input := input r; error := e; errorString := message;
     m_engine := m_engine r |}.

(** [QXmlStreamReader::raiseError(message)]. *)
Definition raiseError (message : string) (r : OpenSearchReader)
  : OpenSearchReader :=
  raise CustomError message r.

(** The reader on the token [t], with [rest] still to be read. *)
Definition moveTo (t : Token) (rest : list Token) (r : OpenSearchReader)
  : OpenSearchReader :=
  {| token := t; input := rest; error := error r;
     errorString := errorString r; m_engine := m_engine r |}.

(** [QXmlStreamReader::readNext]: nothing more is read after an error; the
    end of the input before the end of the document is an error. *)
Definition readNext (r : OpenSearchReader) : OpenSearchReader :=
  match token r with
  | Invalid => r
  | _ =>
      match input r with
      | [] => raise PrematureEndOfDocumentError "Premature end of document." r
      | Invalid :: rest =>
          raise NotWellFormedError "The document is not well-formed."
            (moveTo (token r) rest r)
      | t :: rest => moveTo t rest r
      end
  end.

(** [m_engine = e]. *)
Definition setEngine (e : option OpenSearchEngine.OpenSearchEngine)
    (r : OpenSearchReader) : OpenSearchReader :=
  {| token := token r; input := input r; error := error r;
     errorString := errorString r; m_engine := e |}.

(** [if (!d->error) d->raiseError(UnexpectedElementError, ...)] of
    [QXmlStreamReader::readElementText]. *)
Definition unexpectedElement (r : OpenSearchReader) : OpenSearchReader :=
  match error r with
  | NoError => raise UnexpectedElementError "Expected character data." r
  | _ => r
  end.

(** The loop of [QXmlStreamReader::readElementText].  The functions with a
    loop take a bound [fuel] on the number of iterations and give [None]
    when it does not suffice; more fuel than there are tokens left always
    suffices. *)
Fixpoint readElementText_loop (fuel : nat) (result : string)
    (r : OpenSearchReader) : option (string * OpenSearchReader) :=
  match fuel with
  | O => None
  | S f =>
      let r := readNext r in
      match token r with
      | Characters t | EntityReference t =>
          readElementText_loop f (result +:+ t) r
      | EndElement _ _ => Some (result, r)
      | ProcessingInstruction | Comment _ => readElementText_loop f result r
      | _ => Some (result, unexpectedElement r)
      end
  end.

(** [QXmlStreamReader::readElementText]. *)
Definition readElementText (fuel : nat) (r : OpenSearchReader)
  : option (string * OpenSearchReader) :=
  if isStartElement r then readElementText_loop fuel "" r
  else Some ("", r).

(** [OpenSearchReader::skipSubtree].  The body is one loop, so going round
    the loop again is the function itself on the new state. *)
Fixpoint skipSubtree (fuel : nat) (r : OpenSearchReader)
  : option OpenSearchReader :=
  if atEnd r then Some r
  else
    match fuel with
    | O => None
    | S f =>
        let r := readNext r in
        if isEndElement r then Some r
        else if isStartElement r then
          match skipSubtree f r with
          | Some r => skipSubtree f r
          | None => None
          end
        else skipSubtree f r
    end.

(** [m_engine->set...(v)]; [None] stands for the dereference of a null
    [m_engine]. *)
Definition onEngine
    (f : OpenSearchEngine.OpenSearchEngine -> OpenSearchEngine.OpenSearchEngine)
    (r : OpenSearchReader) : option OpenSearchReader :=
  match m_engine r with
  | Some e => Some (setEngine (Some (f e)) r)
  | None => None
  end.

(** [OpenSearchReader::readName]. *)
Definition readName (fuel : nat) (r : OpenSearchReader)
  : option OpenSearchReader :=
  match readElementText fuel r with
  | Some (text, r) => onEngine (OpenSearchEngine.setName text) r
  | None => None
  end.

(** [OpenSearchReader::readDescription]. *)
Definition readDescription (fuel : nat) (r : OpenSearchReader)
  : option OpenSearchReader :=
  match readElementText fuel r with
  | Some (text, r) => onEngine (OpenSearchEngine.setDescription text) r
  | None => None
  end.

(** [OpenSearchReader::readImage]. *)
Definition readImage (fuel : nat) (r : OpenSearchReader)
  : option OpenSearchReader :=
  match readElementText fuel r with
  | Some (text, r) => onEngine (OpenSearchEngine.setImageUrl text) r
  | None => None
  end.

(** [OpenSearchReader::readTags]. *)
Definition readTags (fuel : nat) (r : OpenSearchReader)
  : option OpenSearchReader :=
  match readElementText fuel r with
  | Some (text, r) =>
      onEngine (OpenSearchEngine.setTags (splitSkipEmpty "" text)) r
  | None => None
  end.

(** [OpenSearchReader::readParameter]. *)
Definition readParameter (parameters : OpenSearchEngine.Parameters)
    (r : OpenSearchReader) : OpenSearchEngine.Parameters * OpenSearchReader :=
  let key := attributeValue (attributes r) "name" in
  let value := attributeValue (attributes r) "value" in
  if isEmpty key || isEmpty value then (parameters, r)
  else (parameters ++ [(key, value)], readNext r).

(** The [while] loop of [OpenSearchReader::readUrl]. *)
Fixpoint readUrl_loop (fuel : nat) (parameters : OpenSearchEngine.Parameters)
    (r : OpenSearchReader)
  : option (OpenSearchEngine.Parameters * OpenSearchReader) :=
  if atEnd r then Some (parameters, r)
  else
    match fuel with
    | O => None
    | S f =>
        let r := readNext r in
        if isEndElement r then Some (parameters, r)
        else if negb (isStartElement r) then readUrl_loop f parameters r
        else if String.eqb (name r) "Param" || String.eqb (name r) "Parameter"
        then
          let '(parameters, r) := readParameter parameters r in
          readUrl_loop f parameters r
        else
          match skipSubtree f r with
          | Some r => readUrl_loop f parameters r
          | None => None
          end
    end.

(** [OpenSearchReader::readUrl]. *)
Definition readUrl (fuel : nat) (r : OpenSearchReader)
  : option OpenSearchReader :=
  let type := attributeValue (attributes r) "type" in
  let url := attributeValue (attributes r) "template" in
  let method := attributeValue (attributes r) "method" in
  let type :=
    if isEmpty type || String.eqb type "application/xhtml+xml"
    then "text/html" else type in
  if isEmpty url then skipSubtree fuel r
  else
    match m_engine r with
    | None => None
    | Some e =>
        if String.eqb type "application/x-suggestions+json"
           && negb (isEmpty (OpenSearchEngine.suggestionsUrlTemplate e))
        then skipSubtree fuel r
        else if String.eqb type "text/html"
                && negb (isEmpty (OpenSearchEngine.searchUrlTemplate e))
        then skipSubtree fuel r
        else
          match readUrl_loop fuel [] r with
          | None => None
          | Some (parameters, r) =>
              if String.eqb type "application/x-suggestions+json" then
                onEngine (fun e =>
                  OpenSearchEngine.setSuggestionsMethod method
                    (OpenSearchEngine.setSuggestionsParameters parameters
                      (OpenSearchEngine.setSuggestionsUrlTemplate url e))) r
              else if String.eqb type "text/html" then
                onEngine (fun e =>
                  OpenSearchEngine.setSearchMethod method
                    (OpenSearchEngine.setSearchParameters parameters
                      (OpenSearchEngine.setSearchUrlTemplate url e))) r
              else Some r
          end
    end.

(** The second [while] loop of [OpenSearchReader::readDocument]. *)
Fixpoint readDocument_loop (fuel : nat) (r : OpenSearchReader)
  : option OpenSearchReader :=
  if atEnd r then Some r
  else
    match fuel with
    | O => None
    | S f =>
        let r := readNext r in
        if isEndElement r then Some r
        else if negb (isStartElement r) then readDocument_loop f r
        else
          match
            (if String.eqb (name r) "ShortName" then readName f r
             else if String.eqb (name r) "Description" then readDescription f r
             else if String.eqb (name r) "Url" then readUrl f r
             else if String.eqb (name r) "Image" then readImage f r
             else if String.eqb (name r) "Tags" then readTags f r
             else skipSubtree f r)
          with
          | Some r => readDocument_loop f r
          | None => None
          end
    end.

(** The first loop of [readDocument]:
    [while (!isStartElement() && !atEnd()) readNext();]. *)
Fixpoint readToStartElement (fuel : nat) (r : OpenSearchReader)
  : option OpenSearchReader :=
  if negb (isStartElement r) && negb (atEnd r) then
    match fuel with
    | O => None
    | S f => readToStartElement f (readNext r)
    end
  else Some r.

Definition openSearchNamespace : string :=
  "http://a9.com/-/spec/opensearch/1.1/".

(** [OpenSearchReader::readDocument]. *)
Definition readDocument (fuel : nat) (r : OpenSearchReader)
  : option OpenSearchReader :=
  let r := setEngine (Some OpenSearchEngine.newEngine) r in
  match readToStartElement fuel r with
  | None => None
  | Some r =>
      if negb (String.eqb (name r) "OpenSearchDescription")
         || negb (String.eqb (namespaceUri r) openSearchNamespace)
      then Some (raiseError "The file is not an OpenSearch 1.1 file." r)
      else readDocument_loop fuel r
  end.

(** [OpenSearchReader::read], on the tokens of the device.  The result is
    the reader after the call: its [m_engine] is the pointer the function
    returns, its [error] is what [QXmlStreamReader::error()] then gives. *)
Definition read (device : list Token) : option OpenSearchReader :=
  let r := {| token := NoToken; input := device; error := NoError;
              errorString := ""; m_engine := None |} in
  readDocument (S (length device)) r.

End OpenSearchReader.

(* ===================================================================== *)
(** * Notions the statements use *)
(* ===================================================================== *)

Module Props.
Import Qt OpenSearchEngine.

(** ** The request methods *)

(** Every call that changes an engine. *)
Inductive Mutation : Type :=
  | SetName (v : string)
  | SetDescription (v : string)
  | SetImageUrl (v : string)
  | SetTags (v : list string)
  | SetSearchUrlTemplate (v : string)
  | SetSuggestionsUrlTemplate (v : string)
  | SetSearchParameters (v : Parameters)
  | SetSuggestionsParameters (v : Parameters)
  | SetSearchMethod (v : string)
  | SetSuggestionsMethod (v : string)
  | SetNetworkAccessManager (v : bool)
  | SetDelegate (v : bool)
  | SetSuggestionsReply (v : option ReplyId).

Definition mutate (m : Mutation) (d : OpenSearchEngine) : OpenSearchEngine :=
  match m with
  | SetName v => setName v d
  | SetDescription v => setDescription v d
  | SetImageUrl v => setImageUrl v d
  | SetTags v => setTags v d
  | SetSearchUrlTemplate v => setSearchUrlTemplate v d
  | SetSuggestionsUrlTemplate v => setSuggestionsUrlTemplate v d
  | SetSearchParameters v => setSearchParameters v d
  | SetSuggestionsParameters v => setSuggestionsParameters v d
  | SetSearchMethod v => setSearchMethod v d
  | SetSuggestionsMethod v => setSuggestionsMethod v d
  | SetNetworkAccessManager v => setNetworkAccessManager v d
  | SetDelegate v => setDelegate v d
  | SetSuggestionsReply v => setSuggestionsReply v d
  end.

Definition isMethod (s : string) : Prop := s = "get" \/ s = "post".

(** The table of request methods is the one the constructor filled, and
    both method fields hold one of its keys. *)
Definition methodsOk (d : OpenSearchEngine) : Prop :=
  requestMethods d = requestMethods newEngine
  /\ isMethod (searchMethod d) /\ isMethod (suggestionsMethod d).

(** An engine reached from a new one by any sequence of calls. *)
Inductive reachable : OpenSearchEngine -> Prop :=
  | reachable_new : reachable newEngine
  | reachable_mutate m d : reachable d -> reachable (mutate m d).

(** ** URLs *)

(** A stored parameter as a query item for a search term. *)
Definition queryItem (env : Env) (searchTerm : string) (p : ParameterPair)
  : string * string :=
  (fst p, parseTemplate env searchTerm (snd p)).

(** A stored parameter as it stands in a request body. *)
Definition bodyPair (p : ParameterPair) : string :=
  fst p +:+ "=" +:+ snd p.

(** ** Templates *)

(** The substitutions of the template expansion as a list, first to last;
    [value] is what stands in for the search terms. *)
Definition substitutions (env : Env) (value : string) : list (string -> string) :=
  [ replace "{count}" "20";
    replace "{startIndex}" "0";
    replace "{startPage}" "0";
    replace "{language}" (replaceChar "_" "-" (localeName env));
    replace "{inputEncoding}" "UTF-8";
    replace "{outputEncoding}" "UTF-8";
    replaceSource (applicationName env);
    replace "{searchTerms}" value ].

Definition applyAll (fs : list (string -> string)) (s : string) : string :=
  fold_left (fun acc f => f acc) fs s.

(** The expansion in the words of the specification: the substitutions in
    their order, the last one putting in the search term. *)
Definition expand (env : Env) (searchTerm template : string) : string :=
  applyAll (substitutions env searchTerm) template.

(** No opening brace in [s]. *)
Fixpoint plain (s : string) : bool :=
  match s with
  | EmptyString => true
  | String c s' => negb (Ascii.eqb c "{") && plain s'
  end.

(** No brace in [s]. *)
Fixpoint braceFree (s : string) : bool :=
  match s with
  | EmptyString => true
  | String c s' =>
      negb (Ascii.eqb c "{") && negb (Ascii.eqb c "}") && braceFree s'
  end.

(** A template cut into text without an opening brace and placeholders,
    [{body}] with no brace in the body. *)
Inductive Piece : Type :=
  | Text (s : string)
  | Placeholder (body : string).

Definition raw (p : Piece) : string :=
  match p with
  | Text s => s
  | Placeholder b => String "{" (b +:+ "}")
  end.

Definition wfPiece (p : Piece) : bool :=
  match p with
  | Text s => plain s
  | Placeholder b => braceFree b
  end.

Fixpoint render (ps : list Piece) : string :=
  match ps with
  | [] => ""
  | p :: ps' => raw p +:+ render ps'
  end.

(** One substitution, piece by piece: the placeholders [sel] picks become
    the text [after]. *)
Definition substPiece (sel : string -> bool) (after : string) (p : Piece)
  : Piece :=
  match p with
  | Text _ => p
  | Placeholder b => if sel b then Text after else p
  end.

(** What stands for a piece after the expansion. *)
Definition substitute (env : Env) (value : string) (p : Piece) : string :=
  match p with
  | Text s => s
  | Placeholder b =>
      if String.eqb b "count" then "20"
      else if String.eqb b "startIndex" then "0"
      else if String.eqb b "startPage" then "0"
      else if String.eqb b "language"
      then replaceChar "_" "-" (localeName env)
      else if String.eqb b "inputEncoding" then "UTF-8"
      else if String.eqb b "outputEncoding" then "UTF-8"
      else if sourceBody true b then applicationName env
      else if String.eqb b "searchTerms" then value
      else raw p
  end.

Fixpoint expanded (env : Env) (value : string) (ps : list Piece) : string :=
  match ps with
  | [] => ""
  | p :: ps' => substitute env value p +:+ expanded env value ps'
  end.

(** ** Suggestions *)

(** The suggestion list a response body stands for, in the words of the
    specification: none when the trimmed body is empty, when it does not
    start with an opening and end with a closing bracket, or when its
    element at index 1 is not an array; otherwise the strings of that
    array. *)
Definition decode `{QtScript.QScriptEngine} (body : string)
  : option (list string) :=
  let response := trimmed body in
  if isEmpty response then None
  else if negb (startsWith "[" response && endsWith "]" response) then None
  else if negb (QtScript.isArray
                  (QtScript.property (QtScript.evaluate response) 1))
  then None
  else Some (QtScript.qScriptValueToSequence
               (QtScript.property (QtScript.evaluate response) 1)).



(** The engine after the slot ran: the reply is forgotten. *)
Definition replyDone (w : World) : World :=
  withEngine (setSuggestionsReply None (engine w)) w.

(** The response of the specification's example, a query and two
    suggestions. *)
Definition exampleResponse : string :=
  "[" +:+ QtScript.quoted "q" +:+ ",[" +:+ QtScript.quoted "a" +:+ ","
  +:+ QtScript.quoted "b" +:+ "]]".


(** What holds of the engine and its replies between two events: the
    manager made every reply that has an answer, and a connected reply
    without an answer is the outstanding reply of the engine. *)
Record coherent (w : World) : Prop := {
  answered_made :
    forall id, received w !! id <> None -> id < nextReply w;
  connected_waiting :
    forall id, id ∈ connected w -> received w !! id = None ->
               suggestionsReply (engine w) = Some id
}.

(** The suggestions a response body delivers when the reply [id] runs the
    slot: one signal or none. *)
Definition delivery `{QtScript.QScriptEngine} (id : ReplyId) (body : string)
  : list (ReplyId * list string) :=
  match decode body with
  | Some suggestionsList => [(id, suggestionsList)]
  | None => []
  end.

(** No connected reply waits for an answer. *)
Definition idle (w : World) : Prop :=
  forall id, id ∈ connected w -> received w !! id <> None.

(** The transport completes the replies [completions] in turn. *)
Definition completes (completions : list (ReplyId * string)) : list Event :=
  map (fun c => Complete (fst c) (snd c)) completions.

(** The body of the first completion of the reply [id]. *)
Fixpoint firstAnswer (id : ReplyId) (completions : list (ReplyId * string))
  : option string :=
  match completions with
  | [] => None
  | (id', body) :: completions' =>
      if Nat.eqb id' id then Some body else firstAnswer id completions'
  end.

(** ** A description to try things on

    The engine of the third file of the reader's test, and one with the
    methods the other way round and a delegate. *)

Definition exampleEnv : Env :=
  {| localeName := "en_US"; applicationName := "arora" |}.

Definition github : OpenSearchEngine :=
  setSuggestionsMethod "post"
    (setSuggestionsParameters [("bar", "baz")]
      (setSuggestionsUrlTemplate "http://github.com/suggestions"
        (setSearchMethod "get"
          (setSearchParameters [("q", "{searchTerms}"); ("b", "foo")]
            (setSearchUrlTemplate "http://github.com/search"
              (setDescription "Search GitHub"
                (setName "GitHub" newEngine))))))).

Definition githubPost : OpenSearchEngine :=
  setDelegate true (setNetworkAccessManager true (setSearchMethod "POST" github)).


End Props.

(* ===================================================================== *)
(** * Documents as trees *)
(* ===================================================================== *)

Module Document.
Import Qt QXmlStream OpenSearchEngine.

(** The content of an element: elements, character data, comments and
    processing instructions. *)
#[warnings="-register-all"]
Inductive Node : Type :=
  | Element (name namespaceUri : string) (attributes : list (string * string))
      (children : list Node)
  | CharData (text : string)
  | CommentNode (text : string)
  | Instruction.

(** The tokens the stream reader reports for a node. *)
Fixpoint tokens (n : Node) : list Token :=
  match n with
  | Element name ns attrs children =>
      StartElement name ns attrs
        :: flat_map tokens children ++ [EndElement name ns]
  | CharData text => [Characters text]
  | CommentNode text => [Comment text]
  | Instruction => [ProcessingInstruction]
  end.

(** A document with the given root element. *)
Definition document (root : Node) : list Token :=
  StartDocument :: tokens root ++ [EndDocument].

(** The root element of a description. *)
Definition description (attrs : list (string * string)) (children : list Node)
  : Node :=
  Element "OpenSearchDescription" OpenSearchReader.openSearchNamespace attrs
    children.

(** The text of an element whose content has no element. *)
Fixpoint elementText (children : list Node) : string :=
  match children with
  | [] => ""
  | CharData text :: children' => text +:+ elementText children'
  | _ :: children' => elementText children'
  end.

Definition isElement (n : Node) : bool :=
  match n with
  | Element _ _ _ _ => true
  | _ => false
  end.

Definition isParameterName (name : string) : bool :=
  String.eqb name "Param" || String.eqb name "Parameter".

(** A child of [Url] the reader walks past in step: any node, but a
    [Param] or [Parameter] element must have a name and a value that are
    not empty, and no content. *)
Definition steadyUrlChild (n : Node) : bool :=
  match n with
  | Element name _ attrs children =>
      if isParameterName name then
        negb (isEmpty (attributeValue attrs "name"))
        && negb (isEmpty (attributeValue attrs "value"))
        && match children with [] => true | _ => false end
      else true
  | _ => true
  end.

Definition isTextElementName (name : string) : bool :=
  String.eqb name "ShortName" || String.eqb name "Description"
  || String.eqb name "Image" || String.eqb name "Tags".

(** A child of the root the reader walks past in step: the elements read
    as text hold no element, and the children of a [Url] are steady. *)
Definition steadyChild (n : Node) : bool :=
  match n with
  | Element name _ _ children =>
      if isTextElementName name then negb (existsb isElement children)
      else if String.eqb name "Url" then forallb steadyUrlChild children
      else true
  | _ => true
  end.

(** The parameters among the children of a [Url]. *)
Fixpoint urlParameters (children : list Node) : Parameters :=
  match children with
  | [] => []
  | Element name _ attrs _ :: children' =>
      if isParameterName name
      then (attributeValue attrs "name", attributeValue attrs "value")
             :: urlParameters children'
      else urlParameters children'
  | _ :: children' => urlParameters children'
  end.

Definition urlType (attrs : list (string * string)) : string :=
  let type := attributeValue attrs "type" in
  if isEmpty type || String.eqb type "application/xhtml+xml"
  then "text/html" else type.

(** What a [Url] element does to the engine. *)
Definition applyUrl (attrs : list (string * string)) (children : list Node)
    (e : OpenSearchEngine) : OpenSearchEngine :=
  let url := attributeValue attrs "template" in
  let method := attributeValue attrs "method" in
  if isEmpty url then e
  else if String.eqb (urlType attrs) "application/x-suggestions+json" then
    if isEmpty (suggestionsUrlTemplate e) then
      setSuggestionsMethod method
        (setSuggestionsParameters (urlParameters children)
          (setSuggestionsUrlTemplate url e))
    else e
  else if String.eqb (urlType attrs) "text/html" then
    if isEmpty (searchUrlTemplate e) then
      setSearchMethod method
        (setSearchParameters (urlParameters children)
          (setSearchUrlTemplate url e))
    else e
  else e.

(** What a child of the root does to the engine. *)
Definition applyChild (e : OpenSearchEngine) (n : Node) : OpenSearchEngine :=
  match n with
  | Element name _ attrs children =>
      if String.eqb name "ShortName" then setName (elementText children) e
      else if String.eqb name "Description"
      then setDescription (elementText children) e
      else if String.eqb name "Url" then applyUrl attrs children e
      else if String.eqb name "Image" then setImageUrl (elementText children) e
      else if String.eqb name "Tags"
      then setTags (splitSkipEmpty "" (elementText children)) e
      else e
  | _ => e
  end.

(** The text of the last [ShortName] child. *)
Fixpoint lastShortName (children : list Node) : option string :=
  match children with
  | [] => None
  | n :: children' =>
      match lastShortName children' with
      | Some text => Some text
      | None =>
          match n with
          | Element name _ _ kids =>
              if String.eqb name "ShortName" then Some (elementText kids)
              else None
          | _ => None
          end
      end
  end.

(** The text of the first [ShortName] child. *)
Fixpoint firstShortName (children : list Node) : option string :=
  match children with
  | [] => None
  | Element name _ _ kids :: children' =>
      if String.eqb name "ShortName" then Some (elementText kids)
      else firstShortName children'
  | _ :: children' => firstShortName children'
  end.

(** The engine a reader returned, if it returned one. *)
Definition engineOf (r : option OpenSearchReader.OpenSearchReader)
  : option OpenSearchEngine :=
  match r with
  | Some r => OpenSearchReader.m_engine r
  | None => None
  end.

(** The three fields of each URL template record. *)
Definition searchRecord (e : OpenSearchEngine) : string * Parameters * string :=
  (searchUrlTemplate e, searchParameters e, searchMethod e).

Definition suggestionsRecord (e : OpenSearchEngine)
  : string * Parameters * string :=
  (suggestionsUrlTemplate e, suggestionsParameters e, suggestionsMethod e).

(** From [e] to [e'] no URL template record that was filled has changed. *)
Definition keeps (e e' : OpenSearchEngine) : Prop :=
  (searchUrlTemplate e <> "" -> searchRecord e' = searchRecord e)
  /\ (suggestionsUrlTemplate e <> "" ->
        suggestionsRecord e' = suggestionsRecord e).

(** What the lemmas below say of a function [run] of the reader started
    on [r] with the engine [e]: it returns, has read forward, and still
    has an engine, which keeps the filled records of [e]. *)
Definition returnsKeeping (run : option OpenSearchReader.OpenSearchReader)
    (r : OpenSearchReader.OpenSearchReader) (e : OpenSearchEngine) : Prop :=
  exists r' e', run = Some r'
                /\ length (OpenSearchReader.input r') <= length (OpenSearchReader.input r)
                /\ OpenSearchReader.m_engine r' = Some e' /\ keeps e e'.

(** A token the first loop of [readDocument] passes over. *)
Definition passedOver (t : Token) : bool :=
  match t with
  | StartElement _ _ _ | Invalid | EndDocument => false
  | _ => true
  end.

(** ** Documents to try things on *)

Definition ns : string := OpenSearchReader.openSearchNamespace.

Definition blank : Node := CharData " ".

(** Two search [Url] elements and two [ShortName] elements. *)
Definition twiceChildren : list Node :=
    [ blank;
      Element "ShortName" ns [] [CharData "First"]; blank;
      Element "Url" ns [("type", "text/html"); ("template", "http://a/")]
        [Element "Param" ns [("name", "q"); ("value", "{searchTerms}")] []];
      blank;
      Element "Url" ns [("template", "http://b/"); ("method", "post")]
        [blank; Element "Param" ns [("name", "x"); ("value", "y")] []; blank];
      blank;
      Element "ShortName" ns [] [CharData "Second"]; blank ].

Definition twice : Node := description [] twiceChildren.

(** A [Url] whose second parameter has no value, and a [ShortName] after
    it. *)
Definition missingValue : Node :=
  description []
    [ blank;
      Element "Url" ns [("type", "text/html"); ("template", "http://a/")]
        [ blank;
          Element "Param" ns [("name", "a"); ("value", "1")] []; blank;
          Element "Param" ns [("name", "b")] []; blank;
          Element "Param" ns [("name", "c"); ("value", "3")] []; blank ];
      blank;
      Element "ShortName" ns [] [CharData "Name"]; blank ].

(** The same document without the [Param] that has no value. *)
Definition withoutMissingValue : Node :=
  description []
    [ blank;
      Element "Url" ns [("type", "text/html"); ("template", "http://a/")]
        [ blank;
          Element "Param" ns [("name", "a"); ("value", "1")] []; blank;
          blank;
          Element "Param" ns [("name", "c"); ("value", "3")] []; blank ];
      blank;
      Element "ShortName" ns [] [CharData "Name"]; blank ].

(** A feed, which is not a description. *)
Definition feed : Node :=
  Element "rss" "" [("version", "2.0")]
    [Element "ShortName" ns [] [CharData "Name"]].

End Document.

(* ===================================================================== *)
(** * Further notions: words, canonical documents, comparison *)
(* ===================================================================== *)

Module Further.
Import Qt QXmlStream OpenSearchEngine Props Document.

(** ** Words *)

Fixpoint spaceFree (s : string) : bool :=
  match s with
  | EmptyString => true
  | String c s' => negb (Ascii.eqb c " ") && spaceFree s'
  end.

(** A word: not empty, and without a space. *)
Definition isWord (s : string) : bool := negb (isEmpty s) && spaceFree s.

(** ** The root *)

(** The name and the namespace of the first start element of a device,
    when the first loop of [readDocument] gets to one. *)
Fixpoint rootOf (device : list Token) : option (string * string) :=
  match device with
  | [] => None
  | StartElement name namespaceUri _ :: _ => Some (name, namespaceUri)
  | t :: device' => if passedOver t then rootOf device' else None
  end.

(** ** What the reader returns *)

(** A function [run] of the reader started on [r] returns, has read
    forward, and has an engine for which [P] holds. *)
Definition returnsWith (P : OpenSearchEngine -> Prop)
    (run : option OpenSearchReader.OpenSearchReader)
    (r : OpenSearchReader.OpenSearchReader) : Prop :=
  exists r' e', run = Some r'
                /\ length (OpenSearchReader.input r')
                   <= length (OpenSearchReader.input r)
                /\ OpenSearchReader.m_engine r' = Some e' /\ P e'.

(** ** Canonical documents *)

Definition textElement (name text : string) : Node :=
  Element name ns [] (if isEmpty text then [] else [CharData text]).

Definition parameterElement (p : ParameterPair) : Node :=
  Element "Param" ns [("name", fst p); ("value", snd p)] [].

Definition urlElement (type template method : string) (ps : Parameters)
  : Node :=
  Element "Url" ns
    [("type", type); ("template", template); ("method", method)]
    (map parameterElement ps).

(** The children of a description that spells out the fields of [e]: the
    name, the description, a [Url] for each template that is not empty,
    the image URL, and the tags with a space between them. *)
Definition canonical (e : OpenSearchEngine) : list Node :=
  [ textElement "ShortName" (name e);
    textElement "Description" (OpenSearchEngine.description e) ]
  ++ (if isEmpty (searchUrlTemplate e) then []
      else [urlElement "text/html" (searchUrlTemplate e) (searchMethod e)
              (searchParameters e)])
  ++ (if isEmpty (suggestionsUrlTemplate e) then []
      else [urlElement "application/x-suggestions+json"
              (suggestionsUrlTemplate e) (suggestionsMethod e)
              (suggestionsParameters e)])
  ++ [ textElement "Image" (imageUrl e);
       textElement "Tags" (join " " (tags e)) ].

(** The fields a description document holds. *)
Definition described (e : OpenSearchEngine)
  : string * string * string * list string
    * (string * Parameters * string) * (string * Parameters * string) :=
  (name e, OpenSearchEngine.description e, imageUrl e, tags e, searchRecord e,
   suggestionsRecord e).

Definition validPair (p : ParameterPair) : bool :=
  negb (isEmpty (fst p)) && negb (isEmpty (snd p)).

(** An engine whose fields a document can hold: methods of the table,
    parameters with a name and a value, tags that are words, and nothing
    but the defaults in a record without a template. *)
Record describable (e : OpenSearchEngine) : Prop := {
  describable_searchMethod : isMethod (searchMethod e);
  describable_suggestionsMethod : isMethod (suggestionsMethod e);
  describable_searchParameters : forallb validPair (searchParameters e) = true;
  describable_suggestionsParameters :
    forallb validPair (suggestionsParameters e) = true;
  describable_search_default :
    searchUrlTemplate e = "" ->
    searchParameters e = [] /\ searchMethod e = "get";
  describable_suggestions_default :
    suggestionsUrlTemplate e = "" ->
    suggestionsParameters e = [] /\ suggestionsMethod e = "get";
  describable_tags : forallb isWord (tags e) = true
}.

(** What holds of the engine of a reader at every point of a walk: its
    fields are those a document can hold, and it has the table of request
    methods of a new engine, no network access manager, no delegate and no
    reply. *)
Definition asRead (e : OpenSearchEngine) : Prop :=
  describable e
  /\ requestMethods e = requestMethods newEngine
  /\ networkAccessManager e = false
  /\ delegate e = false
  /\ suggestionsReply e = None.

(** ** Content the reader passes by *)

(** A child of the root that is no element, or an element with a name
    the reader does not know. *)
Definition unknownChild (n : Node) : bool :=
  match n with
  | Element name _ _ _ =>
      negb (String.eqb name "ShortName" || String.eqb name "Description"
            || String.eqb name "Url" || String.eqb name "Image"
            || String.eqb name "Tags")
  | _ => true
  end.

(** ** The first [Url] of each type *)

(** A [Url] element with a template, of the type [type] once the type is
    normalized. *)
Definition isUrlOfType (type : string) (n : Node) : bool :=
  match n with
  | Element name _ attrs _ =>
      String.eqb name "Url"
      && negb (isEmpty (attributeValue attrs "template"))
      && String.eqb (urlType attrs) type
  | _ => false
  end.

Fixpoint firstUrlOfType (type : string) (children : list Node)
  : option (list (string * string) * list Node) :=
  match children with
  | [] => None
  | n :: children' =>
      if isUrlOfType type n then
        match n with
        | Element _ _ attrs kids => Some (attrs, kids)
        | _ => None
        end
      else firstUrlOfType type children'
  end.

(** The method a new record gets from the attribute [method]: its lower
    case when that is in the table, otherwise [get]. *)
Definition methodOf (attrs : list (string * string)) : string :=
  let requestMethod := toLower (attributeValue attrs "method") in
  if contains (requestMethods newEngine) requestMethod then requestMethod
  else "get".

(** The record a [Url] element fills. *)
Definition recordOf (found : option (list (string * string) * list Node))
  : string * Parameters * string :=
  match found with
  | Some (attrs, kids) =>
      (attributeValue attrs "template", urlParameters kids, methodOf attrs)
  | None => ("", [], "get")
  end.

(** ** The replies and the signals *)

(** What holds of the replies and the signals between two events: the
    invariant [coherent]; the manager made every connected reply; an
    aborted reply was made and is not connected; the outstanding reply is
    connected and has no answer; every signal came from a connected reply
    and carries what the answer of that reply decodes to; and no reply
    gave two signals. *)
Record orderly `{QtScript.QScriptEngine} (w : World) : Prop := {
  orderly_coherent : coherent w;
  orderly_connected : forall id, id ∈ connected w -> id < nextReply w;
  orderly_aborted :
    forall id, id ∈ aborted w -> (id ∉ connected w) /\ id < nextReply w;
  orderly_reply :
    forall id, suggestionsReply (engine w) = Some id ->
               id ∈ connected w /\ received w !! id = None;
  orderly_emitted :
    forall id l, In (id, l) (emitted w) ->
                 id ∈ connected w
                 /\ exists body, received w !! id = Some body
                                 /\ decode body = Some l;
  orderly_once : NoDup (map fst (emitted w))
}.

(** ** A document that breaks off *)

(** The rest of a device at which the stream reader stops with an error:
    the end of the input, or the place where the document is not
    well-formed. *)
Definition broken (rest : list Token) : bool :=
  match rest with
  | [] | Invalid :: _ => true
  | _ => false
  end.

(** The error of the stream reader there. *)
Definition breakError (rest : list Token) : Error :=
  match rest with
  | [] => PrematureEndOfDocumentError
  | _ => NotWellFormedError
  end.

(** The reader stopped there with that error, holding the engine [e]. *)
Definition stopsBroken (rest : list Token) (e : OpenSearchEngine)
    (run : option OpenSearchReader.OpenSearchReader) : Prop :=
  exists r', run = Some r'
             /\ OpenSearchReader.token r' = Invalid
             /\ OpenSearchReader.error r' = breakError rest
             /\ OpenSearchReader.m_engine r' = Some e.

(** ** A [Url] the reader does not pass by *)


(** ** Search terms *)

(** A term of unreserved characters only. *)
Fixpoint allUnreserved (s : string) : bool :=
  match s with
  | EmptyString => true
  | String c s' => unreserved c && allUnreserved s'
  end.

(** ** Comparison *)

(** [QPair::operator==] and [QList::operator==] on parameters. *)
Definition pairEqual (p q : ParameterPair) : bool :=
  String.eqb (fst p) (fst q) && String.eqb (snd p) (snd q).

Fixpoint parametersEqual (ps qs : Parameters) : bool :=
  match ps, qs with
  | [], [] => true
  | p :: ps', q :: qs' => pairEqual p q && parametersEqual ps' qs'
  | _, _ => false
  end.

(** [OpenSearchEngine::operator==]. *)
Definition operatorEqual (d other : OpenSearchEngine) : bool :=
  String.eqb (name d) (name other)
  && String.eqb (OpenSearchEngine.description d) (OpenSearchEngine.description other)
  && String.eqb (imageUrl d) (imageUrl other)
  && String.eqb (searchUrlTemplate d) (searchUrlTemplate other)
  && String.eqb (suggestionsUrlTemplate d) (suggestionsUrlTemplate other)
  && parametersEqual (searchParameters d) (searchParameters other)
  && parametersEqual (suggestionsParameters d) (suggestionsParameters other).

(** The fields [operator==] looks at. *)
Definition compared (d : OpenSearchEngine)
  : string * string * string * string * string * Parameters * Parameters :=
  (name d, OpenSearchEngine.description d, imageUrl d, searchUrlTemplate d,
   suggestionsUrlTemplate d, searchParameters d, suggestionsParameters d).

(** ** The first revision of the file *)

(** The loop of [searchUrl] and [suggestionsUrl] in the first revision. *)
Fixpoint addParameters_rev1 (env : Env) (searchTerm : string) (ps : Parameters)
    (retVal : QUrl) : QUrl :=
  match ps with
  | [] => retVal
  | i :: ps' =>
      addParameters_rev1 env searchTerm ps'
        (addQueryItem retVal (fst i) (parseTemplate_rev1 env searchTerm (snd i)))
  end.

(** [OpenSearchEngine::searchUrl], first revision: there is no request
    method, the parameters are always query items. *)
Definition searchUrl_rev1 (env : Env) (d : OpenSearchEngine)
    (searchTerm : string) : QUrl :=
  if isEmpty (searchUrlTemplate d) then QUrl_null
  else
    let retVal :=
      fromEncoded (parseTemplate_rev1 env searchTerm (searchUrlTemplate d)) in
    addParameters_rev1 env searchTerm (searchParameters d) retVal.

(** [OpenSearchEngine::suggestionsUrl], first revision. *)
Definition suggestionsUrl_rev1 (env : Env) (d : OpenSearchEngine)
    (searchTerm : string) : QUrl :=
  if isEmpty (suggestionsUrlTemplate d) then QUrl_null
  else
    let retVal :=
      fromEncoded
        (parseTemplate_rev1 env searchTerm (suggestionsUrlTemplate d)) in
    addParameters_rev1 env searchTerm (suggestionsParameters d) retVal.

End Further.

(* ===================================================================== *)
(** * examples/suggestions/main.cpp *)
(* ===================================================================== *)

Module Example.
Import Qt QXmlStream OpenSearchEngine.

Definition newline : string := String (ascii_of_nat 10) "".

(** [HelperObject::printSuggestions]: what the slot writes to the stream.
    It then asks the application to quit. *)
Definition printSuggestions (suggestions : list string) : string :=
  match suggestions with
  | [] => "No suggestions." +:+ newline
  | _ => join newline suggestions +:+ newline
  end.

(** [QXmlStreamReader::hasError]. *)
Definition hasError (r : OpenSearchReader.OpenSearchReader) : bool :=
  match OpenSearchReader.error r with
  | NoError => false
  | _ => true
  end.

(** What happens while [app.exec()] runs: the reply of the request is
    finished with a body, or the timer fires before that. *)
Inductive Happening : Type :=
  | Answered (body : string)
  | TimedOut.

(** [app.exec()]: the text written to the stream until the application
    quits.  A signal [suggestions] runs [printSuggestions]. *)
Definition exec `{QtScript.QScriptEngine} (env : Env) (happening : Happening)
    (w : World) : option string :=
  match happening with
  | TimedOut => Some ""
  | Answered body =>
      match suggestionsReply (engine w) with
      | None => Some ""
      | Some reply =>
          match step env (Complete reply body) w with
          | None => None
          | Some w =>
              Some (fold_right String.append ""
                      (map (fun signal => printSuggestions (snd signal))
                         (emitted w)))
          end
      end
  end.

(** [main]: the text written to the stream and the exit code.  [args] are
    the arguments of the application, the name of the program first;
    [files] gives the tokens of the file at a path, if the file exists.
    [None] stands for a crash. *)
Definition main `{QtScript.QScriptEngine} (env : Env) (args : list string)
    (files : string -> option (list Token)) (happening : Happening)
  : option (string * nat) :=
  match args with
  | [] => None
  | program :: arguments =>
      match arguments with
      | filePath :: searchTerm :: _ =>
          match files filePath with
          | None =>
              Some ("File " +:+ filePath +:+ " does not exist." +:+ newline, 1)
          | Some file =>
              match OpenSearchReader.read file with
              | None => None
              | Some reader =>
                  if hasError reader then
                    Some ("Error: " +:+ OpenSearchReader.errorString reader
                          +:+ newline, 1)
                  else
                    match OpenSearchReader.m_engine reader with
                    | None => None
                    | Some engine =>
                        if negb (isValid engine) then
                          Some ("The OpenSearch description is invalid."
                                +:+ newline, 1)
                        else
                          let w :=
                            newWorld (setNetworkAccessManager true engine) in
                          match requestSuggestions env searchTerm w with
                          | None => None
                          | Some w =>
                              match exec env happening w with
                              | Some text => Some (text, 0)
                              | None => None
                              end
                          end
                    end
              end
          end
      | _ =>
          Some ("Usage: " +:+ program +:+ " filepath searchterm" +:+ newline, 1)
      end
  end.

End Example.

(* ===================================================================== *)
(** * The engine: request methods, URLs and request bodies *)
(* ===================================================================== *)

Section EngineFacts.
Import Qt OpenSearchEngine Props.

Lemma contains_requestMethods (k : string) :
  contains (requestMethods newEngine) k = true <-> isMethod k.
Proof.
  unfold contains, isMethod. cbn [requestMethods newEngine].
  destruct (decide (k = "post")) as [->|Hp].
  - rewrite lookup_insert_eq. intuition.
  - rewrite lookup_insert_ne by congruence.
    destruct (decide (k = "get")) as [->|Hg].
    + rewrite lookup_insert_eq. intuition.
    + rewrite lookup_insert_ne by congruence. rewrite lookup_empty.
      split; [discriminate | intros [?|?]; contradiction].
Qed.

Lemma contains_requestMethods_false (k : string) :
  contains (requestMethods newEngine) k = false <-> ~ isMethod k.
Proof.
  rewrite <- contains_requestMethods.
  destruct (contains (requestMethods newEngine) k); split; congruence.
Qed.

Lemma setSearchMethod_accept (m : string) (d : OpenSearchEngine) :
  requestMethods d = requestMethods newEngine ->
  isMethod (toLower m) ->
  setSearchMethod m d = assignSearchMethod (toLower m) d.
Proof.
  intros Ht Hm. unfold setSearchMethod. rewrite Ht.
  apply contains_requestMethods in Hm. now rewrite Hm.
Qed.

Lemma setSearchMethod_reject (m : string) (d : OpenSearchEngine) :
  requestMethods d = requestMethods newEngine ->
  ~ isMethod (toLower m) ->
  setSearchMethod m d = d.
Proof.
  intros Ht Hm. unfold setSearchMethod. rewrite Ht.
  apply contains_requestMethods_false in Hm. now rewrite Hm.
Qed.

Lemma setSuggestionsMethod_accept (m : string) (d : OpenSearchEngine) :
  requestMethods d = requestMethods newEngine ->
  isMethod (toLower m) ->
  setSuggestionsMethod m d = assignSuggestionsMethod (toLower m) d.
Proof.
  intros Ht Hm. unfold setSuggestionsMethod. rewrite Ht.
  apply contains_requestMethods in Hm. now rewrite Hm.
Qed.

Lemma setSuggestionsMethod_reject (m : string) (d : OpenSearchEngine) :
  requestMethods d = requestMethods newEngine ->
  ~ isMethod (toLower m) ->
  setSuggestionsMethod m d = d.
Proof.
  intros Ht Hm. unfold setSuggestionsMethod. rewrite Ht.
  apply contains_requestMethods_false in Hm. now rewrite Hm.
Qed.

Lemma isMethod_dec (s : string) : {isMethod s} + {~ isMethod s}.
Proof.
  unfold isMethod.
  destruct (string_dec s "get"); [left; now left|].
  destruct (string_dec s "post"); [left; now right|].
  right. intros [?|?]; contradiction.
Qed.

Lemma methodsOk_new : methodsOk newEngine.
Proof. repeat split; now left. Qed.

Lemma methodsOk_mutate (m : Mutation) (d : OpenSearchEngine) :
  methodsOk d -> methodsOk (mutate m d).
Proof.
  intros (Ht & Hs & Hg).
  destruct m; cbn [mutate]; try (repeat split; assumption).
  - destruct (isMethod_dec (toLower v)) as [Hm|Hm].
    + rewrite setSearchMethod_accept by assumption. repeat split; assumption.
    + rewrite setSearchMethod_reject by assumption. repeat split; assumption.
  - destruct (isMethod_dec (toLower v)) as [Hm|Hm].
    + rewrite setSuggestionsMethod_accept by assumption.
      repeat split; assumption.
    + rewrite setSuggestionsMethod_reject by assumption.
      repeat split; assumption.
Qed.

Lemma methodsOk_reachable (d : OpenSearchEngine) : reachable d -> methodsOk d.
Proof.
  induction 1; [apply methodsOk_new | now apply methodsOk_mutate].
Qed.

(** C7.  The method fields of a new engine are [get]; every engine reached
    from a new one by calls of its functions has both method fields among
    [get] and [post]; on such an engine [setSearchMethod] and
    [setSuggestionsMethod] store the lower-cased argument when it is [get]
    or [post] and otherwise return the engine as it was. *)
Theorem method_invariant :
  (searchMethod newEngine = "get" /\ suggestionsMethod newEngine = "get")
  /\ (forall d, reachable d ->
        isMethod (searchMethod d) /\ isMethod (suggestionsMethod d))
  /\ (forall d m, reachable d ->
        (isMethod (toLower m) ->
           setSearchMethod m d = assignSearchMethod (toLower m) d
           /\ searchMethod (setSearchMethod m d) = toLower m
           /\ setSuggestionsMethod m d = assignSuggestionsMethod (toLower m) d
           /\ suggestionsMethod (setSuggestionsMethod m d) = toLower m)
        /\ (~ isMethod (toLower m) ->
           setSearchMethod m d = d /\ setSuggestionsMethod m d = d)).
Proof.
  split; [split; reflexivity|]. split.
  - intros d Hd. apply methodsOk_reachable in Hd.
    destruct Hd as (_ & Hs & Hg). split; assumption.
  - intros d m Hd. apply methodsOk_reachable in Hd. destruct Hd as (Ht & _).
    split; intros Hm.
    + rewrite setSearchMethod_accept, setSuggestionsMethod_accept by assumption.
      repeat split.
    + rewrite setSearchMethod_reject, setSuggestionsMethod_reject by assumption.
      split; reflexivity.
Qed.

(** The methods of an engine set to [Post] and then to [put]: the second
    call changes nothing. *)
Lemma method_invariant_witness :
  let d := mutate (SetSearchMethod "Post") newEngine in
  searchMethod d = "post" /\ setSearchMethod "put" d = d
  /\ isMethod (searchMethod (setSearchMethod "put" d)).
Proof.
  pose proof method_invariant as (_ & Hreach & Hset).
  assert (Hd : reachable (mutate (SetSearchMethod "Post") newEngine))
    by (apply reachable_mutate, reachable_new).
  cbv zeta. split; [|split].
  - destruct (Hset newEngine "Post" reachable_new) as (Hacc & _).
    apply Hacc. right. reflexivity.
  - destruct (Hset _ "put" Hd) as (_ & Hrej).
    apply Hrej. intros [H|H]; discriminate H.
  - destruct (Hset _ "put" Hd) as (_ & Hrej).
    destruct Hrej as (-> & _); [intros [H|H]; discriminate H|].
    apply (Hreach _ Hd).
Defined.

(** ** URLs *)

Lemma isEmpty_true (s : string) : isEmpty s = true <-> s = "".
Proof. destruct s; simpl; split; congruence. Qed.

Lemma isEmpty_false (s : string) : isEmpty s = false <-> s <> "".
Proof. destruct s; simpl; split; congruence. Qed.

Lemma addParameters_from env searchTerm ps e q :
  addParameters env searchTerm ps (QUrl_from e q)
  = QUrl_from e (q ++ map (queryItem env searchTerm) ps).
Proof.
  revert q. induction ps as [|p ps IH]; intros q; simpl.
  - now rewrite app_nil_r.
  - rewrite IH, <- app_assoc. reflexivity.
Qed.

(** C1.  [searchUrl] and [suggestionsUrl] give the null URL for an empty
    template.  Otherwise they give the URL of the expanded template; when
    the method of the record is [get] the stored parameters follow as query
    items in their stored order, each value expanded for the same search
    term, and when it is [post] no query item is added. *)
Theorem searchUrl_suggestionsUrl_spec env d searchTerm :
  (searchUrlTemplate d = "" -> searchUrl env d searchTerm = QUrl_null)
  /\ (searchUrlTemplate d <> "" -> isMethod (searchMethod d) ->
        searchUrl env d searchTerm
        = QUrl_from (parseTemplate env searchTerm (searchUrlTemplate d))
            (if String.eqb (searchMethod d) "get"
             then map (queryItem env searchTerm) (searchParameters d)
             else []))
  /\ (suggestionsUrlTemplate d = "" ->
        suggestionsUrl env d searchTerm = QUrl_null)
  /\ (suggestionsUrlTemplate d <> "" -> isMethod (suggestionsMethod d) ->
        suggestionsUrl env d searchTerm
        = QUrl_from (parseTemplate env searchTerm (suggestionsUrlTemplate d))
            (if String.eqb (suggestionsMethod d) "get"
             then map (queryItem env searchTerm) (suggestionsParameters d)
             else [])).
Proof.
  unfold searchUrl, suggestionsUrl, fromEncoded. repeat split.
  - intros ->. reflexivity.
  - intros Hne Hm. apply isEmpty_false in Hne. rewrite Hne.
    destruct Hm as [-> | ->]; simpl; [apply addParameters_from | reflexivity].
  - intros ->. reflexivity.
  - intros Hne Hm. apply isEmpty_false in Hne. rewrite Hne.
    destruct Hm as [-> | ->]; simpl; [apply addParameters_from | reflexivity].
Qed.

(** ** Request bodies *)

Lemma appendPairs_map ps acc : appendPairs ps acc = acc ++ map bodyPair ps.
Proof.
  revert acc. induction ps as [|p ps IH]; intros acc; simpl.
  - now rewrite app_nil_r.
  - rewrite IH, <- app_assoc. reflexivity.
Qed.

Lemma value_post d :
  requestMethods d = requestMethods newEngine ->
  value (requestMethods d) "post" = PostOperation.
Proof. intros ->. unfold value. cbn. now rewrite lookup_insert_eq. Qed.

Lemma abort_disconnected `{QtScript.QScriptEngine} old w :
  abort old (disconnect old w)
  = Some {| engine := engine w; nextReply := nextReply w; sent := sent w;
            connected := connected w ∖ {[old]};
            aborted := aborted w ∪ {[old]};
            received := received w; emitted := emitted w |}.
Proof.
  unfold abort, emitFinished, disconnect. cbn.
  destruct (decide (old ∈ connected w ∖ {[old]})) as [Hin|_]; [|reflexivity].
  apply elem_of_difference in Hin. destruct Hin as [_ Hin].
  exfalso. apply Hin, elem_of_singleton. reflexivity.
Qed.

(** C10.  With the method [post] and a search term that is not empty, the
    body of the request is the stored parameters, each written
    [key=value] as stored, joined by [&]: for the suggestions request the
    manager receives (when the engine has a manager and a suggestions
    template) and for the search request the delegate receives (when the
    engine has a delegate). *)
Theorem post_body_is_stored_pairs `{QtScript.QScriptEngine} env searchTerm :
  searchTerm <> "" ->
  (forall w,
     suggestionsMethod (engine w) = "post" ->
     networkAccessManager (engine w) = true ->
     suggestionsUrlTemplate (engine w) <> "" ->
     exists w',
       requestSuggestions env searchTerm w = Some w'
       /\ sent w' !! nextReply w
          = Some {| requestOperation := PostOperation;
                    requestUrl := suggestionsUrl env (engine w) searchTerm;
                    requestData :=
                      join "&" (map bodyPair (suggestionsParameters (engine w))) |})
  /\ (forall d,
        searchMethod d = "post" ->
        requestMethods d = requestMethods newEngine ->
        delegate d = true ->
        requestSearchResults env d searchTerm
        = Some {| request := searchUrl env d searchTerm;
                  operation := PostOperation;
                  data := join "&" (map bodyPair (searchParameters d)) |}).
Proof.
  intros Hterm. apply isEmpty_false in Hterm. split.
  - intros w Hpost Hnam Htpl. apply isEmpty_false in Htpl.
    unfold requestSuggestions, providesSuggestions.
    rewrite Hterm, Htpl, Hnam. cbn [negb orb].
    destruct (suggestionsReply (engine w)) as [old|].
    + rewrite abort_disconnected. cbn. rewrite Hpost. cbn.
      eexists. split; [reflexivity|]. cbn.
      rewrite lookup_insert_eq, appendPairs_map. reflexivity.
    + rewrite Hpost. cbn. eexists. split; [reflexivity|]. cbn.
      rewrite lookup_insert_eq, appendPairs_map. reflexivity.
  - intros d Hpost Ht Hdel. unfold requestSearchResults.
    rewrite Hdel, Hterm, Hpost, (value_post d Ht), appendPairs_map.
    reflexivity.
Qed.

(** The search URL of the GitHub description for the term [a b], and the
    suggestions URL, whose method is [post]. *)
Lemma searchUrl_suggestionsUrl_witness :
  searchUrl exampleEnv github "a b"
  = QUrl_from "http://github.com/search" [("q", "a%20b"); ("b", "foo")]
  /\ suggestionsUrl exampleEnv github "a b"
     = QUrl_from "http://github.com/suggestions" [].
Proof.
  destruct (searchUrl_suggestionsUrl_spec exampleEnv github "a b")
    as (_ & Hsearch & _ & Hsugg).
  split.
  - rewrite Hsearch; [reflexivity | discriminate | left; reflexivity].
  - rewrite Hsugg; [reflexivity | discriminate | right; reflexivity].
Defined.

(** The bodies for the GitHub description with both methods [post]: the
    placeholder of the stored value is in the body as it was stored. *)
Lemma post_body_witness :
  (exists w',
     requestSuggestions (H := QtScript.jsonScriptEngine) exampleEnv "a b"
       (newWorld githubPost) = Some w'
     /\ requestData <$> (sent w' !! 0) = Some "bar=baz")
  /\ data <$> requestSearchResults exampleEnv githubPost "a b"
     = Some "q={searchTerms}&b=foo".
Proof.
  assert (Hterm : "a b" <> "") by discriminate.
  destruct (post_body_is_stored_pairs (H := QtScript.jsonScriptEngine)
              exampleEnv "a b" Hterm) as (Hsugg & Hsearch).
  split.
  - destruct (Hsugg (newWorld githubPost)) as (w' & Hrun & Hsent);
      [reflexivity | reflexivity | discriminate |].
    exists w'. split; [exact Hrun|].
    change (nextReply (newWorld githubPost)) with 0 in Hsent.
    rewrite Hsent. reflexivity.
  - rewrite Hsearch; [reflexivity | reflexivity | reflexivity | reflexivity].
Defined.

End EngineFacts.

(* ===================================================================== *)
(** * The template expansion *)
(* ===================================================================== *)

Section StringFacts.

Lemma append_nil_l (s : string) : "" +:+ s = s.
Proof. reflexivity. Qed.

Lemma append_cons (c : ascii) (s t : string) :
  String c s +:+ t = String c (s +:+ t).
Proof. reflexivity. Qed.

Lemma append_nil_r (s : string) : s +:+ "" = s.
Proof.
  induction s as [|c s IH]; [reflexivity|].
  now rewrite append_cons, IH.
Qed.

Lemma append_assoc (s t u : string) : (s +:+ t) +:+ u = s +:+ (t +:+ u).
Proof.
  induction s as [|c s IH]; [reflexivity|].
  now rewrite !append_cons, IH.
Qed.

Lemma length_append (s t : string) :
  String.length (s +:+ t) = String.length s + String.length t.
Proof.
  induction s as [|c s IH]; [reflexivity|].
  rewrite append_cons. simpl. now rewrite IH.
Qed.

End StringFacts.

Section Scan.
Import Qt Props.

(** A way of matching that only matches at an opening brace and, at a
    placeholder, matches the whole placeholder when [sel] picks its body. *)
Variable m : string -> option nat.
Variable sel : string -> bool.
Variable after : string.
Hypothesis m_nil : m "" = None.
Hypothesis m_other :
  forall c s, Ascii.eqb c "{" = false -> m (String c s) = None.
Hypothesis m_brace :
  forall b rest, braceFree b = true ->
    m (String "{" (b +:+ String "}" rest))
    = if sel b then Some (String.length b + 2) else None.

Lemma replaceAll_plain (x rest : string) :
  plain x = true ->
  replaceAll m after 0 (x +:+ rest) = x +:+ replaceAll m after 0 rest.
Proof.
  induction x as [|c x IH]; intros Hx; [reflexivity|].
  simpl in Hx. apply andb_prop in Hx as [Hc Hx].
  apply negb_true_iff in Hc.
  rewrite !append_cons. cbn [replaceAll].
  rewrite (m_other c _ Hc), IH by assumption. reflexivity.
Qed.

Lemma replaceAll_skip (x rest : string) :
  replaceAll m after (String.length x) (x +:+ rest) = replaceAll m after 0 rest.
Proof.
  induction x as [|c x IH]; [reflexivity|].
  rewrite append_cons. cbn [replaceAll String.length]. exact IH.
Qed.

Lemma braceFree_plain (s : string) : braceFree s = true -> plain s = true.
Proof.
  induction s as [|c s IH]; [reflexivity|]. simpl. intros H.
  apply andb_prop in H as [H Hs]. apply andb_prop in H as [Hc _].
  now rewrite Hc, IH.
Qed.

Lemma plain_append (s t : string) :
  plain s = true -> plain t = true -> plain (s +:+ t) = true.
Proof.
  induction s as [|c s IH]; intros Hs Ht; [exact Ht|].
  rewrite append_cons. simpl in *. apply andb_prop in Hs as [Hc Hs].
  now rewrite Hc, IH.
Qed.

Lemma replaceAll_placeholder (b rest : string) :
  braceFree b = true ->
  replaceAll m after 0 (String "{" (b +:+ String "}" rest))
  = (if sel b then after else String "{" (b +:+ "}"))
    +:+ replaceAll m after 0 rest.
Proof.
  intros Hb. cbn [replaceAll]. rewrite (m_brace b rest Hb).
  destruct (sel b).
  - replace (String.length b + 2) with (S (String.length (b +:+ "}")))
      by (rewrite length_append; simpl; lia).
    replace (b +:+ String "}" rest) with ((b +:+ "}") +:+ rest)
      by (now rewrite append_assoc, append_cons, append_nil_l).
    now rewrite replaceAll_skip.
  - replace (b +:+ String "}" rest) with ((b +:+ "}") +:+ rest)
      by (now rewrite append_assoc, append_cons, append_nil_l).
    rewrite replaceAll_plain.
    + now rewrite append_cons.
    + apply plain_append; [now apply braceFree_plain | reflexivity].
Qed.

Lemma raw_substPiece (p : Piece) :
  raw (substPiece sel after p)
  = match p with
    | Text s => s
    | Placeholder b => if sel b then after else raw p
    end.
Proof. destruct p as [s|b]; [reflexivity|]. simpl. now destruct (sel b). Qed.

Lemma replaceAll_render (ps : list Piece) :
  forallb wfPiece ps = true ->
  replaceAll m after 0 (render ps) = render (map (substPiece sel after) ps).
Proof.
  induction ps as [|p ps IH]; intros Hwf.
  - simpl. now rewrite m_nil.
  - simpl in Hwf. apply andb_prop in Hwf as [Hp Hps].
    cbn [render map]. rewrite raw_substPiece.
    destruct p as [s|b]; cbn [raw wfPiece] in *.
    + rewrite replaceAll_plain by assumption. now rewrite IH.
    + rewrite append_cons, append_assoc, (append_cons "}"), append_nil_l.
      rewrite replaceAll_placeholder by assumption. now rewrite IH.
Qed.

Lemma wf_substPiece (ps : list Piece) :
  plain after = true ->
  forallb wfPiece ps = true ->
  forallb wfPiece (map (substPiece sel after) ps) = true.
Proof.
  intros Ha. induction ps as [|p ps IH]; intros Hwf; [reflexivity|].
  simpl in Hwf. apply andb_prop in Hwf as [Hp Hps].
  cbn [map forallb]. rewrite IH by assumption.
  destruct p as [s|b]; simpl in *; [now rewrite Hp|].
  destruct (sel b); simpl; [now rewrite Ha | now rewrite Hp].
Qed.

End Scan.

Section TemplateFacts.
Import Qt OpenSearchEngine Props.

(** ** The two ways of matching fit the scanning lemmas *)

Lemma prefix_nil (s : string) : String.prefix "" s = true.
Proof. now destruct s. Qed.

Lemma prefix_cons (a c : ascii) (s t : string) :
  String.prefix (String a s) (String c t)
  = if ascii_dec a c then String.prefix s t else false.
Proof. reflexivity. Qed.

Lemma eqb_cons (a c : ascii) (s t : string) :
  String.eqb (String a s) (String c t) = Ascii.eqb a c && String.eqb s t.
Proof. simpl. now destruct (Ascii.eqb a c). Qed.

Lemma braceFree_cons (c : ascii) (s : string) :
  braceFree (String c s) = true ->
  c <> "{"%char /\ c <> "}"%char /\ braceFree s = true.
Proof.
  simpl. intros H. apply andb_prop in H as [H Hs].
  apply andb_prop in H as [H1 H2].
  apply negb_true_iff, Ascii.eqb_neq in H1.
  apply negb_true_iff, Ascii.eqb_neq in H2. auto.
Qed.

Lemma prefix_placeholder (name b rest : string) :
  braceFree name = true -> braceFree b = true ->
  String.prefix (name +:+ "}") (b +:+ String "}" rest) = String.eqb b name.
Proof.
  revert b. induction name as [|a name IH]; intros b Hn Hb.
  - rewrite append_nil_l. destruct b as [|c b].
    + rewrite append_nil_l, prefix_cons, prefix_nil.
      destruct (ascii_dec "}" "}"); [reflexivity | congruence].
    + apply braceFree_cons in Hb as (_ & Hc & _).
      rewrite append_cons, prefix_cons.
      destruct (ascii_dec "}" c); [congruence | reflexivity].
  - apply braceFree_cons in Hn as (_ & Ha & Hn).
    destruct b as [|c b].
    + rewrite append_cons, append_nil_l, prefix_cons.
      destruct (ascii_dec a "}"); [congruence | reflexivity].
    + apply braceFree_cons in Hb as (_ & _ & Hb).
      rewrite !append_cons, prefix_cons, eqb_cons.
      destruct (ascii_dec a c) as [->|Hac].
      * rewrite Ascii.eqb_refl. now apply IH.
      * assert (Ascii.eqb c a = false) as ->
          by (apply Ascii.eqb_neq; congruence).
        reflexivity.
Qed.

Lemma matchLiteral_nil (name : string) :
  matchLiteral (String "{" (name +:+ "}")) "" = None.
Proof. reflexivity. Qed.

Lemma matchLiteral_other (name : string) (c : ascii) (s : string) :
  Ascii.eqb c "{" = false ->
  matchLiteral (String "{" (name +:+ "}")) (String c s) = None.
Proof.
  intros Hc. apply Ascii.eqb_neq in Hc. unfold matchLiteral.
  rewrite prefix_cons.
  destruct (ascii_dec "{" c); [congruence | reflexivity].
Qed.

Lemma matchLiteral_brace (name b rest : string) :
  braceFree name = true -> braceFree b = true ->
  matchLiteral (String "{" (name +:+ "}")) (String "{" (b +:+ String "}" rest))
  = if String.eqb b name then Some (String.length b + 2) else None.
Proof.
  intros Hn Hb. unfold matchLiteral. rewrite prefix_cons.
  destruct (ascii_dec "{" "{"); [|congruence].
  rewrite prefix_placeholder by assumption.
  destruct (String.eqb_spec b name) as [->|_]; [|reflexivity].
  cbn [String.length]. rewrite length_append. simpl. f_equal. lia.
Qed.

Lemma uptoClose_placeholder (b rest : string) :
  braceFree b = true -> uptoClose (b +:+ String "}" rest) = Some b.
Proof.
  induction b as [|c b IH]; intros Hb; [reflexivity|].
  simpl in Hb. apply andb_prop in Hb as [Hc Hb].
  apply andb_prop in Hc as [_ Hc]. apply negb_true_iff in Hc.
  rewrite append_cons. simpl. now rewrite Hc, IH.
Qed.

Lemma matchSource_other (c : ascii) (s : string) :
  Ascii.eqb c "{" = false -> matchSource (String c s) = None.
Proof.
  destruct c as [[] [] [] [] [] [] [] []]; try reflexivity; discriminate.
Qed.

Lemma matchSource_brace (b rest : string) :
  braceFree b = true ->
  matchSource (String "{" (b +:+ String "}" rest))
  = if sourceBody true b then Some (String.length b + 2) else None.
Proof.
  intros Hb. unfold matchSource. now rewrite uptoClose_placeholder.
Qed.

(** [replace] of a placeholder, and [replaceSource], piece by piece. *)
Lemma replace_render (name after : string) (ps : list Piece) :
  braceFree name = true ->
  forallb wfPiece ps = true ->
  replace (String "{" (name +:+ "}")) after (render ps)
  = render (map (substPiece (fun b => String.eqb b name) after) ps).
Proof.
  intros Hn Hwf. unfold replace. apply replaceAll_render; try assumption.
  - apply matchLiteral_nil.
  - apply matchLiteral_other.
  - intros b rest Hb. now apply matchLiteral_brace.
Qed.

Lemma replaceSource_render (after : string) (ps : list Piece) :
  forallb wfPiece ps = true ->
  replaceSource after (render ps)
  = render (map (substPiece (sourceBody true) after) ps).
Proof.
  intros Hwf. unfold replaceSource. apply replaceAll_render; try assumption.
  - reflexivity.
  - apply matchSource_other.
  - apply matchSource_brace.
Qed.

Lemma plain_replaceChar (s : string) :
  plain s = true -> plain (replaceChar "_" "-" s) = true.
Proof.
  induction s as [|c s IH]; [reflexivity|]. simpl. intros H.
  apply andb_prop in H as [Hc Hs]. rewrite IH by assumption.
  destruct (Ascii.eqb c "_"); [reflexivity | now rewrite Hc].
Qed.

(** The eight substitutions on a template that is cut into pieces. *)
Lemma applyAll_render (env : Env) (value : string) (ps : list Piece) :
  forallb wfPiece ps = true ->
  plain (localeName env) = true ->
  plain (applicationName env) = true ->
  applyAll (substitutions env value) (render ps) = expanded env value ps.
Proof.
  intros Hwf Hloc Happ. unfold applyAll, substitutions. cbn [fold_left].
  pose proof (plain_replaceChar _ Hloc) as Hlang.
  change "{count}" with (String "{" ("count" +:+ "}")).
  change "{startIndex}" with (String "{" ("startIndex" +:+ "}")).
  change "{startPage}" with (String "{" ("startPage" +:+ "}")).
  change "{language}" with (String "{" ("language" +:+ "}")).
  change "{inputEncoding}" with (String "{" ("inputEncoding" +:+ "}")).
  change "{outputEncoding}" with (String "{" ("outputEncoding" +:+ "}")).
  change "{searchTerms}" with (String "{" ("searchTerms" +:+ "}")).
  rewrite (replace_render "count") by (reflexivity || assumption).
  apply (wf_substPiece (fun b => String.eqb b "count") "20") in Hwf;
    [|reflexivity].
  rewrite (replace_render "startIndex") by (reflexivity || assumption).
  apply (wf_substPiece (fun b => String.eqb b "startIndex") "0") in Hwf;
    [|reflexivity].
  rewrite (replace_render "startPage") by (reflexivity || assumption).
  apply (wf_substPiece (fun b => String.eqb b "startPage") "0") in Hwf;
    [|reflexivity].
  rewrite (replace_render "language") by (reflexivity || assumption).
  apply (wf_substPiece (fun b => String.eqb b "language")
           (replaceChar "_" "-" (localeName env))) in Hwf; [|assumption].
  rewrite (replace_render "inputEncoding") by (reflexivity || assumption).
  apply (wf_substPiece (fun b => String.eqb b "inputEncoding") "UTF-8") in Hwf;
    [|reflexivity].
  rewrite (replace_render "outputEncoding") by (reflexivity || assumption).
  apply (wf_substPiece (fun b => String.eqb b "outputEncoding") "UTF-8") in Hwf;
    [|reflexivity].
  rewrite replaceSource_render by assumption.
  apply (wf_substPiece (sourceBody true) (applicationName env)) in Hwf;
    [|assumption].
  rewrite (replace_render "searchTerms") by (reflexivity || assumption).
  clear Hwf. induction ps as [|p ps IH]; [reflexivity|].
  cbn [map render expanded]. rewrite IH. f_equal.
  destruct p as [s|b]; [reflexivity|].
  cbn [substPiece substitute].
  repeat match goal with
         | |- context [String.eqb b ?n] =>
             destruct (String.eqb b n); [reflexivity|]; cbn [substPiece]
         | |- context [sourceBody true b] =>
             destruct (sourceBody true b); [reflexivity|]; cbn [substPiece]
         end.
  reflexivity.
Qed.

(** C2, as amended.  The expansion is the eight substitutions in the order
    of the specification, each on the whole result of the one before, the
    last one putting in the percent-encoded search term (the first
    revision of the file put in the search term as it is).  On a template
    cut into text and placeholders, with no opening brace in the locale
    name and the application name, every text and every placeholder that
    is not in the list stands in the result as it stood in the template. *)
Theorem parseTemplate_spec env searchTerm template :
  parseTemplate env searchTerm template
  = applyAll (substitutions env (toPercentEncoding searchTerm)) template
  /\ parseTemplate_rev1 env searchTerm template = expand env searchTerm template
  /\ (forall ps,
        template = render ps ->
        forallb wfPiece ps = true ->
        plain (localeName env) = true ->
        plain (applicationName env) = true ->
        parseTemplate env searchTerm template
        = expanded env (toPercentEncoding searchTerm) ps).
Proof.
  split; [reflexivity|]. split; [reflexivity|].
  intros ps -> Hwf Hloc Happ.
  change (parseTemplate env searchTerm (render ps))
    with (applyAll (substitutions env (toPercentEncoding searchTerm)) (render ps)).
  now apply applyAll_render.
Qed.

(** A template with four placeholders of the list and one that is not. *)
Lemma parseTemplate_spec_witness :
  parseTemplate exampleEnv "a b"
    "http://x/?q={searchTerms}&n={count}&l={language}&s={moz:source?}&u={u?}"
  = "http://x/?q=a%20b&n=20&l=en-US&s=arora&u={u?}".
Proof.
  destruct (parseTemplate_spec exampleEnv "a b"
    "http://x/?q={searchTerms}&n={count}&l={language}&s={moz:source?}&u={u?}")
    as (_ & _ & Hpieces).
  rewrite (Hpieces [Text "http://x/?q="; Placeholder "searchTerms";
                    Text "&n="; Placeholder "count";
                    Text "&l="; Placeholder "language";
                    Text "&s="; Placeholder "moz:source?";
                    Text "&u="; Placeholder "u?"]);
    reflexivity.
Defined.

(** C2 as it was stated fails: for the search term [a b] the expansion of
    [{searchTerms}] is [a%20b], not the search term. *)
Lemma parseTemplate_not_verbatim :
  parseTemplate exampleEnv "a b" "{searchTerms}" = "a%20b"
  /\ parseTemplate exampleEnv "a b" "{searchTerms}"
     <> expand exampleEnv "a b" "{searchTerms}".
Proof. split; [reflexivity | discriminate]. Qed.

End TemplateFacts.

(* ===================================================================== *)
(** * The reader *)
(* ===================================================================== *)

Section ReaderFacts.
Import Qt QXmlStream OpenSearchReader Document.

(** ** Reading one token *)

Lemma readNext_engine r : m_engine (readNext r) = m_engine r.
Proof.
  unfold readNext.
  destruct (token r); try reflexivity;
    destruct (input r) as [|[] rest]; reflexivity.
Qed.

Lemma readNext_progress r :
  length (input (readNext r)) < length (input r)
  \/ token (readNext r) = Invalid.
Proof.
  unfold readNext, raise, moveTo.
  destruct (token r) eqn:Ht; try (right; exact Ht);
    destruct (input r) as [|[] rest]; simpl;
    try (right; reflexivity); left; lia.
Qed.

Lemma readNext_le r : length (input (readNext r)) <= length (input r).
Proof.
  unfold readNext, raise, moveTo.
  destruct (token r); try reflexivity;
    destruct (input r) as [|[] rest]; simpl; lia.
Qed.

Lemma readNext_moveTo r t rest :
  atEnd r = false -> input r = t :: rest -> t <> Invalid ->
  readNext r = moveTo t rest r.
Proof.
  unfold readNext, atEnd. intros Hend -> Ht.
  destruct (token r); try discriminate; destruct t; congruence.
Qed.

Lemma atEnd_Invalid r : token r = Invalid -> atEnd r = true.
Proof. unfold atEnd. now intros ->. Qed.

Lemma isStartElement_Invalid r : token r = Invalid -> isStartElement r = false.
Proof. unfold isStartElement. now intros ->. Qed.

Lemma isEndElement_Invalid r : token r = Invalid -> isEndElement r = false.
Proof. unfold isEndElement. now intros ->. Qed.

(** ** Enough fuel: every function of the reader returns *)

Lemma skipSubtree_atEnd f r : atEnd r = true -> skipSubtree f r = Some r.
Proof. intros H. destruct f; simpl; now rewrite H. Qed.

Lemma skipSubtree_total f r :
  length (input r) < f ->
  exists r', skipSubtree f r = Some r'
             /\ length (input r') <= length (input r)
             /\ m_engine r' = m_engine r.
Proof.
  revert r. induction f as [|f IH]; intros r Hf; [lia|].
  simpl. destruct (atEnd r) eqn:Hend; [eauto|].
  pose proof (readNext_engine r) as He.
  destruct (readNext_progress r) as [Hlt|Hinv].
  - destruct (isEndElement (readNext r)); [exists (readNext r); split; [reflexivity|split; [lia|exact He]]|].
    destruct (isStartElement (readNext r)).
    + destruct (IH (readNext r)) as (r1 & -> & Hl1 & He1); [lia|].
      destruct (IH r1) as (r2 & -> & Hl2 & He2); [lia|].
      exists r2. split; [reflexivity|]. split; [lia | congruence].
    + destruct (IH (readNext r)) as (r1 & -> & Hl1 & He1); [lia|].
      exists r1. split; [reflexivity|]. split; [lia | congruence].
  - rewrite (isEndElement_Invalid _ Hinv), (isStartElement_Invalid _ Hinv).
    rewrite skipSubtree_atEnd by now apply atEnd_Invalid.
    exists (readNext r). split; [reflexivity|].
    split; [apply readNext_le | exact He].
Qed.

Lemma unexpectedElement_input r : input (unexpectedElement r) = input r.
Proof. unfold unexpectedElement. now destruct (error r). Qed.

Lemma unexpectedElement_engine r : m_engine (unexpectedElement r) = m_engine r.
Proof. unfold unexpectedElement. now destruct (error r). Qed.

Lemma readElementText_loop_total f acc r :
  length (input r) < f ->
  exists text r', readElementText_loop f acc r = Some (text, r')
                  /\ length (input r') <= length (input r)
                  /\ m_engine r' = m_engine r.
Proof.
  revert acc r. induction f as [|f IH]; intros acc r Hf; [lia|].
  simpl. pose proof (readNext_engine r) as He.
  pose proof (readNext_le r) as Hle.
  assert (Hstop : forall text : string,
    exists (text' : string) r', Some (text, unexpectedElement (readNext r)) = Some (text', r')
                  /\ length (input r') <= length (input r)
                  /\ m_engine r' = m_engine r).
  { intros text. eexists _, _. split; [reflexivity|].
    rewrite unexpectedElement_input, unexpectedElement_engine. auto. }
  destruct (readNext_progress r) as [Hlt|Hinv]; [|rewrite Hinv; apply Hstop].
  assert (Hgo : forall text : string,
    exists (text' : string) r', readElementText_loop f text (readNext r) = Some (text', r')
                  /\ length (input r') <= length (input r)
                  /\ m_engine r' = m_engine r).
  { intros text. destruct (IH text (readNext r)) as (t1 & r1 & -> & Hl1 & He1);
      [lia|]. exists t1, r1. split; [reflexivity|]. split; [lia | congruence]. }
  destruct (token (readNext r)); try apply Hstop; try apply Hgo.
  eexists _, _. split; [reflexivity|]. auto.
Qed.

Lemma readElementText_total f r :
  length (input r) < f ->
  exists text r', readElementText f r = Some (text, r')
                  /\ length (input r') <= length (input r)
                  /\ m_engine r' = m_engine r.
Proof.
  intros Hf. unfold readElementText. destruct (isStartElement r).
  - now apply readElementText_loop_total.
  - exists "", r. auto.
Qed.

Lemma readParameter_total ps r :
  length (input (snd (readParameter ps r))) <= length (input r)
  /\ m_engine (snd (readParameter ps r)) = m_engine r.
Proof.
  unfold readParameter.
  destruct (isEmpty _ || isEmpty _); simpl; [auto|].
  split; [apply readNext_le | apply readNext_engine].
Qed.

Lemma readUrl_loop_atEnd f ps r :
  atEnd r = true -> readUrl_loop f ps r = Some (ps, r).
Proof. intros H. destruct f; simpl; now rewrite H. Qed.

Lemma readUrl_loop_total f ps r :
  length (input r) < f ->
  exists ps' r', readUrl_loop f ps r = Some (ps', r')
                 /\ length (input r') <= length (input r)
                 /\ m_engine r' = m_engine r.
Proof.
  revert ps r. induction f as [|f IH]; intros ps r Hf; [lia|].
  simpl. destruct (atEnd r) eqn:Hend; [eauto|].
  pose proof (readNext_engine r) as He.
  pose proof (readNext_le r) as Hle.
  destruct (readNext_progress r) as [Hlt|Hinv].
  - destruct (isEndElement (readNext r)); [eauto|].
    destruct (isStartElement (readNext r)); cbn [negb].
    + destruct (String.eqb (name (readNext r)) "Param"
                || String.eqb (name (readNext r)) "Parameter").
      * pose proof (readParameter_total ps (readNext r)) as [Hl1 He1].
        destruct (readParameter ps (readNext r)) as [ps1 r1]. simpl in *.
        destruct (IH ps1 r1) as (ps2 & r2 & -> & Hl2 & He2); [lia|].
        exists ps2, r2. split; [reflexivity|]. split; [lia | congruence].
      * destruct (skipSubtree_total f (readNext r)) as (r1 & -> & Hl1 & He1);
          [lia|].
        destruct (IH ps r1) as (ps2 & r2 & -> & Hl2 & He2); [lia|].
        exists ps2, r2. split; [reflexivity|]. split; [lia | congruence].
    + destruct (IH ps (readNext r)) as (ps2 & r2 & -> & Hl2 & He2); [lia|].
      exists ps2, r2. split; [reflexivity|]. split; [lia | congruence].
  - rewrite (isEndElement_Invalid _ Hinv), (isStartElement_Invalid _ Hinv).
    cbn [negb]. rewrite readUrl_loop_atEnd by now apply atEnd_Invalid.
    eauto.
Qed.

(** ** A filled URL template record is never written again *)

Lemma keeps_refl e : keeps e e.
Proof. split; reflexivity. Qed.

Lemma keeps_trans e1 e2 e3 : keeps e1 e2 -> keeps e2 e3 -> keeps e1 e3.
Proof.
  unfold keeps, searchRecord, suggestionsRecord.
  intros [Ha Hb] [Hc Hd]. split; intros H.
  - specialize (Ha H). rewrite <- Ha. apply Hc.
    injection Ha as Ht _ _. congruence.
  - specialize (Hb H). rewrite <- Hb. apply Hd.
    injection Hb as Ht _ _. congruence.
Qed.

Lemma searchRecord_setSuggestionsMethod m e :
  searchRecord (OpenSearchEngine.setSuggestionsMethod m e) = searchRecord e.
Proof.
  unfold OpenSearchEngine.setSuggestionsMethod.
  now destruct (negb _).
Qed.

Lemma suggestionsRecord_setSearchMethod m e :
  suggestionsRecord (OpenSearchEngine.setSearchMethod m e)
  = suggestionsRecord e.
Proof.
  unfold OpenSearchEngine.setSearchMethod.
  now destruct (negb _).
Qed.

Lemma keeps_commit_suggestions url ps m e :
  isEmpty (OpenSearchEngine.suggestionsUrlTemplate e) = true ->
  keeps e (OpenSearchEngine.setSuggestionsMethod m
             (OpenSearchEngine.setSuggestionsParameters ps
               (OpenSearchEngine.setSuggestionsUrlTemplate url e))).
Proof.
  intros Hempty. apply isEmpty_true in Hempty. split; intros H.
  - now rewrite searchRecord_setSuggestionsMethod.
  - contradiction.
Qed.

Lemma keeps_commit_search url ps m e :
  isEmpty (OpenSearchEngine.searchUrlTemplate e) = true ->
  keeps e (OpenSearchEngine.setSearchMethod m
             (OpenSearchEngine.setSearchParameters ps
               (OpenSearchEngine.setSearchUrlTemplate url e))).
Proof.
  intros Hempty. apply isEmpty_true in Hempty. split; intros H.
  - contradiction.
  - now rewrite suggestionsRecord_setSearchMethod.
Qed.

Ltac returns_with Hl :=
  split; [reflexivity|]; split; [exact Hl|]; split; [reflexivity|].

Lemma returnsKeeping_skipSubtree f r e :
  length (input r) < f -> m_engine r = Some e ->
  returnsKeeping (skipSubtree f r) r e.
Proof.
  intros Hf He. destruct (skipSubtree_total f r Hf) as (r' & Hrun & Hl & He').
  exists r', e. split; [assumption|]. split; [assumption|].
  split; [congruence | apply keeps_refl].
Qed.

Lemma returnsKeeping_text f r e g :
  (forall text, keeps e (g text e)) ->
  length (input r) < f -> m_engine r = Some e ->
  returnsKeeping
    (match readElementText f r with
     | Some (text, r) => onEngine (g text) r
     | None => None
     end) r e.
Proof.
  intros Hg Hf He.
  destruct (readElementText_total f r Hf) as (text & r' & -> & Hl & He').
  unfold onEngine. rewrite He', He.
  exists (setEngine (Some (g text e)) r'), (g text e).
  returns_with Hl. apply Hg.
Qed.

Lemma returnsKeeping_readUrl f r e :
  length (input r) < f -> m_engine r = Some e ->
  returnsKeeping (readUrl f r) r e.
Proof.
  intros Hf He. unfold readUrl. rewrite He.
  destruct (isEmpty (attributeValue (attributes r) "template"));
    [now apply returnsKeeping_skipSubtree|].
  set (type := if isEmpty _ || String.eqb _ _ then _ else _).
  destruct (String.eqb type "application/x-suggestions+json") eqn:Hs.
  - destruct (isEmpty (OpenSearchEngine.suggestionsUrlTemplate e)) eqn:Hempty;
      cbn [negb andb]; [|now apply returnsKeeping_skipSubtree].
    destruct (String.eqb type "text/html"
              && negb (isEmpty (OpenSearchEngine.searchUrlTemplate e)));
      [now apply returnsKeeping_skipSubtree|].
    destruct (readUrl_loop_total f [] r Hf) as (ps & r' & -> & Hl & He').
    unfold onEngine. rewrite He', He. eexists _, _.
    returns_with Hl. now apply keeps_commit_suggestions.
  - cbn [andb].
    destruct (String.eqb type "text/html") eqn:Hh; cbn [andb].
    + destruct (isEmpty (OpenSearchEngine.searchUrlTemplate e)) eqn:Hempty;
        cbn [negb]; [|now apply returnsKeeping_skipSubtree].
      destruct (readUrl_loop_total f [] r Hf) as (ps & r' & -> & Hl & He').
      unfold onEngine. rewrite He', He. eexists _, _.
      returns_with Hl. now apply keeps_commit_search.
    + destruct (readUrl_loop_total f [] r Hf) as (ps & r' & -> & Hl & He').
      exists r', e. split; [reflexivity|]. split; [exact Hl|].
      split; [congruence | apply keeps_refl].
Qed.

Lemma readDocument_loop_atEnd f r :
  atEnd r = true -> readDocument_loop f r = Some r.
Proof. intros H. destruct f; simpl; now rewrite H. Qed.

Lemma returnsKeeping_readDocument_loop f r e :
  length (input r) < f -> m_engine r = Some e ->
  returnsKeeping (readDocument_loop f r) r e.
Proof.
  revert r e. induction f as [|f IH]; intros r e Hf He; [lia|].
  simpl. destruct (atEnd r) eqn:Hend.
  { exists r, e. split; [reflexivity|]. split; [lia|].
    split; [assumption | apply keeps_refl]. }
  pose proof (readNext_engine r) as He1. rewrite He in He1.
  pose proof (readNext_le r) as Hle.
  assert (Hstay : returnsKeeping (Some (readNext r)) r e).
  { exists (readNext r), e. split; [reflexivity|]. split; [assumption|].
    split; [assumption | apply keeps_refl]. }
  destruct (readNext_progress r) as [Hlt|Hinv].
  - destruct (isEndElement (readNext r)); [exact Hstay|].
    assert (Hgo : forall r1 e1,
              length (input r1) <= length (input (readNext r)) ->
              m_engine r1 = Some e1 -> keeps e e1 ->
              returnsKeeping (readDocument_loop f r1) r e).
    { intros r1 e1 Hl1 He1' Hk1.
      destruct (IH r1 e1) as (r2 & e2 & Hrun & Hl2 & He2 & Hk2);
        [lia | assumption|].
      exists r2, e2. split; [assumption|]. split; [lia|].
      split; [assumption | now apply keeps_trans with e1]. }
    destruct (isStartElement (readNext r)); cbn [negb];
      [|apply (Hgo _ e); [lia | assumption | apply keeps_refl]].
    assert (Hcall : forall run,
              returnsKeeping run (readNext r) e ->
              returnsKeeping
                (match run with
                 | Some r => readDocument_loop f r
                 | None => None
                 end) r e).
    { intros run (r1 & e1 & -> & Hl1 & He1' & Hk1). now apply (Hgo r1 e1). }
    apply Hcall.
    assert (Hf1 : length (input (readNext r)) < f) by lia.
    destruct (String.eqb (name (readNext r)) "ShortName").
    { apply (returnsKeeping_text f _ e OpenSearchEngine.setName);
        [intros; split; reflexivity | assumption..]. }
    destruct (String.eqb (name (readNext r)) "Description").
    { apply (returnsKeeping_text f _ e OpenSearchEngine.setDescription);
        [intros; split; reflexivity | assumption..]. }
    destruct (String.eqb (name (readNext r)) "Url").
    { now apply returnsKeeping_readUrl. }
    destruct (String.eqb (name (readNext r)) "Image").
    { apply (returnsKeeping_text f _ e OpenSearchEngine.setImageUrl);
        [intros; split; reflexivity | assumption..]. }
    destruct (String.eqb (name (readNext r)) "Tags").
    { apply (returnsKeeping_text f _ e
               (fun text => OpenSearchEngine.setTags (splitSkipEmpty "" text)));
        [intros; split; reflexivity | assumption..]. }
    now apply returnsKeeping_skipSubtree.
  - rewrite (isEndElement_Invalid _ Hinv), (isStartElement_Invalid _ Hinv).
    cbn [negb]. rewrite readDocument_loop_atEnd by now apply atEnd_Invalid.
    exact Hstay.
Qed.

(** ** The root element *)

Lemma readToStartElement_stop f r :
  isStartElement r = true \/ atEnd r = true ->
  readToStartElement f r = Some r.
Proof.
  intros [H|H]; destruct f; simpl; rewrite H; simpl;
    try reflexivity; now destruct (negb _).
Qed.

Lemma readToStartElement_total f r :
  length (input r) < f ->
  exists r', readToStartElement f r = Some r'
             /\ length (input r') <= length (input r)
             /\ m_engine r' = m_engine r.
Proof.
  revert r. induction f as [|f IH]; intros r Hf; [lia|].
  simpl. destruct (negb (isStartElement r) && negb (atEnd r)); [|eauto].
  pose proof (readNext_engine r) as He.
  destruct (readNext_progress r) as [Hlt|Hinv].
  - destruct (IH (readNext r)) as (r1 & -> & Hl1 & He1); [lia|].
    exists r1. split; [reflexivity|]. split; [lia | congruence].
  - rewrite readToStartElement_stop by (right; now apply atEnd_Invalid).
    exists (readNext r). split; [reflexivity|].
    split; [apply readNext_le | exact He].
Qed.

Lemma passedOver_spec t :
  passedOver t = true ->
  t <> Invalid
  /\ forall rest r, isStartElement (moveTo t rest r) = false
                    /\ atEnd (moveTo t rest r) = false.
Proof. destruct t; simpl; intros H; try discriminate; split; auto; discriminate. Qed.

Lemma readToStartElement_prolog pre t post f r :
  isStartElement r = false -> atEnd r = false ->
  input r = pre ++ t :: post ->
  forallb passedOver pre = true ->
  (exists n nsp attrs, t = StartElement n nsp attrs) ->
  length pre < f ->
  readToStartElement f r = Some (moveTo t post r).
Proof.
  revert f r. induction pre as [|p pre IH]; intros f r Hs He Hin Hpre Ht Hf;
    (destruct f as [|f]; [lia|]); simpl; rewrite Hs, He; simpl.
  - destruct Ht as (n & nsp & attrs & ->).
    rewrite (readNext_moveTo r _ post He Hin) by discriminate.
    now rewrite readToStartElement_stop by (left; reflexivity).
  - simpl in Hpre. apply andb_prop in Hpre as [Hp Hpre].
    destruct (passedOver_spec p Hp) as [Hne Hmove].
    rewrite (readNext_moveTo r p (pre ++ t :: post) He Hin Hne).
    destruct (Hmove (pre ++ t :: post) r) as [Hs1 He1].
    rewrite (IH f (moveTo p (pre ++ t :: post) r)); try assumption;
      [reflexivity | reflexivity | simpl in Hf; lia].
Qed.

(** [read] always returns, and returns an engine. *)
Lemma read_total device :
  exists r e, read device = Some r /\ m_engine r = Some e.
Proof.
  unfold read, readDocument.
  set (r0 := setEngine _ _).
  destruct (readToStartElement_total (S (length device)) r0) as (r1 & -> & Hl & He);
    [simpl; lia|].
  destruct (negb _ || negb _); [eexists _, _; split; [reflexivity | exact He]|].
  destruct (returnsKeeping_readDocument_loop (S (length device)) r1
              OpenSearchEngine.newEngine) as (r2 & e2 & -> & _ & He2 & _);
    [simpl in Hl; lia | exact He | eauto].
Qed.

(** C4.  When the first start element of the device is not
    [OpenSearchDescription] in the OpenSearch 1.1 namespace, [read] raises
    the error [The file is not an OpenSearch 1.1 file.], reads nothing
    after that start element, and still returns an engine, the new one:
    only the error state of the reader tells of the failure. *)
Theorem read_rejects_other_root pre n nsp attrs post :
  forallb passedOver pre = true ->
  n <> "OpenSearchDescription" \/ nsp <> openSearchNamespace ->
  read (pre ++ StartElement n nsp attrs :: post)
  = Some {| token := Invalid;
            input := post;
            error := CustomError;
            errorString := "The file is not an OpenSearch 1.1 file.";
            m_engine := Some OpenSearchEngine.newEngine |}.
Proof.
  intros Hpre Hroot. unfold read, readDocument.
  rewrite (readToStartElement_prolog pre (StartElement n nsp attrs) post);
    try reflexivity; try assumption; [|eauto | rewrite length_app; simpl; lia].
  cbn [name namespaceUri moveTo token].
  assert (negb (String.eqb n "OpenSearchDescription")
          || negb (String.eqb nsp openSearchNamespace) = true) as ->.
  { apply orb_true_iff.
    destruct Hroot as [H|H]; [left | right];
      apply negb_true_iff, String.eqb_neq; exact H. }
  reflexivity.
Qed.

(** A feed is not a description: the error is raised, the engine is new. *)
Lemma read_rejects_other_root_witness :
  exists r, read (document feed) = Some r
            /\ error r = CustomError
            /\ m_engine r = Some OpenSearchEngine.newEngine
            /\ atEnd r = true.
Proof.
  eexists. split.
  - apply (read_rejects_other_root [StartDocument] "rss" ""
             [("version", "2.0")]); [reflexivity | left; discriminate].
  - repeat split.
Defined.

(** ** Skipping a subtree *)

Lemma moveTo_moveTo t1 rest1 t2 rest2 r :
  moveTo t2 rest2 (moveTo t1 rest1 r) = moveTo t2 rest2 r.
Proof. reflexivity. Qed.

Lemma flat_map_tokens_cons k children :
  flat_map tokens (k :: children) = tokens k ++ flat_map tokens children.
Proof. reflexivity. Qed.

Ltac count_tokens :=
  repeat match goal with
         | Hin : input ?r = _, Hf : context [length (input ?r)] |- _ =>
             rewrite Hin in Hf
         end;
  cbn [input moveTo setEngine] in *; simpl tokens in *;
  repeat (rewrite ?length_app, ?length_cons in *; cbn [length] in * );
  lia.

(** Started inside an element, on any token, [skipSubtree] stops on the
    end tag of that element, whatever the content is. *)
Lemma skipSubtree_children f children n nsp rest r :
  atEnd r = false ->
  input r = flat_map tokens children ++ EndElement n nsp :: rest ->
  length (input r) < f ->
  skipSubtree f r = Some (moveTo (EndElement n nsp) rest r).
Proof.
  revert children n nsp rest r.
  induction f as [|f IH]; intros children n nsp rest r Hend Hin Hf; [lia|].
  simpl. rewrite Hend.
  destruct children as [|k children].
  - simpl in Hin. rewrite (readNext_moveTo r _ rest Hend Hin) by discriminate.
    reflexivity.
  - rewrite flat_map_tokens_cons in Hin. rewrite Hin in Hf.
    destruct k as [kn kns kattrs kids|text|text|]; simpl in Hin.
    + rewrite <- !app_assoc in Hin. simpl in Hin.
      rewrite (readNext_moveTo r _ _ Hend Hin) by discriminate.
      cbn [isEndElement isStartElement moveTo token].
      rewrite (IH kids kn kns (flat_map tokens children ++ EndElement n nsp :: rest));
        [| reflexivity | reflexivity
         | count_tokens].
      rewrite moveTo_moveTo.
      rewrite (IH children n nsp rest);
        [reflexivity | reflexivity | reflexivity
         | count_tokens].
    + rewrite (readNext_moveTo r _ _ Hend Hin) by discriminate.
      cbn [isEndElement isStartElement moveTo token].
      rewrite (IH children n nsp rest);
        [reflexivity | reflexivity | reflexivity | count_tokens].
    + rewrite (readNext_moveTo r _ _ Hend Hin) by discriminate.
      cbn [isEndElement isStartElement moveTo token].
      rewrite (IH children n nsp rest);
        [reflexivity | reflexivity | reflexivity | count_tokens].
    + rewrite (readNext_moveTo r _ _ Hend Hin) by discriminate.
      cbn [isEndElement isStartElement moveTo token].
      rewrite (IH children n nsp rest);
        [reflexivity | reflexivity | reflexivity | count_tokens].
Qed.

Lemma atEnd_StartElement r n nsp attrs :
  token r = StartElement n nsp attrs -> atEnd r = false.
Proof. unfold atEnd. now intros ->. Qed.

(** C3.  Once a URL template record of the engine is filled, nothing the
    reader does from there to the end of the walk changes its template,
    parameters or method.  A later [Url] element of the same type (for the
    search record: [text/html], no type, or [application/xhtml+xml]) is
    passed as a whole: [readUrl] leaves the engine as it is and stops on
    the end tag of that element, with its siblings still to be read. *)
Theorem first_url_of_a_type_wins :
  (forall f r e,
     length (input r) < f -> m_engine r = Some e ->
     exists r' e',
       readDocument_loop f r = Some r' /\ m_engine r' = Some e'
       /\ (OpenSearchEngine.searchUrlTemplate e <> "" ->
             searchRecord e' = searchRecord e)
       /\ (OpenSearchEngine.suggestionsUrlTemplate e <> "" ->
             suggestionsRecord e' = suggestionsRecord e))
  /\ (forall f r e n nsp attrs children rest,
        token r = StartElement n nsp attrs ->
        input r = flat_map tokens children ++ EndElement n nsp :: rest ->
        m_engine r = Some e ->
        (urlType attrs = "text/html"
           /\ OpenSearchEngine.searchUrlTemplate e <> "")
        \/ (urlType attrs = "application/x-suggestions+json"
              /\ OpenSearchEngine.suggestionsUrlTemplate e <> "") ->
        length (input r) < f ->
        readUrl f r = Some (moveTo (EndElement n nsp) rest r)).
Proof.
  split.
  - intros f r e Hf He.
    destruct (returnsKeeping_readDocument_loop f r e Hf He)
      as (r' & e' & Hrun & _ & He' & Hs & Hg).
    exists r', e'. auto.
  - intros f r e n nsp attrs children rest Ht Hin He Hfilled Hf.
    pose proof (atEnd_StartElement r n nsp attrs Ht) as Hend.
    pose proof (skipSubtree_children f children n nsp rest r Hend Hin Hf)
      as Hskip.
    unfold readUrl. rewrite He. unfold attributes. rewrite Ht.
    destruct (isEmpty (attributeValue attrs "template")); [exact Hskip|].
    fold (urlType attrs).
    destruct Hfilled as [[-> Hne]|[-> Hne]];
      apply isEmpty_false in Hne; rewrite Hne; exact Hskip.
Qed.

(** The second search [Url] of the document [twice] changes nothing, and
    the [ShortName] after it is read. *)
Lemma first_url_of_a_type_wins_witness :
  exists r e,
    read (document twice) = Some r /\ m_engine r = Some e
    /\ searchRecord e = ("http://a/", [("q", "{searchTerms}")], "get")
    /\ OpenSearchEngine.name e = "Second"
    /\ (forall f r0 e0 rest,
          m_engine r0 = Some e0 ->
          OpenSearchEngine.searchUrlTemplate e0 <> "" ->
          token r0 = StartElement "Url" ns
                       [("template", "http://b/"); ("method", "post")] ->
          input r0 = [Characters " "; StartElement "Param" ns
                                        [("name", "x"); ("value", "y")];
                      EndElement "Param" ns; Characters " ";
                      EndElement "Url" ns] ++ rest ->
          length (input r0) < f ->
          readUrl f r0 = Some (moveTo (EndElement "Url" ns) rest r0)).
Proof.
  destruct first_url_of_a_type_wins as [_ Hlater].
  eexists _, _. split; [vm_compute; reflexivity|].
  split; [reflexivity|]. split; [reflexivity|]. split; [reflexivity|].
  intros f r0 e0 rest He0 Hne Ht Hin Hf.
  apply (Hlater f r0 e0 "Url" ns _
           [blank; Element "Param" ns [("name", "x"); ("value", "y")] [];
            blank] rest Ht Hin He0); [|exact Hf].
  left. split; [reflexivity | exact Hne].
Defined.

(** ** Documents the reader walks in step *)

Lemma readElementText_loop_text children : forall f n nsp rest acc r,
  atEnd r = false ->
  existsb isElement children = false ->
  input r = flat_map tokens children ++ EndElement n nsp :: rest ->
  length (input r) < f ->
  readElementText_loop f acc r
  = Some (acc +:+ elementText children, moveTo (EndElement n nsp) rest r).
Proof.
  induction children as [|k children IH]; intros f n nsp rest acc r Hend Hk Hin Hf;
    (destruct f as [|f]; [lia|]); simpl in Hin |- *.
  - rewrite (readNext_moveTo r _ rest Hend Hin) by discriminate.
    cbn [moveTo token]. now rewrite append_nil_r.
  - destruct k as [kn kns kattrs kids|text|text|]; simpl in Hk, Hin;
      [discriminate|..];
      rewrite (readNext_moveTo r _ _ Hend Hin) by discriminate;
      cbn [moveTo token];
      (rewrite (IH f n nsp rest);
       [| reflexivity | assumption | reflexivity | count_tokens]);
      rewrite ?append_assoc; reflexivity.
Qed.

Lemma readUrl_loop_steady children : forall f n nsp rest ps r,
  atEnd r = false ->
  forallb steadyUrlChild children = true ->
  input r = flat_map tokens children ++ EndElement n nsp :: rest ->
  length (input r) < f ->
  readUrl_loop f ps r
  = Some (ps ++ urlParameters children, moveTo (EndElement n nsp) rest r).
Proof.
  induction children as [|k children IH]; intros f n nsp rest ps r Hend Hk Hin Hf;
    (destruct f as [|f]; [lia|]); simpl in Hin; cbn [readUrl_loop];
    rewrite Hend.
  - rewrite (readNext_moveTo r _ rest Hend Hin) by discriminate.
    cbn [isEndElement moveTo token urlParameters]. now rewrite app_nil_r.
  - simpl in Hk. apply andb_prop in Hk as [Hk Hks].
    destruct k as [kn kns kattrs kids|text|text|]; simpl in Hin;
      [|rewrite (readNext_moveTo r _ _ Hend Hin) by discriminate;
        cbn [isEndElement isStartElement moveTo token negb urlParameters];
        rewrite (IH f n nsp rest); try reflexivity; try assumption;
        count_tokens ..].
    rewrite <- !app_assoc in Hin. simpl in Hin.
    rewrite (readNext_moveTo r _ _ Hend Hin) by discriminate.
    cbn [isEndElement isStartElement moveTo token negb name urlParameters].
    cbn [steadyUrlChild] in Hk. unfold isParameterName in *.
    destruct (String.eqb kn "Param" || String.eqb kn "Parameter").
    + apply andb_prop in Hk as [Hk Hkids]. apply andb_prop in Hk as [Hkn Hkv].
      destruct kids; [|discriminate]. simpl in Hin.
      unfold readParameter. cbn [attributes moveTo token].
      apply negb_true_iff in Hkn, Hkv. rewrite Hkn, Hkv. cbn [orb].
      rewrite (readNext_moveTo _ (EndElement kn kns)
                 (flat_map tokens children ++ EndElement n nsp :: rest))
        by (reflexivity || discriminate).
      rewrite moveTo_moveTo.
      rewrite (IH f n nsp rest); try reflexivity; try assumption;
        [|count_tokens].
      now rewrite <- app_assoc.
    + rewrite (skipSubtree_children f kids kn kns
                 (flat_map tokens children ++ EndElement n nsp :: rest));
        try reflexivity; [|count_tokens].
      rewrite moveTo_moveTo.
      rewrite (IH f n nsp rest); try reflexivity; try assumption.
      count_tokens.
Qed.

(** [readUrl] on a [Url] element with steady children does what
    [applyUrl] says and stops on the end tag. *)
Lemma readUrl_steady f attrs children n nsp rest r e :
  token r = StartElement n nsp attrs ->
  m_engine r = Some e ->
  forallb steadyUrlChild children = true ->
  input r = flat_map tokens children ++ EndElement n nsp :: rest ->
  length (input r) < f ->
  readUrl f r
  = Some (setEngine (Some (applyUrl attrs children e))
            (moveTo (EndElement n nsp) rest r)).
Proof.
  intros Ht He Hk Hin Hf.
  pose proof (atEnd_StartElement r n nsp attrs Ht) as Hend.
  pose proof (skipSubtree_children f children n nsp rest r Hend Hin Hf) as Hskip.
  pose proof (readUrl_loop_steady children f n nsp rest [] r Hend Hk Hin Hf)
    as Hloop.
  assert (Hsame : Some (moveTo (EndElement n nsp) rest r)
                  = Some (setEngine (Some e) (moveTo (EndElement n nsp) rest r))).
  { unfold setEngine, moveTo. simpl. now rewrite He. }
  unfold readUrl, applyUrl. rewrite He. unfold attributes. rewrite Ht.
  fold (urlType attrs).
  destruct (isEmpty (attributeValue attrs "template"));
    [now rewrite Hskip|].
  destruct (String.eqb_spec (urlType attrs) "application/x-suggestions+json")
    as [->|_].
  - destruct (isEmpty (OpenSearchEngine.suggestionsUrlTemplate e));
      cbn [negb andb]; [|now rewrite Hskip].
    change (String.eqb "application/x-suggestions+json" "text/html") with false.
    cbn [andb]. rewrite Hloop. unfold onEngine. cbn [moveTo m_engine].
    now rewrite He.
  - cbn [andb].
    destruct (String.eqb (urlType attrs) "text/html"); cbn [andb].
    + destruct (isEmpty (OpenSearchEngine.searchUrlTemplate e)); cbn [negb];
        [|now rewrite Hskip].
      rewrite Hloop. unfold onEngine. cbn [moveTo m_engine]. now rewrite He.
    + rewrite Hloop. exact Hsame.
Qed.

Lemma readText_steady f g children n nsp attrs rest r e :
  token r = StartElement n nsp attrs ->
  m_engine r = Some e ->
  existsb isElement children = false ->
  input r = flat_map tokens children ++ EndElement n nsp :: rest ->
  length (input r) < f ->
  match readElementText f r with
  | Some (text, r) => onEngine (g text) r
  | None => None
  end
  = Some (setEngine (Some (g (elementText children) e))
            (moveTo (EndElement n nsp) rest r)).
Proof.
  intros Ht He Hk Hin Hf.
  pose proof (atEnd_StartElement r n nsp attrs Ht) as Hend.
  unfold readElementText, isStartElement. rewrite Ht.
  rewrite (readElementText_loop_text children f n nsp rest "" r Hend Hk Hin Hf).
  rewrite append_nil_l. unfold onEngine. cbn [moveTo m_engine]. now rewrite He.
Qed.

Lemma readDocument_loop_steady children : forall f n nsp rest r e,
  atEnd r = false ->
  m_engine r = Some e ->
  forallb steadyChild children = true ->
  input r = flat_map tokens children ++ EndElement n nsp :: rest ->
  length (input r) < f ->
  readDocument_loop f r
  = Some (setEngine (Some (fold_left applyChild children e))
            (moveTo (EndElement n nsp) rest r)).
Proof.
  induction children as [|k children IH];
    intros f n nsp rest r e Hend He Hk Hin Hf;
    (destruct f as [|f]; [lia|]); simpl in Hin; cbn [readDocument_loop];
    rewrite Hend.
  - rewrite (readNext_moveTo r _ rest Hend Hin) by discriminate.
    cbn [isEndElement moveTo token fold_left].
    unfold setEngine, moveTo. simpl. now rewrite He.
  - simpl in Hk. apply andb_prop in Hk as [Hk Hks].
    assert (Hnext : forall t e1,
      atEnd (moveTo t (flat_map tokens children ++ EndElement n nsp :: rest) r)
        = false ->
      length (flat_map tokens children ++ EndElement n nsp :: rest) < f ->
      readDocument_loop f
        (setEngine (Some e1)
           (moveTo t (flat_map tokens children ++ EndElement n nsp :: rest) r))
      = Some (setEngine (Some (fold_left applyChild children e1))
                (moveTo (EndElement n nsp) rest r))).
    { intros t e1 Ht Hlen.
      rewrite (IH f n nsp rest _ e1); try reflexivity; assumption. }
    assert (Hsame : forall t rest1,
      moveTo t rest1 r = setEngine (Some e) (moveTo t rest1 r)).
    { intros. unfold setEngine, moveTo. simpl. now rewrite He. }
    destruct k as [kn kns kattrs kids|text|text|]; simpl in Hin;
      [|rewrite (readNext_moveTo r _ _ Hend Hin) by discriminate;
        cbn [isEndElement isStartElement moveTo token negb fold_left applyChild];
        rewrite Hsame; apply Hnext; [reflexivity | count_tokens] ..].
    rewrite <- !app_assoc in Hin. simpl in Hin.
    rewrite (readNext_moveTo r _ _ Hend Hin) by discriminate.
    cbn [isEndElement isStartElement moveTo token negb name fold_left applyChild].
    set (rest1 := flat_map tokens children ++ EndElement n nsp :: rest) in *.
    set (r1 := moveTo (StartElement kn kns kattrs)
                 (flat_map tokens kids ++ EndElement kn kns :: rest1) r).
    assert (Hf1 : length (input r1) < f) by (subst r1 rest1; count_tokens).
    assert (Hlen : length rest1 < f) by (subst r1 rest1; count_tokens).
    cbn [steadyChild] in Hk. unfold isTextElementName in Hk.
    destruct (String.eqb kn "ShortName").
    { apply negb_true_iff in Hk.
      unfold readName.
      rewrite (readText_steady f OpenSearchEngine.setName kids kn kns kattrs
                 rest1 r1 e); try reflexivity; try assumption.
      now apply Hnext. }
    destruct (String.eqb kn "Description").
    { apply negb_true_iff in Hk.
      unfold readDescription.
      rewrite (readText_steady f OpenSearchEngine.setDescription kids kn kns
                 kattrs rest1 r1 e); try reflexivity; try assumption.
      now apply Hnext. }
    destruct (String.eqb kn "Url").
    { assert (Hurl : forallb steadyUrlChild kids = true).
      { revert Hk. cbn [orb].
        destruct (String.eqb kn "Image" || String.eqb kn "Tags"); [|auto].
        intros Hk. apply negb_true_iff in Hk.
        clear - Hk. induction kids as [|k kids IHk]; [reflexivity|].
        simpl in Hk. apply orb_false_iff in Hk as [Hk1 Hk2].
        simpl. rewrite (IHk Hk2). destruct k; [discriminate|reflexivity..]. }
      rewrite (readUrl_steady f kattrs kids kn kns rest1 r1 e);
        try reflexivity; try assumption.
      now apply Hnext. }
    destruct (String.eqb kn "Image").
    { apply negb_true_iff in Hk.
      unfold readImage.
      rewrite (readText_steady f OpenSearchEngine.setImageUrl kids kn kns
                 kattrs rest1 r1 e); try reflexivity; try assumption.
      now apply Hnext. }
    destruct (String.eqb kn "Tags").
    { apply negb_true_iff in Hk.
      unfold readTags.
      rewrite (readText_steady f
                 (fun text => OpenSearchEngine.setTags (splitSkipEmpty "" text))
                 kids kn kns kattrs rest1 r1 e);
        try reflexivity; try assumption.
      now apply Hnext. }
    rewrite (skipSubtree_children f kids kn kns rest1 r1);
      try reflexivity; try assumption.
    subst r1. rewrite moveTo_moveTo, Hsame. now apply Hnext.
Qed.

(** The reader on a description whose children it walks in step: the
    engine is the new engine after each child in turn, and there is no
    error. *)
Lemma read_steady attrs children :
  forallb steadyChild children = true ->
  read (document (description attrs children))
  = Some {| token := EndElement "OpenSearchDescription" openSearchNamespace;
            input := [EndDocument];
            error := NoError;
            errorString := "";
            m_engine :=
              Some (fold_left applyChild children OpenSearchEngine.newEngine) |}.
Proof.
  intros Hk. unfold read, readDocument, document, description.
  cbn [tokens]. set (device := StartDocument :: _).
  rewrite (readToStartElement_prolog [StartDocument]
             (StartElement "OpenSearchDescription" openSearchNamespace attrs)
             (flat_map tokens children
              ++ [EndElement "OpenSearchDescription" openSearchNamespace]
              ++ [EndDocument]));
    try reflexivity; [| subst device; simpl; now rewrite <- app_assoc
                      | eauto | subst device; simpl; lia].
  cbn [name namespaceUri moveTo token]. cbn [String.eqb negb orb].
  rewrite !String.eqb_refl. cbn [negb orb].
  rewrite (readDocument_loop_steady children (S (length device))
             "OpenSearchDescription" openSearchNamespace [EndDocument] _
             OpenSearchEngine.newEngine);
    try reflexivity; try assumption.
  subst device. cbn [input moveTo length].
  repeat (rewrite ?length_app; cbn [length]). lia.
Qed.

(** ** The name *)

Lemma name_applyUrl attrs children e :
  OpenSearchEngine.name (applyUrl attrs children e) = OpenSearchEngine.name e.
Proof.
  unfold applyUrl, OpenSearchEngine.setSuggestionsMethod,
    OpenSearchEngine.setSearchMethod.
  repeat match goal with
         | |- context [if ?b then _ else _] => destruct b
         end; reflexivity.
Qed.

Lemma name_applyChild e k :
  OpenSearchEngine.name (applyChild e k)
  = match k with
    | Element kn _ _ kids =>
        if String.eqb kn "ShortName" then elementText kids
        else OpenSearchEngine.name e
    | _ => OpenSearchEngine.name e
    end.
Proof.
  destruct k as [kn kns kattrs kids|text|text|]; try reflexivity.
  cbn [applyChild]. destruct (String.eqb kn "ShortName"); [reflexivity|].
  destruct (String.eqb kn "Description"); [reflexivity|].
  destruct (String.eqb kn "Url"); [apply name_applyUrl|].
  destruct (String.eqb kn "Image"); [reflexivity|].
  destruct (String.eqb kn "Tags"); reflexivity.
Qed.

Lemma name_fold_applyChild children : forall e,
  OpenSearchEngine.name (fold_left applyChild children e)
  = match lastShortName children with
    | Some text => text
    | None => OpenSearchEngine.name e
    end.
Proof.
  induction children as [|k children IH]; intros e; [reflexivity|].
  cbn [fold_left lastShortName]. rewrite IH.
  destruct (lastShortName children); [reflexivity|].
  rewrite name_applyChild.
  destruct k as [kn kns kattrs kids|text|text|]; try reflexivity.
  now destruct (String.eqb kn "ShortName").
Qed.

(** C9, as amended.  Every [ShortName] element the reader comes to sets
    the name again: for a description whose children the reader walks in
    step, the name of the engine [read] returns is the text of the last
    [ShortName] child, and no error is raised. *)
Theorem last_ShortName_wins attrs children text :
  forallb steadyChild children = true ->
  lastShortName children = Some text ->
  exists r e,
    read (document (description attrs children)) = Some r
    /\ m_engine r = Some e
    /\ OpenSearchEngine.name e = text
    /\ error r = NoError.
Proof.
  intros Hk Hlast. rewrite (read_steady attrs children Hk).
  eexists _, _. split; [reflexivity|]. split; [reflexivity|].
  split; [|reflexivity]. now rewrite name_fold_applyChild, Hlast.
Qed.

(** The document [twice]: the name is the text of the second
    [ShortName]. *)
Lemma last_ShortName_wins_witness :
  exists r e,
    read (document twice) = Some r /\ m_engine r = Some e
    /\ OpenSearchEngine.name e = "Second" /\ error r = NoError.
Proof.
  apply (last_ShortName_wins [] twiceChildren "Second"); reflexivity.
Defined.

(** C9 as it was stated fails: the document [twice] has two [ShortName]
    children, the first with the text [First], and the engine [read]
    returns is named [Second]. *)
Lemma first_ShortName_does_not_win :
  firstShortName twiceChildren = Some "First"
  /\ exists r e,
       read (document (description [] twiceChildren)) = Some r
       /\ m_engine r = Some e
       /\ OpenSearchEngine.name e = "Second"
       /\ Some (OpenSearchEngine.name e) <> firstShortName twiceChildren.
Proof.
  split; [reflexivity|]. eexists _, _.
  split; [vm_compute; reflexivity|]. split; [reflexivity|].
  split; [reflexivity | discriminate].
Qed.

(** ** A parameter without a value *)

(** C8 fails on the code.  In the document [missingValue] the second
    [Param] of the [Url] has no value.  [readParameter] returns on the
    start tag of that element, so the loop of [readUrl] takes its end tag
    for the end of the [Url]: the third [Param], which has a name and a
    value, is not in the parameter list, and the loop of [readDocument]
    stops on the end tag of the [Url], so the [ShortName] after it is not
    read.  No error is raised.  Without that [Param] the same document
    gives both other parameters and the name. *)
Theorem missing_value_ends_the_walk :
  exists r e,
    read (document missingValue) = Some r
    /\ m_engine r = Some e
    /\ OpenSearchEngine.searchParameters e = [("a", "1")]
    /\ OpenSearchEngine.name e = ""
    /\ OpenSearchEngine.isValid e = false
    /\ error r = NoError
    /\ token r = EndElement "Url" ns
    /\ input r = [ Characters " ";
                   StartElement "ShortName" ns []; Characters "Name";
                   EndElement "ShortName" ns; Characters " ";
                   EndElement "OpenSearchDescription" ns; EndDocument ]
    /\ exists r' e',
         read (document withoutMissingValue) = Some r'
         /\ m_engine r' = Some e'
         /\ OpenSearchEngine.searchParameters e' = [("a", "1"); ("c", "3")]
         /\ OpenSearchEngine.name e' = "Name"
         /\ OpenSearchEngine.isValid e' = true.
Proof.
  eexists _, _. split; [vm_compute; reflexivity|].
  do 7 (split; [reflexivity|]).
  eexists _, _. split; [vm_compute; reflexivity|].
  repeat split.
Qed.

End ReaderFacts.

(* ===================================================================== *)
(** * White space at the ends of a text *)
(* ===================================================================== *)

Section TrimFacts.
Import Qt Props.


















End TrimFacts.

(* ===================================================================== *)
(** * The suggestion request *)
(* ===================================================================== *)

Section SuggestionFacts.
Import Qt OpenSearchEngine Props.
Context `{script : QtScript.QScriptEngine}.

(** ** The slot *)

Lemma suggestionsObtained_decode sender reply w :
  suggestionsReply (engine w) = Some reply ->
  suggestionsObtained sender w
  = Some (match decode (readAll w reply) with
          | Some suggestionsList => emit sender suggestionsList (replyDone w)
          | None => replyDone w
          end).
Proof.
  intros Hreply. unfold suggestionsObtained, decode. rewrite Hreply.
  fold (replyDone w).
  destruct (isEmpty (trimmed (readAll w reply))); [reflexivity|].
  destruct (startsWith "[" (trimmed (readAll w reply)));
    [|reflexivity].
  destruct (endsWith "]" (trimmed (readAll w reply))); [|reflexivity].
  cbn [negb orb andb].
  destruct (QtScript.canEvaluate (trimmed (readAll w reply))) eqn:Hcan;
    cbn [negb].
  - now destruct (QtScript.isArray _).
  - now rewrite (QtScript.canEvaluate_evaluate _ Hcan).
Qed.



(** ** Starting a request *)

Lemma emitFinished_disconnected id w :
  id ∉ connected w -> emitFinished id w = Some w.
Proof.
  intros Hid. unfold emitFinished.
  destruct (decide (id ∈ connected w)); [contradiction | reflexivity].
Qed.

Lemma connected_after_abort (C : gset nat) (old n id : nat) :
  id ∈ C ∖ {[old]} ∪ {[n]} <-> (id ∈ C /\ Some old <> Some id) \/ id = n.
Proof.
  rewrite elem_of_union, elem_of_difference, !elem_of_singleton.
  split; (intros [[Hin Hne]|Hn]; [left; split; [exact Hin|congruence] | now right]).
Qed.

Lemma connected_after_connect (C : gset nat) (n id : nat) :
  id ∈ C ∪ {[n]} <-> (id ∈ C /\ @None nat <> Some id) \/ id = n.
Proof.
  rewrite elem_of_union, elem_of_singleton.
  split; (intros [H|H]; [left | now right]); [now split | tauto].
Qed.

Lemma aborted_after_abort (A : gset nat) (old id : nat) :
  id ∈ A ∪ {[old]} <-> id ∈ A \/ Some old = Some id.
Proof.
  rewrite elem_of_union, elem_of_singleton.
  split; (intros [H|H]; [now left | right; congruence]).
Qed.

Lemma aborted_unchanged (A : gset nat) (id : nat) :
  id ∈ A <-> id ∈ A \/ @None nat = Some id.
Proof. split; [now left | intros [H|H]; [exact H | discriminate]]. Qed.

(** A request that is made: the outstanding reply, if there is one, is
    disconnected and aborted without a signal, and the new reply is the
    outstanding one. *)
Lemma requestSuggestions_starts env searchTerm w :
  networkAccessManager (engine w) = true ->
  suggestionsUrlTemplate (engine w) <> "" ->
  searchTerm <> "" ->
  exists w',
    requestSuggestions env searchTerm w = Some w'
    /\ suggestionsReply (engine w') = Some (nextReply w)
    /\ nextReply w' = S (nextReply w)
    /\ networkAccessManager (engine w') = true
    /\ suggestionsUrlTemplate (engine w') = suggestionsUrlTemplate (engine w)
    /\ (forall id, id ∈ connected w' <->
                   (id ∈ connected w /\ suggestionsReply (engine w) <> Some id)
                   \/ id = nextReply w)
    /\ (forall id, id ∈ aborted w' <->
                   id ∈ aborted w \/ suggestionsReply (engine w) = Some id)
    /\ received w' = received w
    /\ emitted w' = emitted w.
Proof.
  intros Hnam Htpl Hterm.
  apply isEmpty_false in Htpl, Hterm.
  unfold requestSuggestions, providesSuggestions.
  rewrite Hterm, Htpl, Hnam. cbn [negb orb].
  destruct (suggestionsReply (engine w)) as [old|] eqn:Hold.
  - rewrite abort_disconnected. cbn [withEngine engine].
    destruct (String.eqb _ "get"); cbn [send];
      (eexists; split; [reflexivity|]); cbn;
      (split; [reflexivity|]); (split; [reflexivity|]);
      (split; [exact Hnam|]); (split; [reflexivity|]);
      (split; [intros id; apply connected_after_abort|]);
      (split; [intros id; apply aborted_after_abort|]);
      split; reflexivity.
  - destruct (String.eqb _ "get"); cbn [send];
      (eexists; split; [reflexivity|]); cbn;
      (split; [reflexivity|]); (split; [reflexivity|]);
      (split; [exact Hnam|]); (split; [reflexivity|]);
      (split; [intros id; apply connected_after_connect|]);
      (split; [intros id; apply aborted_unchanged|]);
      split; reflexivity.
Qed.

Lemma coherent_requestSuggestions env searchTerm w w' :
  coherent w ->
  requestSuggestions env searchTerm w = Some w' ->
  coherent w'.
Proof.
  intros Hco Hrun.
  destruct (isEmpty searchTerm || negb (providesSuggestions (engine w))
            || negb (networkAccessManager (engine w))) eqn:Hskip.
  - unfold requestSuggestions in Hrun.
    destruct (isEmpty searchTerm || negb (providesSuggestions (engine w)));
      [now injection Hrun as <-|].
    cbn [orb] in Hskip. rewrite Hskip in Hrun. now injection Hrun as <-.
  - apply orb_false_iff in Hskip as [Hskip Hnam].
    apply orb_false_iff in Hskip as [Hterm Htpl].
    apply negb_false_iff in Hnam, Htpl. unfold providesSuggestions in Htpl.
    apply negb_true_iff in Htpl.
    apply isEmpty_false in Hterm, Htpl.
    destruct (requestSuggestions_starts env searchTerm w Hnam Htpl Hterm)
      as (w1 & Hrun1 & Hreply & Hnext & _ & _ & Hconn & _ & Hrecv & _).
    rewrite Hrun in Hrun1. injection Hrun1 as <-.
    destruct Hco as [Hmade Hwait]. split.
    + intros id Hid. rewrite Hrecv in Hid. specialize (Hmade id Hid). lia.
    + intros id Hin Hnone. rewrite Hrecv in Hnone. rewrite Hreply.
      apply Hconn in Hin as [[Hin Hne]| ->]; [|reflexivity].
      specialize (Hwait id Hin Hnone). contradiction.
Qed.

(** ** Completions *)

(** The world in which the transport answered the reply [id]. *)
Lemma step_Complete env id body w :
  step env (Complete id body) w
  = if decide (id < nextReply w) then
      match received w !! id with
      | Some _ => Some w
      | None =>
          emitFinished id
            {| engine := engine w; nextReply := nextReply w; sent := sent w;
               connected := connected w; aborted := aborted w;
               received := <[id := body]> (received w);
               emitted := emitted w |}
      end
    else Some w.
Proof. reflexivity. Qed.

Lemma run_completes_idle env completions : forall w,
  idle w ->
  exists w',
    run env (completes completions) w = Some w'
    /\ emitted w' = emitted w
    /\ aborted w' = aborted w
    /\ connected w' = connected w.
Proof.
  induction completions as [|[id body] completions IH]; intros w Hidle.
  - exists w. auto.
  - cbn [completes map run fst snd]. rewrite step_Complete.
    destruct (decide (id < nextReply w)); [|now apply IH].
    destruct (received w !! id) eqn:Hrecv; [now apply IH|].
    rewrite emitFinished_disconnected.
    + destruct (IH {| engine := engine w; nextReply := nextReply w;
                      sent := sent w; connected := connected w;
                      aborted := aborted w;
                      received := <[id := body]> (received w);
                      emitted := emitted w |}) as (w' & Hrun & He & Ha & Hc).
      * intros id' Hin. cbn.
        destruct (decide (id = id')) as [->|Hne];
          [now rewrite lookup_insert_eq|].
        rewrite lookup_insert_ne by assumption. now apply Hidle.
      * exists w'. auto.
    + cbn. intros Hin. now apply (Hidle id Hin).
Qed.

Lemma decide_idle_after second body w :
  (forall id, id ∈ connected w -> id <> second -> received w !! id <> None) ->
  (forall l,
     idle (emit second l
             (replyDone
                {| engine := engine w; nextReply := nextReply w;
                   sent := sent w; connected := connected w;
                   aborted := aborted w;
                   received := <[second := body]> (received w);
                   emitted := emitted w |})))
  /\ idle (replyDone
             {| engine := engine w; nextReply := nextReply w;
                sent := sent w; connected := connected w;
                aborted := aborted w;
                received := <[second := body]> (received w);
                emitted := emitted w |}).
Proof.
  intros Hothers.
  assert (H : forall id, id ∈ connected w ->
                         <[second := body]> (received w) !! id <> None).
  { intros id Hin. destruct (decide (second = id)) as [->|Hne];
      [now rewrite lookup_insert_eq|].
    rewrite lookup_insert_ne by assumption. apply Hothers; congruence. }
  split; [intros l|]; exact H.
Qed.

Lemma run_completes_waiting env second completions : forall w,
  suggestionsReply (engine w) = Some second ->
  second ∈ connected w ->
  second < nextReply w ->
  received w !! second = None ->
  (forall id, id ∈ connected w -> id <> second -> received w !! id <> None) ->
  exists w',
    run env (completes completions) w = Some w'
    /\ emitted w'
       = emitted w ++ match firstAnswer second completions with
                      | Some body => delivery second body
                      | None => []
                      end
    /\ aborted w' = aborted w
    /\ connected w' = connected w.
Proof.
  induction completions as [|[id body] completions IH];
    intros w Hreply Hconn Hmade Hnone Hothers.
  - exists w. cbn. now rewrite app_nil_r.
  - cbn [completes map run fst snd firstAnswer]. rewrite step_Complete.
    destruct (Nat.eqb_spec id second) as [->|Hne].
    + destruct (decide (second < nextReply w)); [|contradiction].
      rewrite Hnone. unfold emitFinished. cbn [connected].
      destruct (decide (second ∈ connected w)); [|contradiction].
      rewrite (suggestionsObtained_decode second second) by exact Hreply.
      unfold readAll. cbn [received]. rewrite lookup_insert_eq.
      unfold delivery.
      destruct (decide_idle_after second body w Hothers) as [Hidle1 Hidle2].
      destruct (decode body) as [suggestionsList|].
      * destruct (run_completes_idle env completions _ (Hidle1 suggestionsList))
          as (w' & Hrun & He & Ha & Hc).
        exists w'. auto.
      * destruct (run_completes_idle env completions _ Hidle2)
          as (w' & Hrun & He & Ha & Hc).
        exists w'. split; [exact Hrun|]. rewrite He. cbn.
        now rewrite app_nil_r.
    + destruct (decide (id < nextReply w)); [|now apply IH].
      destruct (received w !! id) eqn:Hrecv; [now apply IH|].
      rewrite emitFinished_disconnected.
      * destruct (IH {| engine := engine w; nextReply := nextReply w;
                        sent := sent w; connected := connected w;
                        aborted := aborted w;
                        received := <[id := body]> (received w);
                        emitted := emitted w |})
          as (w' & Hrun & He & Ha & Hc); try assumption.
        -- cbn. now rewrite lookup_insert_ne.
        -- intros id' Hin Hne'. cbn.
           destruct (decide (id = id')) as [->|Hne2];
             [now rewrite lookup_insert_eq|].
           rewrite lookup_insert_ne by assumption. now apply Hothers.
        -- exists w'. auto.
      * cbn. intros Hin. now apply (Hothers id Hin Hne).
Qed.

(** ** The invariant holds in every world the event loop reaches *)

Lemma coherent_newWorld d : coherent (newWorld d).
Proof.
  split; cbn.
  - intros id Hid. now rewrite lookup_empty in Hid.
  - intros id Hin. now apply not_elem_of_empty in Hin.
Qed.

Lemma coherent_step env ev w :
  coherent w ->
  exists w', step env ev w = Some w' /\ coherent w'.
Proof.
  intros Hco. destruct ev as [searchTerm|id body].
  - cbn [step].
    destruct (requestSuggestions env searchTerm w) as [w'|] eqn:Hrun.
    + exists w'. split; [reflexivity|].
      now apply (coherent_requestSuggestions env searchTerm w).
    + exfalso. revert Hrun. unfold requestSuggestions.
      destruct (isEmpty searchTerm || negb (providesSuggestions (engine w)));
        [discriminate|].
      destruct (negb (networkAccessManager (engine w))); [discriminate|].
      destruct (suggestionsReply (engine w)) as [old|];
        [rewrite abort_disconnected|];
        cbn [withEngine engine]; destruct (String.eqb _ "get"); discriminate.
  - rewrite step_Complete.
    destruct (decide (id < nextReply w)) as [Hmade|]; [|eauto].
    destruct (received w !! id) eqn:Hnone; [eauto|].
    destruct Hco as [Hanswered Hwait].
    unfold emitFinished. cbn [connected].
    destruct (decide (id ∈ connected w)) as [Hin|Hout].
    + rewrite (suggestionsObtained_decode id id)
        by (cbn; now apply Hwait).
      eexists. split; [reflexivity|].
      assert (Hdone : forall w0,
                nextReply w0 = nextReply w -> connected w0 = connected w ->
                received w0 = <[id := body]> (received w) ->
                suggestionsReply (engine w0) = None ->
                coherent w0).
      { intros w0 Hn Hc Hr Hs. split.
        - intros id' Hid'. rewrite Hr in Hid'. rewrite Hn.
          destruct (decide (id = id')) as [<-|Hne]; [exact Hmade|].
          rewrite lookup_insert_ne in Hid' by assumption. now apply Hanswered.
        - intros id' Hin' Hnone'. rewrite Hr in Hnone'. rewrite Hc in Hin'.
          destruct (decide (id = id')) as [<-|Hne];
            [now rewrite lookup_insert_eq in Hnone'|].
          rewrite lookup_insert_ne in Hnone' by assumption.
          pose proof (Hwait id Hin Hnone) as H1.
          pose proof (Hwait id' Hin' Hnone') as H2. congruence. }
      destruct (decode _); apply Hdone; reflexivity.
    + eexists. split; [reflexivity|]. split; cbn.
      * intros id' Hid'.
        destruct (decide (id = id')) as [<-|Hne]; [exact Hmade|].
        rewrite lookup_insert_ne in Hid' by assumption. now apply Hanswered.
      * intros id' Hin' Hnone'.
        destruct (decide (id = id')) as [<-|Hne]; [contradiction|].
        rewrite lookup_insert_ne in Hnone' by assumption. now apply Hwait.
Qed.

(** The event loop never stops on a null reply, and keeps the invariant. *)
Lemma coherent_run env evs : forall w,
  coherent w ->
  exists w', run env evs w = Some w' /\ coherent w'.
Proof.
  induction evs as [|ev evs IH]; intros w Hco; [eauto|].
  cbn [run]. destruct (coherent_step env ev w Hco) as (w1 & -> & Hco1).
  now apply IH.
Qed.

(** ** A second request before the first completes *)

(** C6.  A request made while another is outstanding disconnects and
    aborts the outstanding reply, without a signal, before the new reply
    is made.  Whatever replies the transport then completes, in whatever
    order and with whatever bodies, the engine emits at most one more
    [suggestions] signal; it comes from the second reply, as the first
    answer to that reply decodes, and none comes from the first. *)
Theorem second_request_supersedes env w searchTerm1 searchTerm2 completions :
  coherent w ->
  networkAccessManager (engine w) = true ->
  suggestionsUrlTemplate (engine w) <> "" ->
  searchTerm1 <> "" ->
  searchTerm2 <> "" ->
  let first := nextReply w in
  let second := S first in
  let added := match firstAnswer second completions with
               | Some body => delivery second body
               | None => []
               end in
  exists w1 w2 w',
    requestSuggestions env searchTerm1 w = Some w1
    /\ suggestionsReply (engine w1) = Some first
    /\ requestSuggestions env searchTerm2 w1 = Some w2
    /\ suggestionsReply (engine w2) = Some second
    /\ first ∈ aborted w2
    /\ (first ∉ connected w2)
    /\ emitted w2 = emitted w
    /\ run env (completes completions) w2 = Some w'
    /\ emitted w' = emitted w ++ added
    /\ length added <= 1
    /\ (forall x, In x added -> fst x = second).
Proof.
  intros Hco Hnam Htpl Hterm1 Hterm2 first second added.
  destruct (requestSuggestions_starts env searchTerm1 w Hnam Htpl Hterm1)
    as (w1 & Hrun1 & Hreply1 & Hnext1 & Hnam1 & Htpl1 & Hconn1 & Habort1
        & Hrecv1 & Hemit1).
  pose proof (coherent_requestSuggestions env searchTerm1 w w1 Hco Hrun1)
    as Hco1.
  rewrite <- Htpl1 in Htpl.
  destruct (requestSuggestions_starts env searchTerm2 w1 Hnam1 Htpl Hterm2)
    as (w2 & Hrun2 & Hreply2 & Hnext2 & Hnam2 & Htpl2 & Hconn2 & Habort2
        & Hrecv2 & Hemit2).
  rewrite Hnext1 in Hreply2. fold first in Hreply1, Hreply2. fold second in Hreply2.
  assert (Hsecond : second ∈ connected w2).
  { apply Hconn2. right. now rewrite Hnext1. }
  assert (Hnone : received w2 !! second = None).
  { rewrite Hrecv2, Hrecv1.
    destruct (received w !! second) eqn:Hr; [|reflexivity].
    assert (second < nextReply w) by (apply (answered_made w Hco); congruence).
    subst second first. lia. }
  assert (Hothers : forall id, id ∈ connected w2 -> id <> second ->
                               received w2 !! id <> None).
  { intros id Hin Hne Hr. apply Hconn2 in Hin as [[Hin Hnot]|Hid].
    - rewrite Hrecv2 in Hr. apply Hnot.
      now apply (connected_waiting w1 Hco1).
    - rewrite Hnext1 in Hid. contradiction. }
  destruct (run_completes_waiting env second completions w2 Hreply2 Hsecond)
    as (w' & Hrun & Hemit & _ & _); try assumption.
  { rewrite Hnext2, Hnext1. subst second first. lia. }
  exists w1, w2, w'.
  split; [exact Hrun1|]. split; [exact Hreply1|]. split; [exact Hrun2|].
  split; [exact Hreply2|].
  split; [apply Habort2; now right|].
  split.
  { intros Hin. apply Hconn2 in Hin as [[_ Hnot]|Hid];
      [now apply Hnot | rewrite Hnext1 in Hid; subst first; lia]. }
  split; [congruence|]. split; [exact Hrun|].
  split; [now rewrite Hemit, Hemit2, Hemit1|].
  subst added. unfold delivery.
  destruct (firstAnswer second completions) as [body|];
    [|split; [cbn; lia | now intros x []]].
  destruct (decode body); (split; [cbn; lia|]); intros x Hx.
  - destruct Hx as [<-|[]]. reflexivity.
  - destruct Hx.
Qed.

End SuggestionFacts.

(** Two requests on the GitHub description, then the answers: the first
    reply answered, which is ignored, the second answered, which delivers,
    and the second answered again, which is ignored. *)
Lemma second_request_supersedes_witness :
  exists w',
    OpenSearchEngine.run (H := QtScript.jsonScriptEngine) Props.exampleEnv
      (OpenSearchEngine.Request "a" :: OpenSearchEngine.Request "ab"
       :: Props.completes [(0, Props.exampleResponse);
                           (1, Props.exampleResponse);
                           (1, "[]")])
      (OpenSearchEngine.newWorld Props.githubPost) = Some w'
    /\ OpenSearchEngine.emitted w' = [(1, ["a"; "b"])].
Proof.
  destruct (second_request_supersedes (script := QtScript.jsonScriptEngine)
              Props.exampleEnv (OpenSearchEngine.newWorld Props.githubPost)
              "a" "ab"
              [(0, Props.exampleResponse); (1, Props.exampleResponse);
               (1, "[]")])
    as (w1 & w2 & w' & Hrun1 & _ & Hrun2 & _ & _ & _ & _ & Hrun & Hemit & _).
  - apply coherent_newWorld.
  - reflexivity.
  - discriminate.
  - discriminate.
  - discriminate.
  - exists w'. split.
    + cbn [OpenSearchEngine.run OpenSearchEngine.step].
      rewrite Hrun1, Hrun2. exact Hrun.
    + rewrite Hemit. reflexivity.
Defined.


(* ===================================================================== *)
(** * The reader on any device *)
(* ===================================================================== *)

Section ReaderInvariant.
Import Qt QXmlStream OpenSearchReader Props Document Further.

(** ** Words *)

Lemma spaceFree_append s t :
  spaceFree (s +:+ t) = spaceFree s && spaceFree t.
Proof.
  induction s as [|c s IH]; [reflexivity|].
  rewrite append_cons. cbn [spaceFree]. now rewrite IH, andb_assoc.
Qed.

Lemma isEmpty_append s t : isEmpty (s +:+ t) = isEmpty s && isEmpty t.
Proof. destruct s; reflexivity. Qed.

Lemma splitSkipEmpty_words s : forall cur,
  spaceFree cur = true -> forallb isWord (splitSkipEmpty cur s) = true.
Proof.
  assert (Hcur : forall cur, spaceFree cur = true ->
            forallb isWord (if isEmpty cur then [] else [cur]) = true).
  { intros cur Hc. destruct (isEmpty cur) eqn:He; [reflexivity|].
    cbn [forallb]. unfold isWord. now rewrite He, Hc. }
  induction s as [|c s IH]; intros cur Hc; cbn [splitSkipEmpty].
  - now apply Hcur.
  - destruct (Ascii.eqb c " ") eqn:Hsp.
    + rewrite forallb_app, Hcur by assumption. now apply IH.
    + apply IH. rewrite spaceFree_append, Hc. cbn [spaceFree].
      now rewrite Hsp.
Qed.

Lemma splitSkipEmpty_word w : forall cur rest,
  spaceFree w = true ->
  splitSkipEmpty cur (w +:+ rest) = splitSkipEmpty (cur +:+ w) rest.
Proof.
  induction w as [|c w IH]; intros cur rest Hw.
  - now rewrite append_nil_l, append_nil_r.
  - cbn [spaceFree] in Hw. apply andb_prop in Hw as [Hc Hw].
    apply negb_true_iff in Hc.
    rewrite append_cons. cbn [splitSkipEmpty]. rewrite Hc.
    rewrite IH by assumption.
    now rewrite append_assoc, append_cons, append_nil_l.
Qed.

Lemma splitSkipEmpty_join ws :
  forallb isWord ws = true -> splitSkipEmpty "" (join " " ws) = ws.
Proof.
  induction ws as [|w ws IH]; intros Hws; [reflexivity|].
  cbn [forallb] in Hws. apply andb_prop in Hws as [Hw Hws].
  unfold isWord in Hw. apply andb_prop in Hw as [Hne Hw].
  apply negb_true_iff in Hne.
  destruct ws as [|w' ws].
  - cbn [join]. rewrite <- (append_nil_r w) at 1.
    rewrite splitSkipEmpty_word by assumption.
    rewrite append_nil_l. cbn [splitSkipEmpty]. now rewrite Hne.
  - change (join " " (w :: w' :: ws))
      with (w +:+ " " +:+ join " " (w' :: ws)).
    rewrite splitSkipEmpty_word by assumption.
    rewrite append_nil_l, append_cons, append_nil_l.
    cbn [splitSkipEmpty Ascii.eqb Bool.eqb]. rewrite Hne.
    cbn [app]. now rewrite IH.
Qed.

(** ** The parameters [readUrl] collects *)

Lemma readUrl_loop_valid f : forall ps r ps' r',
  readUrl_loop f ps r = Some (ps', r') ->
  forallb validPair ps = true ->
  forallb validPair ps' = true.
Proof.
  induction f as [|f IH]; intros ps r ps' r'; cbn [readUrl_loop];
    destruct (atEnd r); try discriminate;
    try (intros [= <- <-]; tauto).
  destruct (isEndElement (readNext r)); [intros [= <- <-]; tauto|].
  destruct (negb (isStartElement (readNext r))); [apply IH|].
  destruct (String.eqb (name (readNext r)) "Param"
            || String.eqb (name (readNext r)) "Parameter").
  - unfold readParameter.
    destruct (isEmpty (attributeValue (attributes (readNext r)) "name"))
      eqn:Hk; cbn [orb]; [apply IH|].
    destruct (isEmpty (attributeValue (attributes (readNext r)) "value"))
      eqn:Hv; [apply IH|].
    intros Hrun Hps. apply (IH _ _ _ _ Hrun).
    rewrite forallb_app, Hps. cbn [forallb]. unfold validPair.
    cbn [fst snd]. now rewrite Hk, Hv.
  - destruct (skipSubtree f (readNext r)); [apply IH | discriminate].
Qed.

(** ** What every call of the reader keeps *)

Section Kept.
Variable P : OpenSearchEngine.OpenSearchEngine -> Prop.
Hypothesis P_setName : forall text e, P e -> P (OpenSearchEngine.setName text e).
Hypothesis P_setDescription :
  forall text e, P e -> P (OpenSearchEngine.setDescription text e).
Hypothesis P_setImageUrl :
  forall text e, P e -> P (OpenSearchEngine.setImageUrl text e).
Hypothesis P_setTags :
  forall text e,
    P e -> P (OpenSearchEngine.setTags (splitSkipEmpty "" text) e).
Hypothesis P_search :
  forall url ps m e,
    P e -> isEmpty url = false -> forallb validPair ps = true ->
    P (OpenSearchEngine.setSearchMethod m
         (OpenSearchEngine.setSearchParameters ps
           (OpenSearchEngine.setSearchUrlTemplate url e))).
Hypothesis P_suggestions :
  forall url ps m e,
    P e -> isEmpty url = false -> forallb validPair ps = true ->
    P (OpenSearchEngine.setSuggestionsMethod m
         (OpenSearchEngine.setSuggestionsParameters ps
           (OpenSearchEngine.setSuggestionsUrlTemplate url e))).

Lemma returnsWith_skipSubtree f r e :
  length (input r) < f -> m_engine r = Some e -> P e ->
  returnsWith P (skipSubtree f r) r.
Proof.
  intros Hf He HP. destruct (skipSubtree_total f r Hf) as (r' & Hrun & Hl & He').
  exists r', e. split; [assumption|]. split; [assumption|].
  split; [congruence | assumption].
Qed.

Lemma returnsWith_text f r e g :
  (forall text, P (g text e)) ->
  length (input r) < f -> m_engine r = Some e ->
  returnsWith P
    (match readElementText f r with
     | Some (text, r) => onEngine (g text) r
     | None => None
     end) r.
Proof.
  intros Hg Hf He.
  destruct (readElementText_total f r Hf) as (text & r' & -> & Hl & He').
  unfold onEngine. rewrite He', He.
  exists (setEngine (Some (g text e)) r'), (g text e).
  split; [reflexivity|]. split; [exact Hl|]. split; [reflexivity|]. apply Hg.
Qed.

Lemma returnsWith_readUrl f r e :
  length (input r) < f -> m_engine r = Some e -> P e ->
  returnsWith P (readUrl f r) r.
Proof.
  intros Hf He HP. unfold readUrl. rewrite He.
  destruct (isEmpty (attributeValue (attributes r) "template")) eqn:Hurl;
    [now apply (returnsWith_skipSubtree f r e)|].
  set (type := if isEmpty _ || String.eqb _ _ then _ else _).
  destruct (String.eqb type "application/x-suggestions+json"
            && negb (isEmpty (OpenSearchEngine.suggestionsUrlTemplate e)));
    [now apply (returnsWith_skipSubtree f r e)|].
  destruct (String.eqb type "text/html"
            && negb (isEmpty (OpenSearchEngine.searchUrlTemplate e)));
    [now apply (returnsWith_skipSubtree f r e)|].
  destruct (readUrl_loop_total f [] r Hf) as (ps & r' & Hrun & Hl & He').
  pose proof (readUrl_loop_valid f [] r ps r' Hrun eq_refl) as Hps.
  rewrite Hrun. unfold onEngine. rewrite He', He.
  destruct (String.eqb type "application/x-suggestions+json").
  { eexists _, _. split; [reflexivity|]. split; [exact Hl|].
    split; [reflexivity|]. now apply P_suggestions. }
  destruct (String.eqb type "text/html").
  { eexists _, _. split; [reflexivity|]. split; [exact Hl|].
    split; [reflexivity|]. now apply P_search. }
  exists r', e. split; [reflexivity|]. split; [exact Hl|].
  split; [congruence | assumption].
Qed.

Lemma returnsWith_readDocument_loop f : forall r e,
  length (input r) < f -> m_engine r = Some e -> P e ->
  returnsWith P (readDocument_loop f r) r.
Proof.
  induction f as [|f IH]; intros r e Hf He HP; [lia|].
  simpl. destruct (atEnd r) eqn:Hend.
  { exists r, e. split; [reflexivity|]. split; [lia|].
    split; assumption. }
  pose proof (readNext_engine r) as He1. rewrite He in He1.
  pose proof (readNext_le r) as Hle.
  assert (Hstay : returnsWith P (Some (readNext r)) r).
  { exists (readNext r), e. split; [reflexivity|]. split; [assumption|].
    split; assumption. }
  destruct (readNext_progress r) as [Hlt|Hinv].
  - destruct (isEndElement (readNext r)); [exact Hstay|].
    assert (Hgo : forall r1 e1,
              length (input r1) <= length (input (readNext r)) ->
              m_engine r1 = Some e1 -> P e1 ->
              returnsWith P (readDocument_loop f r1) r).
    { intros r1 e1 Hl1 He1' HP1.
      destruct (IH r1 e1) as (r2 & e2 & Hrun & Hl2 & He2 & HP2);
        [lia | assumption | assumption|].
      exists r2, e2. split; [assumption|]. split; [lia|].
      split; assumption. }
    destruct (isStartElement (readNext r)); cbn [negb];
      [|apply (Hgo _ e); [lia | assumption | assumption]].
    assert (Hcall : forall run,
              returnsWith P run (readNext r) ->
              returnsWith P
                (match run with
                 | Some r => readDocument_loop f r
                 | None => None
                 end) r).
    { intros run (r1 & e1 & -> & Hl1 & He1' & HP1). now apply (Hgo r1 e1). }
    apply Hcall.
    assert (Hf1 : length (input (readNext r)) < f) by lia.
    destruct (String.eqb (name (readNext r)) "ShortName").
    { apply (returnsWith_text f _ e OpenSearchEngine.setName);
        [intros; now apply P_setName | assumption..]. }
    destruct (String.eqb (name (readNext r)) "Description").
    { apply (returnsWith_text f _ e OpenSearchEngine.setDescription);
        [intros; now apply P_setDescription | assumption..]. }
    destruct (String.eqb (name (readNext r)) "Url").
    { now apply (returnsWith_readUrl f _ e). }
    destruct (String.eqb (name (readNext r)) "Image").
    { apply (returnsWith_text f _ e OpenSearchEngine.setImageUrl);
        [intros; now apply P_setImageUrl | assumption..]. }
    destruct (String.eqb (name (readNext r)) "Tags").
    { apply (returnsWith_text f _ e
               (fun text => OpenSearchEngine.setTags (splitSkipEmpty "" text)));
        [intros; now apply P_setTags | assumption..]. }
    now apply (returnsWith_skipSubtree f _ e).
  - rewrite (isEndElement_Invalid _ Hinv), (isStartElement_Invalid _ Hinv).
    cbn [negb]. rewrite readDocument_loop_atEnd by now apply atEnd_Invalid.
    exact Hstay.
Qed.

Lemma returnsWith_read device :
  P OpenSearchEngine.newEngine ->
  exists r e, read device = Some r /\ m_engine r = Some e /\ P e.
Proof.
  intros Hnew. unfold read, readDocument.
  set (r0 := setEngine _ _).
  destruct (readToStartElement_total (S (length device)) r0)
    as (r1 & -> & Hl & He); [simpl; lia|].
  destruct (negb _ || negb _);
    [eexists _, _; split; [reflexivity | split; [exact He | exact Hnew]]|].
  destruct (returnsWith_readDocument_loop (S (length device)) r1
              OpenSearchEngine.newEngine) as (r2 & e2 & -> & _ & He2 & HP2);
    [simpl in Hl; lia | exact He | exact Hnew | eauto].
Qed.

End Kept.

(** ** The engine of any device *)

Lemma asRead_new : asRead OpenSearchEngine.newEngine.
Proof.
  split; [|repeat split].
  constructor; try reflexivity; try (now left); cbn; auto.
Qed.

Lemma asRead_search url ps m e :
  asRead e -> isEmpty url = false -> forallb validPair ps = true ->
  asRead (OpenSearchEngine.setSearchMethod m
            (OpenSearchEngine.setSearchParameters ps
              (OpenSearchEngine.setSearchUrlTemplate url e))).
Proof.
  intros (Hd & Ht & Hn & Hg & Hr) Hurl Hps.
  apply isEmpty_false in Hurl. destruct Hd.
  destruct (isMethod_dec (toLower m)) as [Hm|Hm].
  - rewrite setSearchMethod_accept by assumption.
    split; [|repeat split; assumption].
    constructor; cbn; try assumption. intros Hu. contradiction.
  - rewrite setSearchMethod_reject by assumption.
    split; [|repeat split; assumption].
    constructor; cbn; try assumption. intros Hu. contradiction.
Qed.

Lemma asRead_suggestions url ps m e :
  asRead e -> isEmpty url = false -> forallb validPair ps = true ->
  asRead (OpenSearchEngine.setSuggestionsMethod m
            (OpenSearchEngine.setSuggestionsParameters ps
              (OpenSearchEngine.setSuggestionsUrlTemplate url e))).
Proof.
  intros (Hd & Ht & Hn & Hg & Hr) Hurl Hps.
  apply isEmpty_false in Hurl. destruct Hd.
  destruct (isMethod_dec (toLower m)) as [Hm|Hm].
  - rewrite setSuggestionsMethod_accept by assumption.
    split; [|repeat split; assumption].
    constructor; cbn; try assumption. intros Hu. contradiction.
  - rewrite setSuggestionsMethod_reject by assumption.
    split; [|repeat split; assumption].
    constructor; cbn; try assumption. intros Hu. contradiction.
Qed.

(** X1.  Whatever the device holds, well-formed or not, a description or
    not, [read] returns, and returns an engine and not a null pointer.
    The fields of that engine are those a description can hold: both
    methods are [get] or [post], every stored parameter has a name and a
    value that are not empty, every tag is a word without a space, and a
    record without a template has no parameter and the method [get].  The
    engine has no network access manager, no delegate and no reply. *)
Theorem read_returns_describable device :
  exists r e,
    read device = Some r
    /\ m_engine r = Some e
    /\ describable e
    /\ OpenSearchEngine.requestMethods e
       = OpenSearchEngine.requestMethods OpenSearchEngine.newEngine
    /\ OpenSearchEngine.networkAccessManager e = false
    /\ OpenSearchEngine.delegate e = false
    /\ OpenSearchEngine.suggestionsReply e = None.
Proof.
  apply (returnsWith_read asRead).
  - intros text e (Hd & Hrest). split; [|exact Hrest].
    destruct Hd. constructor; assumption.
  - intros text e (Hd & Hrest). split; [|exact Hrest].
    destruct Hd. constructor; assumption.
  - intros text e (Hd & Hrest). split; [|exact Hrest].
    destruct Hd. constructor; try assumption.
  - intros text e (Hd & Hrest). split; [|exact Hrest].
    destruct Hd. constructor; try assumption.
    cbn. now apply splitSkipEmpty_words.
  - apply asRead_search.
  - apply asRead_suggestions.
  - apply asRead_new.
Qed.

End ReaderInvariant.

(* ===================================================================== *)
(** * The reader on descriptions *)
(* ===================================================================== *)

Section ReaderDocuments.
Import Qt QXmlStream OpenSearchReader Props Document Further.

(** ** A device without a root *)

Lemma readNext_cases r :
  atEnd r = false ->
  readNext r
  = match input r with
    | [] => raise PrematureEndOfDocumentError "Premature end of document." r
    | Invalid :: rest =>
        raise NotWellFormedError "The document is not well-formed."
          (moveTo (token r) rest r)
    | t :: rest => moveTo t rest r
    end.
Proof.
  unfold readNext, atEnd. destruct (token r); try discriminate; reflexivity.
Qed.

Lemma readToStartElement_noroot f : forall r,
  rootOf (input r) = None ->
  isStartElement r = false ->
  length (input r) < f ->
  exists r', readToStartElement f r = Some r'
             /\ atEnd r' = true
             /\ m_engine r' = m_engine r.
Proof.
  induction f as [|f IH]; intros r Hroot Hs Hf; [lia|].
  cbn [readToStartElement]. rewrite Hs. cbn [negb andb].
  destruct (atEnd r) eqn:Hend; cbn [negb]; [eauto|].
  rewrite (readNext_cases r Hend).
  destruct (input r) as [|t rest] eqn:Hin.
  - rewrite readToStartElement_stop by (right; reflexivity). eauto.
  - assert (Hpass :
              passedOver t = true -> rootOf rest = None ->
              exists r', readToStartElement f (moveTo t rest r) = Some r'
                         /\ atEnd r' = true /\ m_engine r' = m_engine r).
    { intros Hp Hrest. destruct (passedOver_spec t Hp) as [_ Hmove].
      destruct (Hmove rest r) as [Hs1 _].
      destruct (IH (moveTo t rest r)) as (r' & Hrun & He & Hm);
        [exact Hrest | exact Hs1 | simpl in Hf |- *; lia|].
      exists r'. auto. }
    destruct t; cbn [rootOf passedOver] in Hroot; try discriminate;
      try (apply Hpass; [reflexivity | exact Hroot]);
      rewrite readToStartElement_stop by (right; reflexivity); eauto.
Qed.

(** X2.  A device on which the reader comes to no start element (the
    empty device, a prolog with nothing after it, or one that stops being
    well-formed before the root) is refused like a document with another
    root: the error [The file is not an OpenSearch 1.1 file.] replaces the
    error of the stream reader, and the engine returned is a new one. *)
Theorem read_without_root device :
  rootOf device = None ->
  exists r,
    read device = Some r
    /\ token r = Invalid
    /\ error r = CustomError
    /\ errorString r = "The file is not an OpenSearch 1.1 file."
    /\ m_engine r = Some OpenSearchEngine.newEngine.
Proof.
  intros Hroot. unfold read, readDocument.
  set (r0 := setEngine _ _).
  destruct (readToStartElement_noroot (S (length device)) r0)
    as (r1 & -> & Hend & He); [exact Hroot | reflexivity | simpl; lia|].
  assert (Hname : name r1 = "").
  { unfold atEnd in Hend. unfold name.
    destruct (token r1); try discriminate; reflexivity. }
  rewrite Hname. cbn [String.eqb negb orb].
  eexists. split; [reflexivity|]. repeat split. exact He.
Qed.

(** The empty device. *)
Lemma read_without_root_witness :
  exists r,
    read [] = Some r
    /\ token r = Invalid
    /\ error r = CustomError
    /\ errorString r = "The file is not an OpenSearch 1.1 file."
    /\ m_engine r = Some OpenSearchEngine.newEngine.
Proof. apply (read_without_root []). reflexivity. Defined.

(** ** What a child of the root does *)

Lemma requestMethods_applyUrl attrs children e :
  OpenSearchEngine.requestMethods (applyUrl attrs children e)
  = OpenSearchEngine.requestMethods e.
Proof.
  unfold applyUrl, OpenSearchEngine.setSuggestionsMethod,
    OpenSearchEngine.setSearchMethod.
  repeat match goal with
         | |- context [if ?b then _ else _] => destruct b
         end; reflexivity.
Qed.

Lemma requestMethods_applyChild e k :
  OpenSearchEngine.requestMethods (applyChild e k)
  = OpenSearchEngine.requestMethods e.
Proof.
  destruct k as [kn kns kattrs kids|text|text|]; try reflexivity.
  cbn [applyChild]. destruct (String.eqb kn "ShortName"); [reflexivity|].
  destruct (String.eqb kn "Description"); [reflexivity|].
  destruct (String.eqb kn "Url"); [apply requestMethods_applyUrl|].
  destruct (String.eqb kn "Image"); [reflexivity|].
  destruct (String.eqb kn "Tags"); reflexivity.
Qed.

Lemma keeps_applyUrl attrs children e : keeps e (applyUrl attrs children e).
Proof.
  unfold applyUrl.
  destruct (isEmpty (attributeValue attrs "template")); [apply keeps_refl|].
  destruct (String.eqb (urlType attrs) "application/x-suggestions+json").
  - destruct (isEmpty (OpenSearchEngine.suggestionsUrlTemplate e)) eqn:Hempty;
      [now apply keeps_commit_suggestions | apply keeps_refl].
  - destruct (String.eqb (urlType attrs) "text/html"); [|apply keeps_refl].
    destruct (isEmpty (OpenSearchEngine.searchUrlTemplate e)) eqn:Hempty;
      [now apply keeps_commit_search | apply keeps_refl].
Qed.

Lemma keeps_applyChild e k : keeps e (applyChild e k).
Proof.
  destruct k as [kn kns kattrs kids|text|text|]; try apply keeps_refl.
  cbn [applyChild].
  destruct (String.eqb kn "ShortName"); [split; reflexivity|].
  destruct (String.eqb kn "Description"); [split; reflexivity|].
  destruct (String.eqb kn "Url"); [apply keeps_applyUrl|].
  destruct (String.eqb kn "Image"); [split; reflexivity|].
  destruct (String.eqb kn "Tags"); [split; reflexivity | apply keeps_refl].
Qed.

Lemma keeps_fold_applyChild children : forall e,
  keeps e (fold_left applyChild children e).
Proof.
  induction children as [|k children IH]; intros e; [apply keeps_refl|].
  cbn [fold_left].
  apply keeps_trans with (applyChild e k); [apply keeps_applyChild | apply IH].
Qed.

(** ** Content the reader passes by *)

Lemma applyChild_unknown e k : unknownChild k = true -> applyChild e k = e.
Proof.
  destruct k as [kn kns kattrs kids|text|text|]; try reflexivity.
  cbn [unknownChild applyChild]. intros Hk. apply negb_true_iff in Hk.
  repeat (apply orb_false_iff in Hk as [Hk ?]).
  now rewrite Hk, H2, H1, H0, H.
Qed.

Lemma steadyChild_unknown k : unknownChild k = true -> steadyChild k = true.
Proof.
  destruct k as [kn kns kattrs kids|text|text|]; try reflexivity.
  cbn [unknownChild steadyChild]. unfold isTextElementName.
  intros Hk. apply negb_true_iff in Hk.
  repeat (apply orb_false_iff in Hk as [Hk ?]).
  now rewrite Hk, H2, H1, H0, H.
Qed.

Lemma fold_applyChild_known children : forall e,
  fold_left applyChild (List.filter (fun k => negb (unknownChild k)) children) e
  = fold_left applyChild children e.
Proof.
  induction children as [|k children IH]; intros e; [reflexivity|].
  cbn [List.filter fold_left].
  destruct (unknownChild k) eqn:Hk; cbn [negb].
  - rewrite (applyChild_unknown e k Hk). apply IH.
  - cbn [fold_left]. apply IH.
Qed.

Lemma steadyChild_known children :
  forallb steadyChild children = true ->
  forallb steadyChild (List.filter (fun k => negb (unknownChild k)) children) = true.
Proof.
  induction children as [|k children IH]; [reflexivity|].
  cbn [forallb List.filter]. intros Hk. apply andb_prop in Hk as [Hk Hks].
  destruct (negb (unknownChild k)); [|now apply IH].
  cbn [forallb]. now rewrite Hk, IH.
Qed.

(** X3.  In a description whose children the reader walks in step (no
    element inside a [ShortName], [Description], [Image] or [Tags], and
    every [Param] or [Parameter] of a [Url] with a name, a value and no
    content), the reader passes by every child of the root but the five
    elements it knows: an element of another name with all it holds (also
    a [ShortName] or a [Url] inside it), character data, comments and
    processing instructions.  With them or without them [read] ends in
    the same state, with the same engine and no error. *)
Theorem read_passes_by_unknown attrs children :
  forallb steadyChild children = true ->
  read (document (description attrs children))
  = read (document (description attrs
                      (List.filter (fun k => negb (unknownChild k)) children))).
Proof.
  intros Hk.
  rewrite (read_steady attrs children Hk).
  rewrite (read_steady attrs _ (steadyChild_known children Hk)).
  now rewrite fold_applyChild_known.
Qed.

(** A [ShortName] inside an element of another name is not the name. *)
Lemma read_passes_by_unknown_witness :
  read (document (description []
          [ blank;
            Element "Developer" ns []
              [Element "ShortName" ns [] [CharData "Inner"]];
            CommentNode "c";
            Element "ShortName" ns [] [CharData "Outer"] ]))
  = read (document (description []
            [Element "ShortName" ns [] [CharData "Outer"]])).
Proof.
  apply (read_passes_by_unknown []
           [ blank;
             Element "Developer" ns []
               [Element "ShortName" ns [] [CharData "Inner"]];
             CommentNode "c";
             Element "ShortName" ns [] [CharData "Outer"] ]).
  reflexivity.
Defined.

(** ** The first [Url] of each type *)

Lemma searchRecord_applyUrl_other attrs children e :
  isEmpty (attributeValue attrs "template") = true
  \/ String.eqb (urlType attrs) "text/html" = false ->
  searchRecord (applyUrl attrs children e) = searchRecord e.
Proof.
  intros Hother. unfold applyUrl.
  destruct (isEmpty (attributeValue attrs "template")); [reflexivity|].
  destruct Hother as [Hu|Ht]; [discriminate|]. rewrite Ht.
  destruct (String.eqb (urlType attrs) "application/x-suggestions+json");
    [|reflexivity].
  destruct (isEmpty (OpenSearchEngine.suggestionsUrlTemplate e));
    [|reflexivity].
  now rewrite searchRecord_setSuggestionsMethod.
Qed.

Lemma suggestionsRecord_applyUrl_other attrs children e :
  isEmpty (attributeValue attrs "template") = true
  \/ String.eqb (urlType attrs) "application/x-suggestions+json" = false ->
  suggestionsRecord (applyUrl attrs children e) = suggestionsRecord e.
Proof.
  intros Hother. unfold applyUrl.
  destruct (isEmpty (attributeValue attrs "template")); [reflexivity|].
  destruct Hother as [Hu|Ht]; [discriminate|]. rewrite Ht.
  destruct (String.eqb (urlType attrs) "text/html"); [|reflexivity].
  destruct (isEmpty (OpenSearchEngine.searchUrlTemplate e)); [|reflexivity].
  now rewrite suggestionsRecord_setSearchMethod.
Qed.

Lemma searchRecord_commit url ps m e :
  OpenSearchEngine.requestMethods e
  = OpenSearchEngine.requestMethods OpenSearchEngine.newEngine ->
  OpenSearchEngine.searchMethod e = "get" ->
  searchRecord (OpenSearchEngine.setSearchMethod m
                  (OpenSearchEngine.setSearchParameters ps
                    (OpenSearchEngine.setSearchUrlTemplate url e)))
  = (url, ps,
     if OpenSearchEngine.contains
          (OpenSearchEngine.requestMethods OpenSearchEngine.newEngine)
          (toLower m)
     then toLower m else "get").
Proof.
  intros Ht Hm. unfold OpenSearchEngine.setSearchMethod.
  cbn [OpenSearchEngine.requestMethods OpenSearchEngine.setSearchParameters
       OpenSearchEngine.setSearchUrlTemplate].
  rewrite Ht.
  destruct (OpenSearchEngine.contains _ (toLower m)); cbn [negb];
    unfold searchRecord; cbn; [reflexivity | now rewrite Hm].
Qed.

Lemma suggestionsRecord_commit url ps m e :
  OpenSearchEngine.requestMethods e
  = OpenSearchEngine.requestMethods OpenSearchEngine.newEngine ->
  OpenSearchEngine.suggestionsMethod e = "get" ->
  suggestionsRecord (OpenSearchEngine.setSuggestionsMethod m
                       (OpenSearchEngine.setSuggestionsParameters ps
                         (OpenSearchEngine.setSuggestionsUrlTemplate url e)))
  = (url, ps,
     if OpenSearchEngine.contains
          (OpenSearchEngine.requestMethods OpenSearchEngine.newEngine)
          (toLower m)
     then toLower m else "get").
Proof.
  intros Ht Hm. unfold OpenSearchEngine.setSuggestionsMethod.
  cbn [OpenSearchEngine.requestMethods
       OpenSearchEngine.setSuggestionsParameters
       OpenSearchEngine.setSuggestionsUrlTemplate].
  rewrite Ht.
  destruct (OpenSearchEngine.contains _ (toLower m)); cbn [negb];
    unfold suggestionsRecord; cbn; [reflexivity | now rewrite Hm].
Qed.

Lemma searchRecord_applyChild_other e k :
  isUrlOfType "text/html" k = false ->
  searchRecord (applyChild e k) = searchRecord e.
Proof.
  destruct k as [kn kns kattrs kids|text|text|]; try reflexivity.
  cbn [isUrlOfType applyChild]. intros Hk.
  destruct (String.eqb kn "ShortName"); [reflexivity|].
  destruct (String.eqb kn "Description"); [reflexivity|].
  destruct (String.eqb kn "Url").
  - apply searchRecord_applyUrl_other. cbn [andb] in Hk.
    destruct (isEmpty (attributeValue kattrs "template")); [now left|].
    right. exact Hk.
  - destruct (String.eqb kn "Image"); [reflexivity|].
    destruct (String.eqb kn "Tags"); reflexivity.
Qed.

Lemma suggestionsRecord_applyChild_other e k :
  isUrlOfType "application/x-suggestions+json" k = false ->
  suggestionsRecord (applyChild e k) = suggestionsRecord e.
Proof.
  destruct k as [kn kns kattrs kids|text|text|]; try reflexivity.
  cbn [isUrlOfType applyChild]. intros Hk.
  destruct (String.eqb kn "ShortName"); [reflexivity|].
  destruct (String.eqb kn "Description"); [reflexivity|].
  destruct (String.eqb kn "Url").
  - apply suggestionsRecord_applyUrl_other. cbn [andb] in Hk.
    destruct (isEmpty (attributeValue kattrs "template")); [now left|].
    right. exact Hk.
  - destruct (String.eqb kn "Image"); [reflexivity|].
    destruct (String.eqb kn "Tags"); reflexivity.
Qed.

Lemma isUrlOfType_spec type k :
  isUrlOfType type k = true ->
  exists kns attrs kids,
    k = Element "Url" kns attrs kids
    /\ isEmpty (attributeValue attrs "template") = false
    /\ urlType attrs = type.
Proof.
  destruct k as [kn kns kattrs kids|text|text|]; try discriminate.
  cbn [isUrlOfType]. intros Hk.
  apply andb_prop in Hk as [Hk Ht]. apply andb_prop in Hk as [Hn Hu].
  apply String.eqb_eq in Hn, Ht. apply negb_true_iff in Hu.
  subst kn. eauto 6.
Qed.

Lemma searchRecord_fold children : forall e,
  OpenSearchEngine.requestMethods e
  = OpenSearchEngine.requestMethods OpenSearchEngine.newEngine ->
  searchRecord e = ("", [], "get") ->
  searchRecord (fold_left applyChild children e)
  = recordOf (firstUrlOfType "text/html" children).
Proof.
  induction children as [|k children IH]; intros e Ht He; [exact He|].
  cbn [fold_left firstUrlOfType].
  destruct (isUrlOfType "text/html" k) eqn:Hk.
  - destruct (isUrlOfType_spec _ k Hk) as (kns & attrs & kids & -> & Hu & Hty).
    cbn [recordOf].
    injection He as Htpl Hps Hm.
    assert (Hfirst : searchRecord (applyChild e (Element "Url" kns attrs kids))
                     = (attributeValue attrs "template", urlParameters kids,
                        methodOf attrs)).
    { cbn [applyChild String.eqb Ascii.eqb Bool.eqb]. cbn [andb].
      unfold applyUrl. rewrite Hu, Hty, Htpl.
      cbn [String.eqb Ascii.eqb Bool.eqb andb isEmpty].
      now apply searchRecord_commit. }
    destruct (keeps_fold_applyChild children
                (applyChild e (Element "Url" kns attrs kids))) as [Hkeep _].
    rewrite Hkeep; [exact Hfirst|].
    change (fst (fst (searchRecord
                        (applyChild e (Element "Url" kns attrs kids)))) <> "").
    rewrite Hfirst. now apply isEmpty_false.
  - apply IH.
    + now rewrite requestMethods_applyChild.
    + now rewrite searchRecord_applyChild_other.
Qed.

Lemma suggestionsRecord_fold children : forall e,
  OpenSearchEngine.requestMethods e
  = OpenSearchEngine.requestMethods OpenSearchEngine.newEngine ->
  suggestionsRecord e = ("", [], "get") ->
  suggestionsRecord (fold_left applyChild children e)
  = recordOf (firstUrlOfType "application/x-suggestions+json" children).
Proof.
  induction children as [|k children IH]; intros e Ht He; [exact He|].
  cbn [fold_left firstUrlOfType].
  destruct (isUrlOfType "application/x-suggestions+json" k) eqn:Hk.
  - destruct (isUrlOfType_spec _ k Hk) as (kns & attrs & kids & -> & Hu & Hty).
    cbn [recordOf].
    injection He as Htpl Hps Hm.
    assert (Hfirst :
              suggestionsRecord (applyChild e (Element "Url" kns attrs kids))
              = (attributeValue attrs "template", urlParameters kids,
                 methodOf attrs)).
    { cbn [applyChild String.eqb Ascii.eqb Bool.eqb]. cbn [andb].
      unfold applyUrl. rewrite Hu, Hty, Htpl.
      cbn [String.eqb Ascii.eqb Bool.eqb andb isEmpty].
      now apply suggestionsRecord_commit. }
    destruct (keeps_fold_applyChild children
                (applyChild e (Element "Url" kns attrs kids))) as [_ Hkeep].
    rewrite Hkeep; [exact Hfirst|].
    change (fst (fst (suggestionsRecord
                        (applyChild e (Element "Url" kns attrs kids)))) <> "").
    rewrite Hfirst. now apply isEmpty_false.
  - apply IH.
    + now rewrite requestMethods_applyChild.
    + now rewrite suggestionsRecord_applyChild_other.
Qed.

(** X4.  In a description whose children the reader walks in step, what
    [read] stores for searching and for suggestions is told by
    the first [Url] child of each type that has a template: a [Url] with
    the type [text/html], [application/xhtml+xml] or no type gives the
    search record, one with the type [application/x-suggestions+json] the
    suggestions record.  The record holds the template, the parameters
    among the children of that element, and as method the lower case of
    the attribute [method] when that is [get] or [post], otherwise [get].
    Without such a [Url] the record stays empty. *)
Theorem read_first_urls attrs children :
  forallb steadyChild children = true ->
  exists r e,
    read (document (description attrs children)) = Some r
    /\ m_engine r = Some e
    /\ searchRecord e = recordOf (firstUrlOfType "text/html" children)
    /\ suggestionsRecord e
       = recordOf (firstUrlOfType "application/x-suggestions+json" children).
Proof.
  intros Hk. rewrite (read_steady attrs children Hk).
  eexists _, _. split; [reflexivity|]. split; [reflexivity|]. split.
  - now apply searchRecord_fold.
  - now apply suggestionsRecord_fold.
Qed.

(** The document [twice]: the first [Url] has the type [text/html]; the
    second has no type, so it is a search [Url] too and gives nothing. *)
Lemma read_first_urls_witness :
  exists r e,
    read (document twice) = Some r
    /\ m_engine r = Some e
    /\ searchRecord e = ("http://a/", [("q", "{searchTerms}")], "get")
    /\ suggestionsRecord e = ("", [], "get").
Proof. apply (read_first_urls [] twiceChildren). reflexivity. Defined.

(** ** Validity *)

Lemma firstUrlOfType_template type children attrs kids :
  firstUrlOfType type children = Some (attrs, kids) ->
  isEmpty (attributeValue attrs "template") = false.
Proof.
  induction children as [|k children IH]; [discriminate|].
  cbn [firstUrlOfType]. destruct (isUrlOfType type k) eqn:Hk; [|exact IH].
  destruct (isUrlOfType_spec _ k Hk) as (kns & a & ks & -> & Hu & _).
  now intros [= <- <-].
Qed.

Lemma isValid_fold children :
  OpenSearchEngine.isValid
    (fold_left applyChild children OpenSearchEngine.newEngine)
  = match lastShortName children, firstUrlOfType "text/html" children with
    | Some text, Some _ => negb (isEmpty text)
    | _, _ => false
    end.
Proof.
  unfold OpenSearchEngine.isValid.
  rewrite name_fold_applyChild.
  pose proof (searchRecord_fold children OpenSearchEngine.newEngine
                eq_refl eq_refl) as Hrec.
  unfold searchRecord in Hrec.
  destruct (firstUrlOfType "text/html" children) as [[a ks]|] eqn:Hfirst;
    cbn [recordOf] in Hrec; injection Hrec as -> _ _.
  - rewrite (firstUrlOfType_template _ _ _ _ Hfirst). cbn [negb].
    destruct (lastShortName children); [apply andb_true_r | reflexivity].
  - cbn [isEmpty negb]. rewrite andb_false_r.
    now destruct (lastShortName children).
Qed.

(** X5.  The engine [read] returns for a description whose children the
    reader walks in step is valid exactly when the last [ShortName] child
    has a text that is not empty and some [Url] child with a template is
    a search [Url]. *)
Theorem read_valid attrs children :
  forallb steadyChild children = true ->
  exists r e,
    read (document (description attrs children)) = Some r
    /\ m_engine r = Some e
    /\ OpenSearchEngine.isValid e
       = match lastShortName children, firstUrlOfType "text/html" children with
         | Some text, Some _ => negb (isEmpty text)
         | _, _ => false
         end.
Proof.
  intros Hk. rewrite (read_steady attrs children Hk).
  eexists _, _. split; [reflexivity|]. split; [reflexivity|].
  apply isValid_fold.
Qed.

(** The document [missingValue] without its faulty [Param] is valid. *)
Lemma read_valid_witness :
  exists r e,
    read (document withoutMissingValue) = Some r
    /\ m_engine r = Some e
    /\ OpenSearchEngine.isValid e = true.
Proof.
  apply (read_valid []
           [ blank;
             Element "Url" ns [("type", "text/html"); ("template", "http://a/")]
               [ blank;
                 Element "Param" ns [("name", "a"); ("value", "1")] []; blank;
                 blank;
                 Element "Param" ns [("name", "c"); ("value", "3")] []; blank ];
             blank;
             Element "ShortName" ns [] [CharData "Name"]; blank ]).
  reflexivity.
Defined.

(** ** Writing a description and reading it *)

Lemma elementText_text text :
  elementText (if isEmpty text then [] else [CharData text]) = text.
Proof.
  destruct text as [|c text]; [reflexivity|].
  cbn [isEmpty elementText]. apply append_nil_r.
Qed.

Lemma steadyChild_textElement kn text :
  isTextElementName kn = true -> steadyChild (textElement kn text) = true.
Proof.
  intros Hkn. unfold textElement. cbn [steadyChild]. rewrite Hkn.
  now destruct (isEmpty text).
Qed.

Lemma steadyUrlChild_parameters ps :
  forallb validPair ps = true ->
  forallb steadyUrlChild (map parameterElement ps) = true.
Proof.
  induction ps as [|[k v] ps IH]; [reflexivity|].
  cbn [forallb map]. intros Hps. apply andb_prop in Hps as [Hp Hps].
  rewrite (IH Hps), andb_true_r.
  unfold validPair in Hp. cbn [fst snd] in Hp. cbn. now rewrite andb_true_r.
Qed.

Lemma urlParameters_parameters ps :
  urlParameters (map parameterElement ps) = ps.
Proof.
  induction ps as [|[k v] ps IH]; [reflexivity|].
  cbn [map]. unfold parameterElement at 1. cbn. now rewrite IH.
Qed.

Lemma toLower_method m : isMethod m -> toLower m = m.
Proof. now intros [-> | ->]. Qed.

Lemma applyChild_urlElement type template method ps e :
  applyChild e (urlElement type template method ps)
  = applyUrl [("type", type); ("template", template); ("method", method)]
      (map parameterElement ps) e.
Proof. reflexivity. Qed.

Lemma applyUrl_search template method ps e :
  isEmpty template = false ->
  isMethod method ->
  OpenSearchEngine.requestMethods e
  = OpenSearchEngine.requestMethods OpenSearchEngine.newEngine ->
  OpenSearchEngine.searchUrlTemplate e = "" ->
  applyUrl [("type", "text/html"); ("template", template); ("method", method)]
    (map parameterElement ps) e
  = OpenSearchEngine.assignSearchMethod method
      (OpenSearchEngine.setSearchParameters ps
        (OpenSearchEngine.setSearchUrlTemplate template e)).
Proof.
  intros Hu Hm Ht He. unfold applyUrl, urlType. cbn. rewrite Hu, He.
  cbn [isEmpty]. rewrite urlParameters_parameters.
  rewrite setSearchMethod_accept; rewrite ?toLower_method by assumption;
    [reflexivity | exact Ht | exact Hm].
Qed.

Lemma applyUrl_suggestions template method ps e :
  isEmpty template = false ->
  isMethod method ->
  OpenSearchEngine.requestMethods e
  = OpenSearchEngine.requestMethods OpenSearchEngine.newEngine ->
  OpenSearchEngine.suggestionsUrlTemplate e = "" ->
  applyUrl [("type", "application/x-suggestions+json");
            ("template", template); ("method", method)]
    (map parameterElement ps) e
  = OpenSearchEngine.assignSuggestionsMethod method
      (OpenSearchEngine.setSuggestionsParameters ps
        (OpenSearchEngine.setSuggestionsUrlTemplate template e)).
Proof.
  intros Hu Hm Ht He. unfold applyUrl, urlType. cbn. rewrite Hu, He.
  cbn [isEmpty]. rewrite urlParameters_parameters.
  rewrite setSuggestionsMethod_accept; rewrite ?toLower_method by assumption;
    [reflexivity | exact Ht | exact Hm].
Qed.

Lemma steadyChild_canonical e :
  describable e -> forallb steadyChild (canonical e) = true.
Proof.
  intros He. destruct He. unfold canonical.
  rewrite !forallb_app. cbn [forallb].
  rewrite !steadyChild_textElement by reflexivity. cbn [andb].
  destruct (isEmpty (OpenSearchEngine.searchUrlTemplate e));
    destruct (isEmpty (OpenSearchEngine.suggestionsUrlTemplate e));
    cbn [forallb andb]; unfold urlElement; cbn [steadyChild];
    unfold isTextElementName; cbn;
    rewrite ?steadyUrlChild_parameters by assumption; reflexivity.
Qed.

(** X6.  Every engine whose fields a description can hold is read back
    from the description that spells them out: a [ShortName], a
    [Description], a [Url] with its [Param] children for each template
    that is not empty, an [Image] and the [Tags] with a space between
    them.  [read] raises no error on it and returns an engine with the
    same name, description, image URL, tags, and search and suggestions
    records. *)
Theorem read_canonical attrs e :
  describable e ->
  exists r e',
    read (document (description attrs (canonical e))) = Some r
    /\ error r = NoError
    /\ m_engine r = Some e'
    /\ described e' = described e.
Proof.
  intros He. rewrite (read_steady attrs _ (steadyChild_canonical e He)).
  eexists _, _. split; [reflexivity|]. split; [reflexivity|].
  split; [reflexivity|].
  destruct He as [Hsm Hgm Hsp Hgp Hsd Hgd Htags].
  unfold canonical. rewrite !fold_left_app. cbn [fold_left].
  unfold textElement at 1 2 3 4.
  cbn [applyChild String.eqb Ascii.eqb Bool.eqb].
  rewrite !elementText_text, (splitSkipEmpty_join _ Htags).
  destruct (isEmpty (OpenSearchEngine.searchUrlTemplate e)) eqn:Hs;
    destruct (isEmpty (OpenSearchEngine.suggestionsUrlTemplate e)) eqn:Hg;
    cbn [fold_left];
    rewrite ?applyChild_urlElement;
    try (apply isEmpty_true in Hs; destruct (Hsd Hs) as [Hsp0 Hsm0]);
    try (apply isEmpty_true in Hg; destruct (Hgd Hg) as [Hgp0 Hgm0]).
  - unfold described, searchRecord, suggestionsRecord. cbn.
    now rewrite Hs, Hg, Hsp0, Hsm0, Hgp0, Hgm0.
  - rewrite applyUrl_suggestions by (assumption || reflexivity).
    unfold described, searchRecord, suggestionsRecord. cbn.
    now rewrite Hs, Hsp0, Hsm0.
  - rewrite applyUrl_search by (assumption || reflexivity).
    unfold described, searchRecord, suggestionsRecord. cbn.
    now rewrite Hg, Hgp0, Hgm0.
  - rewrite applyUrl_search by (assumption || reflexivity).
    rewrite applyUrl_suggestions by (assumption || reflexivity).
    reflexivity.
Qed.

(** The GitHub description, with two tags. *)
Lemma read_canonical_witness :
  exists r e',
    read (document (description []
            (canonical (OpenSearchEngine.setTags ["code"; "git"] github))))
    = Some r
    /\ error r = NoError
    /\ m_engine r = Some e'
    /\ described e'
       = described (OpenSearchEngine.setTags ["code"; "git"] github).
Proof.
  apply (read_canonical [] (OpenSearchEngine.setTags ["code"; "git"] github)).
  constructor; try reflexivity.
  - left. reflexivity.
  - right. reflexivity.
  - intros H. discriminate H.
  - intros H. discriminate H.
Defined.

End ReaderDocuments.

(* ===================================================================== *)
(** * The engine: comparison and requests *)
(* ===================================================================== *)

Section EngineMore.
Import Qt OpenSearchEngine Props Further.

(** ** Comparison *)

Lemma pairEqual_spec p q : pairEqual p q = true <-> p = q.
Proof.
  destruct p as [k v], q as [k' v']. unfold pairEqual. cbn [fst snd].
  rewrite andb_true_iff, !String.eqb_eq. split; [intros [-> ->] | intros [= -> ->]]; auto.
Qed.

Lemma parametersEqual_spec ps : forall qs,
  parametersEqual ps qs = true <-> ps = qs.
Proof.
  induction ps as [|p ps IH]; intros [|q qs]; cbn [parametersEqual];
    try (split; [discriminate | discriminate]); [tauto|].
  rewrite andb_true_iff, pairEqual_spec, IH.
  split; [intros [-> ->] | intros [= -> ->]]; auto.
Qed.

Lemma operatorEqual_compared d other :
  operatorEqual d other = true <-> compared d = compared other.
Proof.
  unfold operatorEqual, compared.
  rewrite !andb_true_iff, !String.eqb_eq, !parametersEqual_spec.
  split.
  - intros [[[[[[-> ->] ->] ->] ->] ->] ->]. reflexivity.
  - intros [= -> -> -> -> -> -> ->]. repeat split.
Qed.

Lemma compared_setSearchMethod m d :
  compared (setSearchMethod m d) = compared d.
Proof. unfold setSearchMethod. now destruct (negb _). Qed.

Lemma searchUrl_get env d searchTerm :
  searchUrlTemplate d <> "" -> searchMethod d = "get" ->
  searchUrl env d searchTerm
  = QUrl_from (parseTemplate env searchTerm (searchUrlTemplate d))
      (map (queryItem env searchTerm) (searchParameters d)).
Proof.
  intros Hne Hm. apply isEmpty_false in Hne. unfold searchUrl, fromEncoded.
  rewrite Hne, Hm. cbn [String.eqb Ascii.eqb Bool.eqb negb].
  apply addParameters_from.
Qed.

Lemma searchUrl_post env d searchTerm :
  searchUrlTemplate d <> "" -> searchMethod d = "post" ->
  searchUrl env d searchTerm
  = QUrl_from (parseTemplate env searchTerm (searchUrlTemplate d)) [].
Proof.
  intros Hne Hm. apply isEmpty_false in Hne. unfold searchUrl, fromEncoded.
  now rewrite Hne, Hm.
Qed.

(** X8.  Engines that [operator==] takes for equal need not search the
    same way.  An engine with a search template, the method [get] and at
    least one search parameter is equal to the same engine with the method
    set to [post], and the two have different search URLs for every search
    term: the first carries the parameters as query items, the second
    carries none. *)
Theorem operatorEqual_not_searchUrl env d searchTerm :
  requestMethods d = requestMethods newEngine ->
  searchUrlTemplate d <> "" ->
  searchMethod d = "get" ->
  searchParameters d <> [] ->
  operatorEqual d (setSearchMethod "post" d) = true
  /\ searchUrl env d searchTerm
     <> searchUrl env (setSearchMethod "post" d) searchTerm.
Proof.
  intros Ht Htpl Hget Hps. split.
  - apply operatorEqual_compared. now rewrite compared_setSearchMethod.
  - rewrite (setSearchMethod_accept "post" d Ht) by (right; reflexivity).
    rewrite (searchUrl_get env d searchTerm Htpl Hget).
    rewrite searchUrl_post by (assumption || reflexivity).
    cbn [searchUrlTemplate assignSearchMethod].
    intros [= Hq]. destruct (searchParameters d); [contradiction | discriminate].
Qed.

(** The GitHub description, whose search method is [get]. *)
Lemma operatorEqual_not_searchUrl_witness :
  operatorEqual github (setSearchMethod "post" github) = true
  /\ searchUrl exampleEnv github "a b"
     <> searchUrl exampleEnv (setSearchMethod "post" github) "a b".
Proof.
  apply (operatorEqual_not_searchUrl exampleEnv github "a b");
    [reflexivity | discriminate | reflexivity | discriminate].
Defined.

(** ** Requests of an engine made by the interface *)

Lemma value_get d :
  requestMethods d = requestMethods newEngine ->
  value (requestMethods d) "get" = GetOperation.
Proof.
  intros ->. unfold value. cbn.
  rewrite lookup_insert_ne by discriminate. now rewrite lookup_insert_eq.
Qed.

(** X9.  On every engine made from a new one by calls of its functions,
    a search request with a term that is not empty reaches the delegate
    when there is one, and with a known operation: for the method [get]
    the operation [GetOperation] and an empty body, for [post] the
    operation [PostOperation] and the stored pairs as body.  The request
    is for the search URL, also when that is the null URL of an engine
    without a search template. *)
Theorem requestSearchResults_reachable env d searchTerm :
  reachable d ->
  delegate d = true ->
  searchTerm <> "" ->
  isMethod (searchMethod d)
  /\ requestSearchResults env d searchTerm
     = Some {| request := searchUrl env d searchTerm;
               operation :=
                 if String.eqb (searchMethod d) "post"
                 then PostOperation else GetOperation;
               data :=
                 if String.eqb (searchMethod d) "post"
                 then join "&" (map bodyPair (searchParameters d)) else "" |}
  /\ (searchUrlTemplate d = "" ->
      request <$> requestSearchResults env d searchTerm = Some QUrl_null).
Proof.
  intros Hd Hdel Hterm. apply methodsOk_reachable in Hd.
  destruct Hd as (Ht & Hm & _). apply isEmpty_false in Hterm.
  split; [exact Hm|].
  assert (Hrun : requestSearchResults env d searchTerm
     = Some {| request := searchUrl env d searchTerm;
               operation :=
                 if String.eqb (searchMethod d) "post"
                 then PostOperation else GetOperation;
               data :=
                 if String.eqb (searchMethod d) "post"
                 then join "&" (map bodyPair (searchParameters d)) else "" |}).
  { unfold requestSearchResults. rewrite Hdel, Hterm. cbn [negb orb].
    destruct Hm as [Hm|Hm]; rewrite Hm.
    - now rewrite (value_get d Ht).
    - now rewrite (value_post d Ht), appendPairs_map. }
  split; [exact Hrun|].
  intros Htpl. rewrite Hrun. cbn. unfold searchUrl. now rewrite Htpl.
Qed.

(** A new engine that was given a delegate and the method [POST], and has
    no search template: the delegate is asked to post to the null URL. *)
Lemma requestSearchResults_reachable_witness :
  let d := mutate (SetDelegate true)
             (mutate (SetSearchMethod "POST") newEngine) in
  isMethod (searchMethod d)
  /\ requestSearchResults exampleEnv d "a b"
     = Some {| request := QUrl_null; operation := PostOperation; data := "" |}
  /\ (searchUrlTemplate d = "" ->
      request <$> requestSearchResults exampleEnv d "a b" = Some QUrl_null).
Proof.
  apply (requestSearchResults_reachable exampleEnv
           (mutate (SetDelegate true)
              (mutate (SetSearchMethod "POST") newEngine)) "a b").
  - apply reachable_mutate, reachable_mutate, reachable_new.
  - reflexivity.
  - discriminate.
Defined.

End EngineMore.

(* ===================================================================== *)
(** * The event loop *)
(* ===================================================================== *)

Section SuggestionMore.
Import Qt OpenSearchEngine Props Further.
Context `{script : QtScript.QScriptEngine}.

(** ** The request the manager receives *)

(** X10.  On every engine made from a new one by calls of its functions,
    with a network access manager and a suggestions template, a request
    for a term that is not empty makes one new reply, for the suggestions
    URL: a [GetOperation] with an empty body when the method is [get], a
    [PostOperation] with the stored pairs as body when it is [post].  That
    reply is then the outstanding reply of the engine, and its
    [finished()] is connected to the slot. *)
Theorem requestSuggestions_reachable env searchTerm w :
  reachable (engine w) ->
  networkAccessManager (engine w) = true ->
  suggestionsUrlTemplate (engine w) <> "" ->
  searchTerm <> "" ->
  exists w',
    requestSuggestions env searchTerm w = Some w'
    /\ sent w' !! nextReply w
       = Some {| requestOperation :=
                   if String.eqb (suggestionsMethod (engine w)) "post"
                   then PostOperation else GetOperation;
                 requestUrl := suggestionsUrl env (engine w) searchTerm;
                 requestData :=
                   if String.eqb (suggestionsMethod (engine w)) "post"
                   then join "&" (map bodyPair (suggestionsParameters (engine w)))
                   else "" |}
    /\ suggestionsReply (engine w') = Some (nextReply w)
    /\ nextReply w ∈ connected w'
    /\ nextReply w' = S (nextReply w).
Proof.
  intros Hd Hnam Htpl Hterm. apply methodsOk_reachable in Hd.
  destruct Hd as (_ & _ & Hm).
  apply isEmpty_false in Htpl, Hterm.
  unfold requestSuggestions, providesSuggestions.
  rewrite Hterm, Htpl, Hnam. cbn [negb orb].
  destruct (suggestionsReply (engine w)) as [old|];
    [rewrite abort_disconnected|];
    cbn [withEngine engine setSuggestionsReply suggestionsMethod
         suggestionsParameters];
    destruct Hm as [Hm|Hm]; rewrite Hm;
    cbn [String.eqb Ascii.eqb Bool.eqb send];
    (eexists; split; [reflexivity|]); cbn;
    rewrite lookup_insert_eq, ?appendPairs_map;
    (split; [reflexivity|]); (split; [reflexivity|]);
    (split; [|reflexivity]);
    apply elem_of_union; right; now apply elem_of_singleton.
Qed.

(** ** Every signal answers a reply *)

Lemma orderly_newWorld d : orderly (newWorld d).
Proof.
  split.
  - apply coherent_newWorld.
  - intros id Hin. cbn in Hin. now apply not_elem_of_empty in Hin.
  - intros id Hin. cbn in Hin. now apply not_elem_of_empty in Hin.
  - intros id Hid. cbn in Hid. discriminate.
  - intros id l Hin. destruct Hin.
  - cbn. constructor.
Qed.

Lemma orderly_requestSuggestions env searchTerm w w' :
  orderly w ->
  requestSuggestions env searchTerm w = Some w' ->
  orderly w'.
Proof.
  intros Ho Hrun.
  destruct (isEmpty searchTerm || negb (providesSuggestions (engine w))
            || negb (networkAccessManager (engine w))) eqn:Hskip.
  - unfold requestSuggestions in Hrun.
    destruct (isEmpty searchTerm || negb (providesSuggestions (engine w)));
      [now injection Hrun as <-|].
    cbn [orb] in Hskip. rewrite Hskip in Hrun. now injection Hrun as <-.
  - apply orb_false_iff in Hskip as [Hskip Hnam].
    apply orb_false_iff in Hskip as [Hterm Htpl].
    apply negb_false_iff in Hnam, Htpl. unfold providesSuggestions in Htpl.
    apply negb_true_iff in Htpl.
    apply isEmpty_false in Hterm, Htpl.
    destruct (requestSuggestions_starts env searchTerm w Hnam Htpl Hterm)
      as (w1 & Hrun1 & Hreply & Hnext & _ & _ & Hconn & Habort & Hrecv & Hemit).
    rewrite Hrun in Hrun1. injection Hrun1 as <-.
    destruct Ho as [Hco Hc Ha Hr He Hn]. split.
    + now apply (coherent_requestSuggestions env searchTerm w).
    + intros id Hin. rewrite Hnext.
      apply Hconn in Hin as [[Hin _]| ->]; [specialize (Hc id Hin)|]; lia.
    + intros id Hin. rewrite Hnext. apply Habort in Hin as [Hin|Hold].
      * destruct (Ha id Hin) as [Hnc Hlt]. split; [|lia].
        intros Hin'. apply Hconn in Hin' as [[Hin' _]| ->];
          [contradiction | lia].
      * destruct (Hr id Hold) as [Hin' _]. specialize (Hc id Hin').
        split; [|lia].
        intros Hin2. apply Hconn in Hin2 as [[_ Hne]| ->];
          [contradiction | lia].
    + intros id Hid. rewrite Hreply in Hid. injection Hid as <-.
      split; [apply Hconn; now right|]. rewrite Hrecv.
      destruct (received w !! nextReply w) eqn:Hx; [|reflexivity].
      assert (nextReply w < nextReply w)
        by (apply (answered_made w Hco); congruence).
      lia.
    + intros id l Hin. rewrite Hemit in Hin.
      destruct (He id l Hin) as (Hin' & body & Hb & Hd).
      split; [|exists body; rewrite Hrecv; auto].
      apply Hconn. left. split; [assumption|].
      intros Hold. destruct (Hr id Hold) as [_ Hnone]. congruence.
    + now rewrite Hemit.
Qed.

Lemma orderly_step env ev w :
  orderly w ->
  exists w', step env ev w = Some w' /\ orderly w'.
Proof.
  intros Ho.
  destruct (coherent_step env ev w (orderly_coherent w Ho))
    as (w' & Hstep & Hco').
  exists w'. split; [exact Hstep|].
  destruct ev as [searchTerm|id body].
  - cbn [step] in Hstep.
    now apply (orderly_requestSuggestions env searchTerm w).
  - rewrite step_Complete in Hstep.
    destruct (decide (id < nextReply w)) as [Hmade|];
      [|now injection Hstep as <-].
    destruct (received w !! id) eqn:Hnone; [now injection Hstep as <-|].
    destruct Ho as [Hco Hc Ha Hr He Hn].
    assert (Hold : forall id' l',
              In (id', l') (emitted w) ->
              id' ∈ connected w
              /\ exists body', <[id := body]> (received w) !! id' = Some body'
                               /\ decode body' = Some l').
    { intros id' l' Hin'. destruct (He id' l' Hin') as (Hc' & b & Hb & Hd).
      split; [exact Hc'|]. exists b. split; [|exact Hd].
      rewrite lookup_insert_ne; [exact Hb|]. intros ->. congruence. }
    unfold emitFinished in Hstep. cbn [connected] in Hstep.
    destruct (decide (id ∈ connected w)) as [Hin|Hout].
    + rewrite (suggestionsObtained_decode id id) in Hstep
        by (cbn; now apply (connected_waiting w Hco)).
      unfold readAll in Hstep. cbn [received] in Hstep.
      rewrite lookup_insert_eq in Hstep.
      destruct (decode body) as [l|] eqn:Hdec; injection Hstep as <-;
        split; cbn; try assumption; try (intros id' Hid'; discriminate).
      * intros id' l' Hin'.
        apply in_app_or in Hin' as [Hin'|[Heq|[]]]; [now apply Hold|].
        injection Heq as <- <-. split; [exact Hin|].
        exists body. split; [apply lookup_insert_eq | exact Hdec].
      * rewrite List.map_app. cbn. apply NoDup_app.
        split; [exact Hn|]. split; [|apply NoDup_singleton].
        intros x Hx Hx'. apply list_elem_of_In in Hx, Hx'.
        destruct Hx' as [<-|[]].
        apply in_map_iff in Hx as ([id' l'] & Heq & Hin').
        cbn in Heq. subst id'.
        destruct (He id l' Hin') as (_ & b & Hb & _). congruence.
    + injection Hstep as <-. split; cbn; try assumption.
      intros id' Hid'. destruct (Hr id' Hid') as [Hc' Hnone'].
      split; [exact Hc'|]. rewrite lookup_insert_ne; [exact Hnone'|].
      intros ->. contradiction.
Qed.

Lemma orderly_run env evs : forall w,
  orderly w ->
  exists w', run env evs w = Some w' /\ orderly w'.
Proof.
  induction evs as [|ev evs IH]; intros w Ho; [eauto|].
  cbn [run]. destruct (orderly_step env ev w Ho) as (w1 & -> & Ho1).
  now apply IH.
Qed.

(** X11.  From the moment an engine has its manager, whatever requests
    are made and whatever replies the transport completes, in whatever
    order and with whatever bodies: the slot never runs on a null reply;
    every [suggestions] signal comes from a reply the manager made and the
    engine did not abort, and carries the list the answer of that reply
    decodes to; no reply gives two signals; so there are never more
    signals than requests the manager received. *)
Theorem signals_answer_replies env d evs :
  exists w,
    run env evs (newWorld d) = Some w
    /\ NoDup (map fst (emitted w))
    /\ length (emitted w) <= nextReply w
    /\ forall id l,
         In (id, l) (emitted w) ->
         id < nextReply w
         /\ (id ∉ aborted w)
         /\ exists body, received w !! id = Some body /\ decode body = Some l.
Proof.
  destruct (orderly_run env evs (newWorld d) (orderly_newWorld d))
    as (w & Hrun & [Hco Hc Ha Hr He Hn]).
  exists w. split; [exact Hrun|]. split; [exact Hn|]. split.
  - assert (Hle : length (map fst (emitted w))
                  <= length (seq 0 (nextReply w))).
    { apply NoDup_incl_length; [now apply NoDup_ListNoDup|].
      intros id Hin. apply in_map_iff in Hin as ([id' l] & Heq & Hin).
      cbn in Heq. subst id'. destruct (He id l Hin) as (Hin' & _).
      apply in_seq. specialize (Hc id Hin'). lia. }
    now rewrite List.length_map, List.length_seq in Hle.
  - intros id l Hin. destruct (He id l Hin) as (Hin' & Hbody).
    split; [now apply Hc|]. split; [|exact Hbody].
    intros Hab. now destruct (Ha id Hab).
Qed.

End SuggestionMore.

(** A new engine with a manager and a suggestions template. *)
Lemma requestSuggestions_reachable_witness :
  let w := {| OpenSearchEngine.engine :=
                Props.mutate (Props.SetNetworkAccessManager true)
                  (Props.mutate
                     (Props.SetSuggestionsUrlTemplate "http://s/?q={searchTerms}")
                     OpenSearchEngine.newEngine);
              OpenSearchEngine.nextReply := 0;
              OpenSearchEngine.sent := ∅;
              OpenSearchEngine.connected := ∅;
              OpenSearchEngine.aborted := ∅;
              OpenSearchEngine.received := ∅;
              OpenSearchEngine.emitted := [] |} in
  exists w',
    OpenSearchEngine.requestSuggestions (H := QtScript.jsonScriptEngine)
      Props.exampleEnv "a b" w = Some w'
    /\ OpenSearchEngine.sent w' !! 0
       = Some {| OpenSearchEngine.requestOperation := Qt.GetOperation;
                 OpenSearchEngine.requestUrl :=
                   Qt.QUrl_from "http://s/?q=a%20b" [];
                 OpenSearchEngine.requestData := "" |}
    /\ OpenSearchEngine.suggestionsReply (OpenSearchEngine.engine w') = Some 0
    /\ 0 ∈ OpenSearchEngine.connected w'
    /\ OpenSearchEngine.nextReply w' = 1.
Proof.
  apply (requestSuggestions_reachable (script := QtScript.jsonScriptEngine)
           Props.exampleEnv "a b"
           {| OpenSearchEngine.engine :=
                Props.mutate (Props.SetNetworkAccessManager true)
                  (Props.mutate
                     (Props.SetSuggestionsUrlTemplate "http://s/?q={searchTerms}")
                     OpenSearchEngine.newEngine);
              OpenSearchEngine.nextReply := 0;
              OpenSearchEngine.sent := ∅;
              OpenSearchEngine.connected := ∅;
              OpenSearchEngine.aborted := ∅;
              OpenSearchEngine.received := ∅;
              OpenSearchEngine.emitted := [] |}).
  - apply Props.reachable_mutate, Props.reachable_mutate, Props.reachable_new.
  - reflexivity.
  - discriminate.
  - discriminate.
Defined.

(* ===================================================================== *)
(** * Templates without placeholders, terms without reserved characters *)
(* ===================================================================== *)

Section TemplateMore.
Import Qt OpenSearchEngine Props Further.

Lemma replace_plain name after s :
  braceFree name = true -> plain s = true ->
  replace (String "{" (name +:+ "}")) after s = s.
Proof.
  intros Hn Hs. pose proof (replace_render name after [Text s] Hn) as H.
  cbn [forallb wfPiece render raw map substPiece] in H.
  rewrite append_nil_r in H. apply H. now rewrite Hs.
Qed.

Lemma replaceSource_plain after s :
  plain s = true -> replaceSource after s = s.
Proof.
  intros Hs. pose proof (replaceSource_render after [Text s]) as H.
  cbn [forallb wfPiece render raw map substPiece] in H.
  rewrite append_nil_r in H. apply H. now rewrite Hs.
Qed.

Lemma applyAll_plain env value s :
  plain s = true -> applyAll (substitutions env value) s = s.
Proof.
  intros Hs. unfold applyAll, substitutions. cbn [fold_left].
  change "{count}" with (String "{" ("count" +:+ "}")).
  change "{startIndex}" with (String "{" ("startIndex" +:+ "}")).
  change "{startPage}" with (String "{" ("startPage" +:+ "}")).
  change "{language}" with (String "{" ("language" +:+ "}")).
  change "{inputEncoding}" with (String "{" ("inputEncoding" +:+ "}")).
  change "{outputEncoding}" with (String "{" ("outputEncoding" +:+ "}")).
  change "{searchTerms}" with (String "{" ("searchTerms" +:+ "}")).
  rewrite (replace_plain "count") by (reflexivity || assumption).
  rewrite (replace_plain "startIndex") by (reflexivity || assumption).
  rewrite (replace_plain "startPage") by (reflexivity || assumption).
  rewrite (replace_plain "language") by (reflexivity || assumption).
  rewrite (replace_plain "inputEncoding") by (reflexivity || assumption).
  rewrite (replace_plain "outputEncoding") by (reflexivity || assumption).
  rewrite replaceSource_plain by assumption.
  now rewrite (replace_plain "searchTerms") by (reflexivity || assumption).
Qed.

(** X12.  A template without an opening brace has nothing to replace: both
    revisions of [parseTemplate] return it as it is, whatever the search
    term, the locale and the application name are.  The search URL of an
    engine with such a template and the method [post] is that template for
    every search term. *)
Theorem parseTemplate_plain env searchTerm template :
  plain template = true ->
  parseTemplate env searchTerm template = template
  /\ parseTemplate_rev1 env searchTerm template = template
  /\ (forall d,
        searchUrlTemplate d = template -> template <> "" ->
        searchMethod d = "post" ->
        searchUrl env d searchTerm = QUrl_from template []).
Proof.
  intros Hs.
  assert (Hcur : parseTemplate env searchTerm template = template)
    by apply (applyAll_plain env (toPercentEncoding searchTerm) _ Hs).
  split; [exact Hcur|]. split.
  - apply (applyAll_plain env searchTerm _ Hs).
  - intros d Htpl Hne Hm. unfold searchUrl, fromEncoded.
    rewrite Htpl, Hm. apply isEmpty_false in Hne. rewrite Hne.
    cbn [String.eqb Ascii.eqb Bool.eqb negb]. now rewrite Hcur.
Qed.

(** A URL without a placeholder, as the template of an engine that
    posts. *)
Lemma parseTemplate_plain_witness :
  parseTemplate exampleEnv "a b" "http://example.com/search"
  = "http://example.com/search"
  /\ parseTemplate_rev1 exampleEnv "a b" "http://example.com/search"
     = "http://example.com/search"
  /\ searchUrl exampleEnv
       (setSearchMethod "post"
          (setSearchUrlTemplate "http://example.com/search" newEngine)) "a b"
     = QUrl_from "http://example.com/search" [].
Proof.
  destruct (parseTemplate_plain exampleEnv "a b" "http://example.com/search")
    as (Hcur & Hrev & Hurl); [reflexivity|].
  split; [exact Hcur|]. split; [exact Hrev|].
  apply Hurl; [reflexivity | discriminate | reflexivity].
Defined.

Lemma toPercentEncoding_unreserved s :
  allUnreserved s = true -> toPercentEncoding s = s.
Proof.
  induction s as [|c s IH]; [reflexivity|].
  cbn [allUnreserved toPercentEncoding]. intros H.
  apply andb_prop in H as [Hc Hs]. now rewrite Hc, IH.
Qed.

Lemma addParameters_rev1_from env searchTerm ps e q :
  addParameters_rev1 env searchTerm ps (QUrl_from e q)
  = QUrl_from e
      (q ++ map (fun p => (fst p, parseTemplate_rev1 env searchTerm (snd p)))
              ps).
Proof.
  revert q. induction ps as [|p ps IH]; intros q; simpl.
  - now rewrite app_nil_r.
  - rewrite IH, <- app_assoc. reflexivity.
Qed.

Lemma addParameters_revisions env searchTerm ps retVal :
  allUnreserved searchTerm = true ->
  addParameters env searchTerm ps retVal
  = addParameters_rev1 env searchTerm ps retVal.
Proof.
  intros Hterm. revert retVal.
  induction ps as [|p ps IH]; intros retVal; [reflexivity|].
  cbn [addParameters addParameters_rev1]. rewrite IH.
  unfold parseTemplate, parseTemplate_rev1.
  now rewrite (toPercentEncoding_unreserved searchTerm Hterm).
Qed.

(** X13.  The two revisions of the file differ in the percent-encoding of
    the search term and in the request method.  For a term of unreserved
    characters (letters, digits, [-], [.], [_], [~]) both revisions of
    [parseTemplate] give the same result on every template, and the
    search and suggestions URLs of the two revisions are the same for
    every engine whose method is not [post].  With the method [post], a
    template and a parameter they are not: the first revision adds the
    query items, the second does not. *)
Theorem revisions_agree env searchTerm :
  allUnreserved searchTerm = true ->
  (forall template,
     parseTemplate env searchTerm template
     = parseTemplate_rev1 env searchTerm template)
  /\ (forall d,
        searchMethod d <> "post" ->
        searchUrl env d searchTerm = searchUrl_rev1 env d searchTerm)
  /\ (forall d,
        suggestionsMethod d <> "post" ->
        suggestionsUrl env d searchTerm = suggestionsUrl_rev1 env d searchTerm)
  /\ (forall d,
        searchMethod d = "post" ->
        searchUrlTemplate d <> "" ->
        searchParameters d <> [] ->
        searchUrl env d searchTerm <> searchUrl_rev1 env d searchTerm).
Proof.
  intros Hterm.
  assert (Htpl : forall template,
            parseTemplate env searchTerm template
            = parseTemplate_rev1 env searchTerm template).
  { intros template. unfold parseTemplate, parseTemplate_rev1.
    now rewrite (toPercentEncoding_unreserved searchTerm Hterm). }
  split; [exact Htpl|]. split; [|split].
  - intros d Hm. unfold searchUrl, searchUrl_rev1.
    destruct (isEmpty (searchUrlTemplate d)); [reflexivity|].
    apply String.eqb_neq in Hm. rewrite Hm. cbn [negb].
    now rewrite Htpl, addParameters_revisions.
  - intros d Hm. unfold suggestionsUrl, suggestionsUrl_rev1.
    destruct (isEmpty (suggestionsUrlTemplate d)); [reflexivity|].
    apply String.eqb_neq in Hm. rewrite Hm. cbn [negb].
    now rewrite Htpl, addParameters_revisions.
  - intros d Hm Hne Hps. unfold searchUrl, searchUrl_rev1, fromEncoded.
    apply isEmpty_false in Hne. rewrite Hne, Hm.
    cbn [String.eqb Ascii.eqb Bool.eqb negb].
    rewrite addParameters_rev1_from.
    intros [= _ Hq]. destruct (searchParameters d); [contradiction | discriminate].
Qed.

(** The term [qt-4.5] on a template with two placeholders, and on the
    GitHub description. *)
Lemma revisions_agree_witness :
  parseTemplate exampleEnv "qt-4.5" "http://x/?q={searchTerms}&l={language}"
  = parseTemplate_rev1 exampleEnv "qt-4.5"
      "http://x/?q={searchTerms}&l={language}"
  /\ searchUrl exampleEnv github "qt-4.5"
     = searchUrl_rev1 exampleEnv github "qt-4.5".
Proof.
  destruct (revisions_agree exampleEnv "qt-4.5") as (Htpl & Hsearch & _);
    [reflexivity|].
  split; [apply Htpl|]. apply Hsearch. discriminate.
Defined.

End TemplateMore.

(* ===================================================================== *)
(** * Where the walk of the reader leaves the document *)
(* ===================================================================== *)

Section ReaderBroken.
Import Qt QXmlStream OpenSearchReader Document Further.

Ltac count_tokens :=
  repeat match goal with
         | Hin : input ?r = _, Hf : context [length (input ?r)] |- _ =>
             rewrite Hin in Hf
         end;
  cbn [input moveTo setEngine] in *; simpl tokens in *;
  repeat (rewrite ?length_app, ?length_cons in *; cbn [length] in * );
  lia.

(** The loop of [readDocument] on children it walks in step, followed by
    anything: it gets to what follows with the engine of those children,
    the error state as it was, and fuel for what follows. *)
Lemma readDocument_loop_prefix children :
  forall f rest r e (Q : option OpenSearchReader -> Prop),
  atEnd r = false ->
  m_engine r = Some e ->
  forallb steadyChild children = true ->
  input r = flat_map tokens children ++ rest ->
  length (input r) < f ->
  (forall f' r',
     length rest < f' -> atEnd r' = false -> input r' = rest ->
     m_engine r' = Some (fold_left applyChild children e) ->
     error r' = error r ->
     Q (readDocument_loop f' r')) ->
  Q (readDocument_loop f r).
Proof.
  induction children as [|k children IH];
    intros f rest r e Q Hend He Hk Hin Hf Hcont.
  { apply Hcont; try assumption; try reflexivity.
    simpl in Hin. rewrite Hin in Hf. exact Hf. }
  destruct f as [|f]; [lia|]. simpl in Hin. cbn [readDocument_loop].
  rewrite Hend.
  simpl in Hk. apply andb_prop in Hk as [Hk Hks].
  assert (Hnext : forall t,
    atEnd (moveTo t (flat_map tokens children ++ rest) r) = false ->
    length (flat_map tokens children ++ rest) < f ->
    Q (readDocument_loop f
         (setEngine (Some (applyChild e k))
            (moveTo t (flat_map tokens children ++ rest) r)))).
  { intros t Ht Hlen.
    apply (IH f rest _ (applyChild e k)); try reflexivity; assumption. }
  assert (Hsame : forall t rest1,
    moveTo t rest1 r = setEngine (Some e) (moveTo t rest1 r)).
  { intros. unfold setEngine, moveTo. simpl. now rewrite He. }
  destruct k as [kn kns kattrs kids|text|text|]; simpl in Hin;
    [|rewrite (readNext_moveTo r _ _ Hend Hin) by discriminate;
      cbn [isEndElement isStartElement moveTo token negb];
      rewrite Hsame; apply Hnext; [reflexivity | count_tokens] ..].
  rewrite <- !app_assoc in Hin. simpl in Hin.
  rewrite (readNext_moveTo r _ _ Hend Hin) by discriminate.
  cbn [isEndElement isStartElement moveTo token negb name].
  cbn [applyChild] in Hnext.
  set (rest1 := flat_map tokens children ++ rest) in *.
  set (r1 := moveTo (StartElement kn kns kattrs)
               (flat_map tokens kids ++ EndElement kn kns :: rest1) r).
  assert (Hf1 : length (input r1) < f) by (subst r1 rest1; count_tokens).
  assert (Hlen : length rest1 < f) by (subst r1 rest1; count_tokens).
  cbn [steadyChild] in Hk. unfold isTextElementName in Hk.
  destruct (String.eqb kn "ShortName").
  { apply negb_true_iff in Hk.
    unfold readName.
    rewrite (readText_steady f OpenSearchEngine.setName kids kn kns kattrs
               rest1 r1 e); try reflexivity; try assumption.
    now apply Hnext. }
  destruct (String.eqb kn "Description").
  { apply negb_true_iff in Hk.
    unfold readDescription.
    rewrite (readText_steady f OpenSearchEngine.setDescription kids kn kns
               kattrs rest1 r1 e); try reflexivity; try assumption.
    now apply Hnext. }
  destruct (String.eqb kn "Url").
  { assert (Hurl : forallb steadyUrlChild kids = true).
    { revert Hk. cbn [orb].
      destruct (String.eqb kn "Image" || String.eqb kn "Tags"); [|auto].
      intros Hk. apply negb_true_iff in Hk.
      clear - Hk. induction kids as [|k kids IHk]; [reflexivity|].
      simpl in Hk. apply orb_false_iff in Hk as [Hk1 Hk2].
      simpl. rewrite (IHk Hk2). destruct k; [discriminate|reflexivity..]. }
    rewrite (readUrl_steady f kattrs kids kn kns rest1 r1 e);
      try reflexivity; try assumption.
    now apply Hnext. }
  destruct (String.eqb kn "Image").
  { apply negb_true_iff in Hk.
    unfold readImage.
    rewrite (readText_steady f OpenSearchEngine.setImageUrl kids kn kns
               kattrs rest1 r1 e); try reflexivity; try assumption.
    now apply Hnext. }
  destruct (String.eqb kn "Tags").
  { apply negb_true_iff in Hk.
    unfold readTags.
    rewrite (readText_steady f
               (fun text => OpenSearchEngine.setTags (splitSkipEmpty "" text))
               kids kn kns kattrs rest1 r1 e);
      try reflexivity; try assumption.
    now apply Hnext. }
  rewrite (skipSubtree_children f kids kn kns rest1 r1);
    try reflexivity; try assumption.
  subst r1. rewrite moveTo_moveTo, Hsame. now apply Hnext.
Qed.

Lemma readDocument_loop_broken children f rest r e :
  atEnd r = false ->
  m_engine r = Some e ->
  forallb steadyChild children = true ->
  broken rest = true ->
  input r = flat_map tokens children ++ rest ->
  length (input r) < f ->
  stopsBroken rest (fold_left applyChild children e) (readDocument_loop f r).
Proof.
  intros Hend He Hk Hb Hin Hf.
  apply (readDocument_loop_prefix children f rest r e); try assumption.
  intros f' r' Hl Ha Hi Hm _.
  destruct f' as [|f']; [lia|]. cbn [readDocument_loop]. rewrite Ha.
  rewrite (readNext_cases r' Ha), Hi.
  destruct rest as [|t rest]; [|destruct t; try discriminate];
    cbn [isEndElement isStartElement raise token negb];
    rewrite readDocument_loop_atEnd by reflexivity;
    eexists; (split; [reflexivity|]); cbn; repeat split; exact Hm.
Qed.

(** X14.  A description that breaks off between two children of its root,
    because the input ends there or stops being well-formed there, after
    children the reader walks in step, gives the engine of those
    children: [read] returns it with every field they set, and only the
    error of the stream reader (premature end of document, or not
    well-formed) tells that the description is not complete. *)
Theorem read_broken_off attrs children rest :
  forallb steadyChild children = true ->
  broken rest = true ->
  exists r,
    read (StartDocument
          :: StartElement "OpenSearchDescription" openSearchNamespace attrs
          :: flat_map tokens children ++ rest) = Some r
    /\ token r = Invalid
    /\ error r = breakError rest
    /\ m_engine r
       = Some (fold_left applyChild children OpenSearchEngine.newEngine).
Proof.
  intros Hk Hb. unfold read, readDocument.
  set (device := StartDocument :: _).
  rewrite (readToStartElement_prolog [StartDocument]
             (StartElement "OpenSearchDescription" openSearchNamespace attrs)
             (flat_map tokens children ++ rest));
    try reflexivity; [| eauto | subst device; simpl; lia].
  cbn [name namespaceUri moveTo token]. cbn [String.eqb negb orb].
  rewrite !String.eqb_refl. cbn [negb orb].
  apply (readDocument_loop_broken children (S (length device)) rest _
           OpenSearchEngine.newEngine); try reflexivity; try assumption.
  subst device. cbn [input moveTo length]. lia.
Qed.

(** A description whose input ends after the name and the search URL. *)
Lemma read_broken_off_witness :
  exists r,
    read [ StartDocument;
           StartElement "OpenSearchDescription" openSearchNamespace [];
           StartElement "ShortName" ns []; Characters "Name";
           EndElement "ShortName" ns;
           StartElement "Url" ns [("template", "http://a/")];
           EndElement "Url" ns ] = Some r
    /\ token r = Invalid
    /\ error r = PrematureEndOfDocumentError
    /\ m_engine r
       = Some (OpenSearchEngine.setSearchMethod ""
                 (OpenSearchEngine.setSearchParameters []
                    (OpenSearchEngine.setSearchUrlTemplate "http://a/"
                       (OpenSearchEngine.setName "Name"
                          OpenSearchEngine.newEngine)))).
Proof.
  apply (read_broken_off []
           [ Element "ShortName" ns [] [CharData "Name"];
             Element "Url" ns [("template", "http://a/")] [] ] []);
    reflexivity.
Defined.

(** ** A parameter without a name or a value *)





(** ** An element inside a text element *)




End ReaderBroken.

(* ===================================================================== *)
(** * The example program *)
(* ===================================================================== *)

Section ExampleFacts.
Import Qt QXmlStream OpenSearchEngine Props Document Further Example.
Context `{script : QtScript.QScriptEngine}.

Lemma requestSuggestions_returns env searchTerm w :
  coherent w ->
  exists w', requestSuggestions env searchTerm w = Some w' /\ coherent w'.
Proof. intros Hco. apply (coherent_step env (Request searchTerm) w Hco). Qed.

Lemma exec_returns env happening w :
  coherent w -> exists text, exec env happening w = Some text.
Proof.
  intros Hco. unfold exec. destruct happening as [body|]; [|eauto].
  destruct (suggestionsReply (engine w)) as [reply|]; [|eauto].
  destruct (coherent_step env (Complete reply body) w Hco) as (w' & -> & _).
  eauto.
Qed.

(** X15.  The example program does not crash, whatever its arguments
    are, whatever the file holds and whatever the network answers: the
    engine it gets from the reader is never null, and the slot never runs
    without a reply. *)
Theorem main_returns env program arguments files happening :
  exists text code,
    main env (program :: arguments) files happening = Some (text, code).
Proof.
  unfold main.
  destruct arguments as [|filePath [|searchTerm more]]; [eauto | eauto|].
  destruct (files filePath) as [file|]; [|eauto].
  destruct (read_total file) as (r & e & -> & ->).
  destruct (hasError r); [eauto|].
  destruct (negb (isValid e)); [eauto|].
  destruct (requestSuggestions_returns env searchTerm
              (newWorld (setNetworkAccessManager true e))
              (coherent_newWorld _)) as (w & -> & Hco).
  destruct (exec_returns env happening w Hco) as (text & ->).
  eauto.
Qed.

Lemma exec_idle env happening w :
  suggestionsReply (engine w) = None -> exec env happening w = Some "".
Proof. intros Hr. unfold exec. destruct happening; [now rewrite Hr | reflexivity]. Qed.

Lemma exec_answered env body w id :
  suggestionsReply (engine w) = Some id ->
  id < nextReply w ->
  id ∈ connected w ->
  received w !! id = None ->
  emitted w = [] ->
  exec env (Answered body) w
  = Some match decode body with
         | Some l => printSuggestions l
         | None => ""
         end.
Proof.
  intros Hr Hmade Hc Hrecv He. unfold exec. rewrite Hr.
  rewrite step_Complete.
  destruct (decide (id < nextReply w)) as [Hlt|Hge]; [|contradiction].
  rewrite Hrecv. unfold emitFinished. cbn [connected].
  destruct (decide (id ∈ connected w)) as [Hin|Hout]; [|contradiction].
  rewrite (suggestionsObtained_decode _ id) by exact Hr.
  unfold readAll. cbn [received]. rewrite lookup_insert_eq.
  destruct (decode body) as [l|]; cbn; rewrite He; cbn; [|reflexivity].
  now rewrite append_nil_r.
Qed.

(** X16.  The example program on a description whose children the reader
    walks in step.  When the description is not valid (no [ShortName] with
    a text, or no search [Url]) it says so and exits with the code 1.
    Otherwise it exits with the code 0, and it prints suggestions only
    when the description has a suggestions [Url], the search term is not
    empty and the reply is finished, before the timer fires, with a body
    that decodes to a list: then it prints the list, one suggestion on a
    line, or [No suggestions.] for the empty list.  In every other case it
    prints nothing. *)
Theorem main_on_description env program filePath searchTerm more files
    happening attrs children :
  files filePath = Some (document (description attrs children)) ->
  forallb steadyChild children = true ->
  main env (program :: filePath :: searchTerm :: more) files happening
  = Some
      (match lastShortName children, firstUrlOfType "text/html" children with
       | Some (String _ _), Some _ =>
           (match firstUrlOfType "application/x-suggestions+json" children,
                  happening, searchTerm with
            | Some _, Answered body, String _ _ =>
                match decode body with
                | Some l => printSuggestions l
                | None => ""
                end
            | _, _, _ => ""
            end, 0)
       | _, _ => ("The OpenSearch description is invalid." +:+ newline, 1)
       end).
Proof.
  intros Hfile Hk. unfold main. rewrite Hfile.
  rewrite (read_steady attrs children Hk).
  cbn [hasError OpenSearchReader.error OpenSearchReader.m_engine].
  rewrite (isValid_fold children).
  destruct (lastShortName children) as [[|c text]|];
    destruct (firstUrlOfType "text/html" children) as [search|];
    cbn [isEmpty negb]; try reflexivity.
  pose proof (suggestionsRecord_fold children newEngine eq_refl eq_refl)
    as Hrec.
  unfold suggestionsRecord in Hrec.
  set (e := fold_left applyChild children newEngine) in *.
  set (w := newWorld (setNetworkAccessManager true e)).
  destruct (firstUrlOfType "application/x-suggestions+json" children)
    as [[a ks]|] eqn:Hfirst; cbn [recordOf] in Hrec.
  - assert (Htpl : suggestionsUrlTemplate e <> "").
    { injection Hrec as -> _ _. apply isEmpty_false.
      apply (firstUrlOfType_template _ _ _ _ Hfirst). }
    destruct searchTerm as [|c' term'].
    + unfold requestSuggestions. cbn [isEmpty orb].
      rewrite exec_idle by reflexivity. now destruct happening.
    + destruct (requestSuggestions_starts env (String c' term') w)
        as (w' & -> & Hreply & Hnext & _ & _ & Hconn & _ & Hrecv & Hemit);
        [reflexivity | exact Htpl | discriminate|].
      destruct happening as [body|]; [|reflexivity].
      rewrite (exec_answered env body w' 0);
        [reflexivity | exact Hreply | rewrite Hnext; cbn; lia
         | apply Hconn; now right | now rewrite Hrecv | now rewrite Hemit].
  - assert (Htpl : suggestionsUrlTemplate e = "") by now injection Hrec.
    unfold requestSuggestions, providesSuggestions.
    cbn [engine w newWorld setSuggestionsReply setNetworkAccessManager
         suggestionsUrlTemplate].
    rewrite Htpl. cbn [isEmpty negb]. rewrite orb_true_r.
    rewrite exec_idle by reflexivity. reflexivity.
Qed.

End ExampleFacts.

(** The GitHub description, the term [a] and the answer of the example:
    the program prints the two suggestions. *)
Lemma main_on_description_witness :
  Example.main (H := QtScript.jsonScriptEngine) Props.exampleEnv
    ["suggestions"; "github.xml"; "a"]
    (fun _ =>
       Some (Document.document
               (Document.description [] (Further.canonical Props.github))))
    (Example.Answered Props.exampleResponse)
  = Some ("a" +:+ Example.newline +:+ "b" +:+ Example.newline, 0).
Proof.
  rewrite (main_on_description (script := QtScript.jsonScriptEngine)
             Props.exampleEnv "suggestions" "github.xml" "a" []
             (fun _ =>
                Some (Document.document
                        (Document.description []
                           (Further.canonical Props.github))))
             (Example.Answered Props.exampleResponse) []
             (Further.canonical Props.github) eq_refl eq_refl).
  reflexivity.
Defined.

